(** * Devstral Vision Workspace: workspace and process orchestration

    A shallow embedding of [src/devstral_workspace.py] (class
    [DevstralWorkspace]): project registry, metadata store, generation
    history and dev-server supervisor, followed by the properties the
    specification states about them.

    Conventions of the embedding.
    - A Python [str] is a [string] whose characters are code points below
      256.  Status lines, which the source decorates with pictographs, are
      constructors of [status] and [log_msg]; each constructor quotes the
      text it stands for.
    - A method of the class is a computation [M A]: it takes the state (the
      fields of [self] together with the part of the operating system the
      class talks to) and yields an outcome, a value or a raised exception,
      and the state at that point.  A raise keeps the effects that happened
      before it, as in Python.
    - Paths are POSIX paths.  The file system is a finite map from
      absolute, normalised locations to nodes; symbolic links are left out.
      A regular file holds a [content]; [json.load] and [json.dump] are
      modelled on parsed documents: a file holds either the text of a JSON
      document ([Json j]) or text that is not one ([Text s]).
    - The environment is part of the state: the clock, the ports on which
      [bind] fails, the children and whether they live, what the package
      installer and the code generator answer.  It changes between calls
      ([env]); within one call every reading of the clock gives the same
      value.
    - [process.wait()] returns, with the child gone.
    - Every system call that changes the file system or a child process is
      appended to a ghost [trace], in program order. *)

From Stdlib Require Import ZArith Ascii String.
From stdpp Require Import gmap strings list fin_maps pretty.

Local Open Scope string_scope.
Local Open Scope list_scope.
Local Open Scope Z_scope.
Local Set Warnings "-register-all".

(** ** Strings and slices *)

Module Py.

(** [str.isspace] on one character below code point 256: the ASCII white
    space of CPython's table (9-13, 28-31, 32) and U+0085, U+00A0. *)
Definition isspace (c : ascii) : bool :=
  let n := nat_of_ascii c in
  ((9 <=? n) && (n <=? 13) || (28 <=? n) && (n <=? 31) || (n =? 32)
   || (n =? 133) || (n =? 160))%nat.

Fixpoint lstrip_chars (l : list ascii) : list ascii :=
  match l with
  | c :: l' => if isspace c then lstrip_chars l' else l
  | [] => []
  end.

(** [s.strip()] *)
Definition strip (s : string) : string :=
  string_of_list_ascii
    (rev (lstrip_chars (rev (lstrip_chars (list_ascii_of_string s))))).

(** [s.startswith(p)] *)
Fixpoint startswith (p s : string) : bool :=
  match p, s with
  | EmptyString, _ => true
  | String a p', String b s' => if Ascii.eqb a b then startswith p' s' else false
  | String _ _, EmptyString => false
  end.

(** [l[-n:]] for a positive [n]: the last [n] elements, all of [l] when it
    is shorter. *)
Definition last_n {A} (n : nat) (l : list A) : list A :=
  drop (length l - n) l.

(** [s.replace(a, b)] for single characters. *)
Fixpoint replace_char (a b : ascii) (s : string) : string :=
  match s with
  | EmptyString => EmptyString
  | String c s' => String (if Ascii.eqb c a then b else c) (replace_char a b s')
  end.

(** [s.split("/")] *)
Fixpoint split_slash_aux (cur : string) (s : string) : list string :=
  match s with
  | EmptyString => [String.rev cur]
  | String c s' =>
      if Ascii.eqb c "/"%char then String.rev cur :: split_slash_aux EmptyString s'
      else split_slash_aux (String c cur) s'
  end.

Definition split_slash (s : string) : list string := split_slash_aux EmptyString s.

(** [sorted(l, key=f)] over strings: stable insertion by code-point order. *)
Fixpoint insert_by {A} (key : A → string) (x : A) (l : list A) : list A :=
  match l with
  | [] => [x]
  | y :: l' => if String.ltb (key x) (key y) then x :: l else y :: insert_by key x l'
  end.

Definition sorted_by {A} (key : A → string) (l : list A) : list A :=
  foldl (λ acc x, insert_by key x acc) [] l.

End Py.

(** ** JSON values, as [json.load] returns them *)

(** Numbers are integers: the descriptors of this program hold no others. *)

Inductive json :=
| JNull
| JBool (b : bool)
| JNum (z : Z)
| JStr (s : string)
| JArr (l : list json)
| JObj (kv : list (string * json)).

(** Python exceptions that the modelled code can meet. *)
Inductive exn :=
| JSONDecodeError
| UnicodeDecodeError
| AttributeError
| KeyError
| TypeError
| FileNotFoundError
| NotADirectoryError
| IsADirectoryError
| FileExistsError
| ChildProcessError
| OSError.                   (* an [OSError] of no more special class *)

Module Dict.

Fixpoint lookup (k : string) (kv : list (string * json)) : option json :=
  match kv with
  | [] => None
  | (k', v) :: kv' => if String.eqb k k' then Some v else lookup k kv'
  end.

(** [d[k] = v]: an existing key keeps its place, a new one goes last. *)
Fixpoint set (k : string) (v : json) (kv : list (string * json)) : list (string * json) :=
  match kv with
  | [] => [(k, v)]
  | (k', v') :: kv' => if String.eqb k k' then (k, v) :: kv' else (k', v') :: set k v kv'
  end.

(** [meta.get(k, default)]: only a dict has [get]. *)
Definition get (j : json) (k : string) (dflt : json) : exn + json :=
  match j with
  | JObj kv => inr (default dflt (lookup k kv))
  | _ => inl AttributeError
  end.

End Dict.

(** ** Paths, as [pathlib.Path] builds them *)

(** A path is its anchor (absolute or not) and its parts.  Building a path
    drops empty and ["."] parts and keeps [".."] parts: only the operating
    system resolves those. *)
Record path := Path { absolute : bool; parts : list string }.

#[global] Instance path_eq_dec : EqDecision path.
Proof. solve_decision. Defined.

Definition keep_part (s : string) : bool :=
  negb (String.eqb s "") && negb (String.eqb s ".").

Definition parse_path (s : string) : path :=
  Path (Py.startswith "/" s) (List.filter keep_part (Py.split_slash s)).

(** [p / s]: an absolute right operand replaces the left one. *)
Definition join (p : path) (s : string) : path :=
  let q := parse_path s in
  if absolute q then q else Path (absolute p) (parts p ++ parts q).

Infix "//" := join (at level 40, left associativity).

(** [p.parent]: a path without parts is its own parent. *)
Definition parent (p : path) : path :=
  Path (absolute p) (removelast (parts p)).

(** [p.name] *)
Definition name (p : path) : string := List.last (parts p) "".

(** ** The file system *)

(** Static scaffold texts, none of which is a JSON document; each stands
    for the literal written by the [_create_*_structure] method named. *)
Inductive scaffold :=
| ReactViteConfig | ReactIndexHtml | ReactMainJsx | ReactAppJsx
| ReactIndexCss | ReactAppCss
| VueViteConfig | VueIndexHtml | VueMainJs | VueAppVue
| NextConfigJs | NextLayoutJs | NextPageJs
| HtmlIndexHtml | HtmlStyleCss | HtmlMainJs.

Inductive content :=
| Text (s : string)          (* text that is not a JSON document *)
| Json (j : json)            (* the text of the JSON document [j] *)
| Scaffold (t : scaffold)    (* a static scaffold text *)
| Png (image : nat).         (* an image saved by PIL *)

Inductive node :=
| Dir
| File (c : content).

(** Locations are absolute and normalised: the names from the root down. *)
Abbreviation loc := (list string).
Abbreviation fsmap := (gmap (list string) node).

Module Fs.

(** The root always exists and is a directory. *)
Definition node_at (fs : fsmap) (l : loc) : option node :=
  match l with
  | [] => Some Dir
  | _ => fs !! l
  end.

(** Resolution of the parts of a path from location [cur], as the kernel
    walks them: before a part is entered, the location reached so far must
    be a directory; [".."] steps to the parent.  The last part itself need
    not exist. *)
Fixpoint walk (fs : fsmap) (cur : loc) (ps : list string) : exn + loc :=
  match ps with
  | [] => inr cur
  | c :: ps' =>
      match node_at fs cur with
      | None => inl FileNotFoundError
      | Some (File _) => inl NotADirectoryError
      | Some Dir =>
          walk fs (if String.eqb c ".." then removelast cur else cur ++ [c]) ps'
      end
  end.

Definition resolve (fs : fsmap) (cwd : loc) (p : path) : exn + loc :=
  walk fs (if absolute p then [] else cwd) (parts p).

(** [os.stat]: the node a path leads to. *)
Definition stat (fs : fsmap) (cwd : loc) (p : path) : exn + node :=
  match resolve fs cwd p with
  | inl e => inl e
  | inr l => match node_at fs l with
             | Some n => inr n
             | None => inl FileNotFoundError
             end
  end.

(** [p.exists()] and [p.is_dir()] answer [False] on any error. *)
Definition exists_ (fs : fsmap) (cwd : loc) (p : path) : bool :=
  match stat fs cwd p with inr _ => true | inl _ => false end.

Definition is_dir (fs : fsmap) (cwd : loc) (p : path) : bool :=
  match stat fs cwd p with inr Dir => true | _ => false end.

(** The tree below (and including) a location. *)
Definition below (l : loc) (k : loc) : Prop := l `prefix_of` k.

Definition remove_tree (l : loc) (fs : fsmap) : fsmap :=
  filter (λ kv, ¬ below l kv.1) fs.

(** What is inside a directory: the tree below it, without the directory
    itself. *)
Definition inside (l : loc) (k : loc) : Prop := l `prefix_of` k ∧ k ≠ l.

Definition empty_dir (l : loc) (fs : fsmap) : fsmap :=
  filter (λ kv, ¬ inside l kv.1) fs.

(** The names directly inside a directory. *)
Definition children (fs : fsmap) (l : loc) : list string :=
  omap (λ k, if decide (removelast k = l ∧ k ≠ []) then Some (List.last k "") else None)
       (map fst (map_to_list fs)).

End Fs.

(** ** The state: the operating system as the class sees it, and [self] *)

(** One reading of the clock, in the renderings the source asks for:
    [datetime.now().isoformat()], [strftime("%H:%M:%S")],
    [strftime("%Y%m%d_%H%M%S")] and [int(time.time() * 1000)]. *)
Record reading := Reading {
  iso : string;
  hms : string;
  stamp : string;
  epoch_ms : Z
}.

(** The command line of a dev server: [npm run dev -- --port p] or
    [python -m http.server p]. *)
Inductive command :=
| NpmRunDev (port : Z)
| HttpServer (port : Z).

Definition port_of (c : command) : Z :=
  match c with NpmRunDev p | HttpServer p => p end.

(** A child started with [subprocess.Popen]; [alive] is [poll() is None]. *)
Record proc := Proc { cmd : command; pcwd : path; alive : bool }.

(** What [subprocess.run(["npm", "install"], ...)] does. *)
Inductive install_result :=
| Installed
| InstallFailed (stderr : string)
| InstallMissing.

Inductive event :=
| EvMkdir (l : loc)
| EvTruncate (l : loc)
| EvWrite (l : loc) (c : content)
| EvEmpty (l : loc)           (* everything inside the directory is removed *)
| EvRmdir (l : loc)
| EvInstall (l : loc)
| EvSpawn (pid : nat) (c : command) (d : path)
| EvTerminate (pid : nat)
| EvWait (pid : nat).

Record world := World {
  fs : fsmap;
  cwd : loc;
  procs : list proc;          (* children spawned so far; a pid is an index *)
  busy : list Z;              (* ports on which [bind] fails *)
  now : reading;
  installer : install_result;
  can_spawn : bool;           (* whether [Popen] finds its program *)
  answer : exn + content;     (* what the code generator answers, cleaned *)
  trace : list event
}.

(** Lines of the terminal, [add_terminal_output(text)]. *)
Inductive log_msg :=
| LogLoaded (project_name : string)          (* "Loaded project: {project_name}" *)
| LogLocation (p : path)                     (* "Location: {p.absolute()}" *)
| LogCreated (project_name : string)         (* "Created project: {project_name}" *)
| LogScreenshots (p : path)                  (* "Screenshots: {p.absolute()}" *)
| LogGenerating (target_file : string)       (* "Generating code for: {target_file}" *)
| LogProjectType (t : json)                  (* "Project type: {project_type}" *)
| LogSaved (target_file : string)            (* "Saved to {target_file}" *)
| LogSavedScreenshot (filename : string)     (* "Saved screenshot: {filename}" *)
| LogHistoryError (e : exn)                  (* "Error loading history: {e}" *)
| LogDeleted (project_name : string)         (* "Deleted project: {project_name}" *)
| LogInstalling                              (* "Installing dependencies..." *)
| LogInstallFailed (stderr : string)         (* "npm install failed: {stderr}" *)
| LogHttpServer                              (* "Starting Python HTTP server for HTML project..." *)
| LogStarting (port : Z)                     (* "Starting dev server on port {port}..." *)
| LogStopped                                 (* "Dev server stopped" *)
| LogOutput (line : string).                 (* a line the dev server printed *)

Record ide := Ide {
  model : bool;                                  (* [self.model is not None] *)
  current_project : option path;
  terminal_history : list (string * log_msg);    (* "[{hms}] {text}" *)
  dev_server_process : option nat;
  preview_port : option Z
}.

Record state := State { os : world; self : ide }.

(** ** Computations *)

Inductive outcome (A : Type) :=
| Ret (a : A)
| Raise (e : exn).
Arguments Ret {A} a.
Arguments Raise {A} e.

Definition M (A : Type) : Type := state → outcome A * state.

Definition ret {A} (a : A) : M A := λ st, (Ret a, st).
Definition raise {A} (e : exn) : M A := λ st, (Raise e, st).

Definition bind {A B} (m : M A) (k : A → M B) : M B :=
  λ st, match m st with
        | (Ret a, st') => k a st'
        | (Raise e, st') => (Raise e, st')
        end.

(** [try: m  except: h] *)
Definition try_except {A} (m : M A) (h : exn → M A) : M A :=
  λ st, match m st with
        | (Ret a, st') => (Ret a, st')
        | (Raise e, st') => h e st'
        end.

Notation "x <- m ;; k" := (bind m (λ x, k))
  (at level 100, m at next level, right associativity).
Notation "m ;; k" := (bind m (λ _, k))
  (at level 100, right associativity).

Definition lift {A} (r : exn + A) : M A :=
  match r with inl e => raise e | inr a => ret a end.

Definition gets {A} (f : state → A) : M A := λ st, (Ret (f st), st).
Definition modify (f : state → state) : M unit := λ st, (Ret tt, f st).

(** Reading the state without changing it, with a possible raise. *)
Definition try_gets {A} (f : state → exn + A) : M A := λ st, (lift (f st)) st.

(** What a system call does to the files and to the children. *)
Definition apply_fs (ev : event) (f : fsmap) : fsmap :=
  match ev with
  | EvMkdir l | EvInstall l => <[l := Dir]> f
  | EvTruncate l => <[l := File (Text "")]> f
  | EvWrite l c => <[l := File c]> f
  | EvEmpty l => Fs.empty_dir l f
  | EvRmdir l => delete l f
  | EvSpawn _ _ _ | EvTerminate _ | EvWait _ => f
  end.

Definition exited (p : proc) : proc := Proc (cmd p) (pcwd p) false.

Definition apply_procs (ev : event) (ps : list proc) : list proc :=
  match ev with
  | EvSpawn _ c d => ps ++ [Proc c d true]
  | EvWait pid => alter exited pid ps
  | _ => ps
  end.

Definition record (ev : event) (w : world) : world :=
  World (apply_fs ev (fs w)) (cwd w) (apply_procs ev (procs w)) (busy w) (now w)
        (installer w) (can_spawn w) (answer w) (trace w ++ [ev]).

Definition on_os (f : world → world) (st : state) : state := State (f (os st)) (self st).
Definition on_self (f : ide → ide) (st : state) : state := State (os st) (f (self st)).

Definition set_current_project (p : option path) : M unit :=
  modify (on_self (λ i, Ide (model i) p (terminal_history i)
                              (dev_server_process i) (preview_port i))).

Definition set_terminal_history (h : list (string * log_msg)) : M unit :=
  modify (on_self (λ i, Ide (model i) (current_project i) h
                              (dev_server_process i) (preview_port i))).

Definition set_dev_server_process (p : option nat) : M unit :=
  modify (on_self (λ i, Ide (model i) (current_project i) (terminal_history i)
                              p (preview_port i))).

Definition set_preview_port (p : option Z) : M unit :=
  modify (on_self (λ i, Ide (model i) (current_project i) (terminal_history i)
                              (dev_server_process i) p)).

(** *** System calls *)

Definition emit (ev : event) : M unit := modify (on_os (record ev)).

Definition resolve (p : path) : M loc :=
  try_gets (λ st, Fs.resolve (fs (os st)) (cwd (os st)) p).

Definition exists_ (p : path) : M bool :=
  gets (λ st, Fs.exists_ (fs (os st)) (cwd (os st)) p).

Definition is_dir (p : path) : M bool :=
  gets (λ st, Fs.is_dir (fs (os st)) (cwd (os st)) p).

(** [os.mkdir(p)] *)
Definition os_mkdir (p : path) : M unit :=
  l <- resolve p ;;
  n <- gets (λ st, Fs.node_at (fs (os st)) l) ;;
  match n with
  | Some _ => raise FileExistsError
  | None => emit (EvMkdir l)
  end.

(** [p.mkdir(exist_ok=True)]: [FileNotFoundError] is raised again; any
    other error is dropped when the path is a directory. *)
Definition mkdir (p : path) : M unit :=
  try_except (os_mkdir p)
    (λ e, match e with
          | FileNotFoundError => raise e
          | _ => d <- is_dir p ;; if d then ret tt else raise e
          end).

(** [p.mkdir(parents=True, exist_ok=True)], by recursion on the parts of
    [p], last part first. *)
Fixpoint mkdir_parents_rev (a : bool) (rparts : list string) : M unit :=
  let p := Path a (rev rparts) in
  try_except (os_mkdir p)
    (λ e, match e with
          | FileNotFoundError =>
              match rparts with
              | [] => raise e
              | _ :: rparts' => mkdir_parents_rev a rparts' ;; mkdir p
              end
          | _ => d <- is_dir p ;; if d then ret tt else raise e
          end).

Definition mkdir_parents (p : path) : M unit :=
  mkdir_parents_rev (absolute p) (rev (parts p)).

(** [open(p, 'r')] and reading the whole file. *)
Definition read_file (p : path) : M content :=
  l <- resolve p ;;
  n <- gets (λ st, Fs.node_at (fs (os st)) l) ;;
  match n with
  | Some (File c) => ret c
  | Some Dir => raise IsADirectoryError
  | None => raise FileNotFoundError
  end.

(** [open(p, 'w')]: the file is created, or truncated, when it is opened. *)
Definition open_w (p : path) : M loc :=
  l <- resolve p ;;
  n <- gets (λ st, Fs.node_at (fs (os st)) l) ;;
  match n with
  | Some Dir => raise IsADirectoryError
  | _ => emit (EvTruncate l) ;; ret l
  end.

(** Writing [c] through the handle and closing it. *)
Definition write_close (l : loc) (c : content) : M unit :=
  emit (EvWrite l c).

(** [with open(p, 'w') as f: f.write(c)] *)
Definition write_text (p : path) (c : content) : M unit :=
  l <- open_w p ;; write_close l c.

(** [json.load(f)] on what was read: an image does not even decode as
    text. *)
Definition parse_json (c : content) : exn + json :=
  match c with
  | Json j => inr j
  | Png _ => inl UnicodeDecodeError
  | Text _ | Scaffold _ => inl JSONDecodeError
  end.

Definition json_load (c : content) : M json := lift (parse_json c).

(** [with open(p, 'r') as f: meta = json.load(f)] *)
Definition load_json (p : path) : M json :=
  c <- read_file p ;; json_load c.

(** [with open(p, 'w') as f: json.dump(j, f, indent=2)] *)
Definition dump_json (p : path) (j : json) : M unit :=
  l <- open_w p ;; write_close l (Json j).

(** A path that ends in a name: the system refuses to remove a directory
    given as [p/..], as [.] or as [/]. *)
Definition ends_in_name (p : path) : bool :=
  match List.last (map Some (parts p)) None with
  | Some c => negb (String.eqb c "..")
  | None => false
  end.

(** [os.rmdir(p)]: the path is looked up, and the directory must be given
    by name and be empty. *)
Definition os_rmdir (p : path) : M unit :=
  l <- resolve p ;;
  if ends_in_name p then
    n <- gets (λ st, Fs.node_at (fs (os st)) l) ;;
    match n with
    | Some Dir =>
        names <- gets (λ st, Fs.children (fs (os st)) l) ;;
        match names with
        | [] => emit (EvRmdir l)
        | _ => raise OSError
        end
    | Some (File _) => raise NotADirectoryError
    | None => raise FileNotFoundError
    end
  else raise OSError.

(** [shutil.rmtree(p)], the way it runs where directories can be opened
    (Linux): [p] is looked up and opened, everything inside the directory
    is removed through the handle, and then [os.rmdir(p)] looks [p] up once
    more. *)
Definition rmtree (p : path) : M unit :=
  l <- resolve p ;;
  n <- gets (λ st, Fs.node_at (fs (os st)) l) ;;
  match n with
  | Some Dir => emit (EvEmpty l) ;; os_rmdir p
  | Some (File _) => raise NotADirectoryError
  | None => raise FileNotFoundError
  end.

(** [p.iterdir()]: the children of a directory, as paths. *)
Definition iterdir (p : path) : M (list path) :=
  l <- resolve p ;;
  n <- gets (λ st, Fs.node_at (fs (os st)) l) ;;
  match n with
  | Some Dir => names <- gets (λ st, Fs.children (fs (os st)) l) ;;
                ret (map (λ c, Path (absolute p) (parts p ++ [c])) names)
  | Some (File _) => raise NotADirectoryError
  | None => raise FileNotFoundError
  end.

(** [for x in l: ...], collecting what each round yields. *)
Fixpoint for_each {A B} (f : A → M (list B)) (l : list A) : M (list B) :=
  match l with
  | [] => ret []
  | x :: l' => r <- f x ;; rs <- for_each f l' ;; ret (r ++ rs)
  end.

(** *** Child processes *)

Definition is_alive (ps : list proc) (pid : nat) : bool :=
  match ps !! pid with Some p => alive p | None => false end.

(** [self.dev_server_process and self.dev_server_process.poll() is None] *)
Definition running (st : state) : bool :=
  match dev_server_process (self st) with
  | Some pid => is_alive (procs (os st)) pid
  | None => false
  end.

(** [subprocess.Popen(cmd, cwd=d, ...)]: the working directory must be a
    directory and the program must be found. *)
Definition popen (c : command) (d : path) : M nat :=
  n <- try_gets (λ st, Fs.stat (fs (os st)) (cwd (os st)) d) ;;
  match n with
  | File _ => raise NotADirectoryError
  | Dir =>
      ok <- gets (λ st, can_spawn (os st)) ;;
      if ok : bool then
        pid <- gets (λ st, length (procs (os st))) ;;
        emit (EvSpawn pid c d) ;;
        ret pid
      else raise FileNotFoundError
  end.

(** [process.terminate()] then [process.wait()]: when [wait] returns the
    child has exited. *)
Definition terminate (pid : nat) : M unit := emit (EvTerminate pid).

Definition wait (pid : nat) : M unit := emit (EvWait pid).

(** [subprocess.run(["npm", "install"], cwd=d, capture_output=True)]: the
    stderr text of a failed run, [None] for return code 0.  A successful
    run leaves a [node_modules] directory in [d]. *)
Definition npm_install (d : path) : M (option string) :=
  l <- resolve (d // "node_modules") ;;
  r <- gets (λ st, installer (os st)) ;;
  match r with
  | InstallMissing => raise FileNotFoundError
  | InstallFailed stderr => ret (Some stderr)
  | Installed => emit (EvInstall l) ;; ret None
  end.

(** ** The class [DevstralWorkspace] *)

(** First component of what a method returns: the status line. *)
Inductive status :=
| SelectProject                        (* "Please select a project" *)
| NotFound (project_name : string)     (* "Project '{project_name}' not found" *)
| Loaded (project_name : string)       (* "Loaded project: {project_name}" *)
| EnterName                            (* "Please enter a project name" *)
| AlreadyExists (project_name : string) (* "Project '{project_name}' already exists" *)
| Created (project_type project_name : string)
                                       (* "Created {project_type} project: {project_name}" *)
| Error (e : exn)                      (* "Error: {str(e)}" *)
| LoadModelFirst                       (* "Please load the model first!" *)
| UploadImage                          (* "Please upload an image!" *)
| OpenProjectFirst                     (* "Please create or load a project first!" *)
| Generated                            (* "Generated successfully!" *)
| SelectToDelete                       (* "Please select a project to delete" *)
| Deleted (project_name : string)      (* "Deleted project: {project_name}" *)
| ErrorDeleting (e : exn)              (* "Error deleting project: {str(e)}" *)
| NoProjectOpen                        (* "No project open" *)
| AlreadyRunning (port : option Z)     (* "Server already running on port {port}" *)
| NoAvailablePorts                     (* "No available ports" *)
| InstallDepsFailed                    (* "Failed to install dependencies" *)
| Starting (port : Z)                  (* "Server starting on port {port}" *)
| Stopped                              (* "Server stopped" *)
| NoServerRunning.                     (* "No server running" *)

(** What [get_file_tree] shows.  The listing itself is a rendering of the
    file system below the project and is not spelled out. *)
Inductive tree_view :=
| NoTree                               (* "" *)
| TreeNoProject                        (* "No project open" *)
| TreeErrorCreating                    (* "Error creating project" *)
| TreeOf (p : path).

Inductive term_view :=
| NoLines                                       (* "" *)
| Lines (l : list (string * log_msg))           (* "\n".join(self.terminal_history) *)
| ErrorText (e : exn).                          (* str(e) *)

(** A row of the history table.  [Time] is the stored timestamp when it is
    a string (the source shows it as month/day hour:minute when it parses
    as an ISO date) and [None], shown as "Unknown", otherwise. *)
Record row := Row {
  Time : option string;
  File_ : json;
  Prompt : json;
  Screenshot : bool;
  ID : json
}.

Record summary := Summary {
  s_name : string;
  s_created : json;
  s_last_modified : json;
  s_type : json
}.

Definition unknown : json := JStr "Unknown".

(** Truth value of a JSON value in a condition. *)
Definition truthy (j : json) : bool :=
  match j with
  | JNull => false
  | JBool b => b
  | JNum z => negb (z =? 0)
  | JStr s => negb (String.eqb s "")
  | JArr l => match l with [] => false | _ => true end
  | JObj kv => match kv with [] => false | _ => true end
  end.

(** [len(j)] *)
Definition len (j : json) : exn + nat :=
  match j with
  | JStr s => inr (String.length s)
  | JArr l => inr (length l)
  | JObj kv => inr (length kv)
  | _ => inl TypeError
  end.

Fixpoint take_chars (n : nat) (s : string) : string :=
  match n, s with
  | S n', String c s' => String c (take_chars n' s')
  | _, _ => EmptyString
  end.

Module DevstralWorkspace.

(** [self.workspace_dir = Path("workspace")] *)
Definition workspace_dir : path := Path false ["workspace"].

(** Lines 887-891. *)
Definition add_terminal_output (text : log_msg) : M unit :=
  timestamp <- gets (λ st, hms (now (os st))) ;;
  h <- gets (λ st, terminal_history (self st)) ;;
  set_terminal_history (Py.last_n 50 (h ++ [(timestamp, text)])).

(** Lines 893-895. *)
Definition get_terminal_output : M term_view :=
  gets (λ st, Lines (terminal_history (self st))).

Definition unknown_summary (item : path) : summary :=
  Summary (name item) unknown unknown unknown.

(** The body of the loop of [get_workspace_projects], lines 40-67. *)
Definition project_entry (item : path) : M (list summary) :=
  d <- is_dir item ;;
  if d && negb (Py.startswith "." (name item)) then
    let meta_file := item // "meta.json" in
    e <- exists_ meta_file ;;
    if e : bool then
      try_except
        (meta <- load_json meta_file ;;
         created <- lift (Dict.get meta "created" unknown) ;;
         last_modified <- lift (Dict.get meta "last_modified" unknown) ;;
         type <- lift (Dict.get meta "type" unknown) ;;
         ret [Summary (name item) created last_modified type])
        (λ _, ret [unknown_summary item])
    else ret [unknown_summary item]
  else ret [].

(** Lines 36-69. *)
Definition get_workspace_projects : M (list summary) :=
  items <- iterdir workspace_dir ;;
  projects <- for_each project_entry items ;;
  ret (Py.sorted_by s_name projects).

(** Lines 92-112. *)
Definition get_default_target_file : M string :=
  cp <- gets (λ st, current_project (self st)) ;;
  match cp with
  | None => ret "src/App.jsx"
  | Some p =>
      let meta_file := p // "meta.json" in
      e <- exists_ meta_file ;;
      if e : bool then
        meta <- load_json meta_file ;;
        project_type <- lift (Dict.get meta "type" (JStr "React")) ;;
        ret (match project_type with
             | JStr "React" => "src/App.jsx"
             | JStr "Vue" => "src/App.vue"
             | JStr "Next.js" => "app/page.tsx"
             | _ => "index.html"
             end)
      else ret "src/App.jsx"
  end.

(** Lines 897-920: the listing starts with [iterdir] on the project. *)
Definition get_file_tree : M tree_view :=
  cp <- gets (λ st, current_project (self st)) ;;
  match cp with
  | None => ret TreeNoProject
  | Some p =>
      e <- exists_ p ;;
      if e : bool then iterdir p ;; ret (TreeOf p) else ret TreeNoProject
  end.

(** The body of the loop of [load_generation_history], lines 394-407. *)
Definition history_row (gen : json) : M (list row) :=
  let time_str := match gen with
                  | JObj kv => match Dict.lookup "timestamp" kv with
                               | Some (JStr t) => Some t
                               | _ => None
                               end
                  | _ => None
                  end in
  file <- lift (Dict.get gen "target_file" unknown) ;;
  prompt <- lift (Dict.get gen "prompt" (JStr "")) ;;
  n <- lift (len prompt) ;;
  preview <- (if (50 <? n)%nat then
                match prompt with
                | JStr s => ret (JStr (take_chars 50 s +:+ "..."))
                | _ => raise TypeError
                end
              else ret prompt) ;;
  screenshot <- lift (Dict.get gen "screenshot" JNull) ;;
  gid <- lift (Dict.get gen "generation_id" (JStr "")) ;;
  ret [Row time_str file preview (truthy screenshot) gid].

(** [reversed(x)] for what [meta.get("generations", [])] can be: a list
    is walked backwards; an empty string or dict yields nothing, a
    non-empty one yields strings, which have no [get]; anything else is not
    reversible. *)
Definition reversed (j : json) : M (list json) :=
  match j with
  | JArr l => ret (rev l)
  | JStr "" | JObj [] => ret []
  | JStr _ | JObj _ => raise AttributeError
  | _ => raise TypeError
  end.

(** Lines 378-413. *)
Definition load_generation_history : M (list row) :=
  cp <- gets (λ st, current_project (self st)) ;;
  match cp with
  | None => ret []
  | Some p =>
      let meta_file := p // "meta.json" in
      e <- exists_ meta_file ;;
      if e : bool then
        try_except
          (meta <- load_json meta_file ;;
           gens <- lift (Dict.get meta "generations" (JArr [])) ;;
           gens <- reversed gens ;;
           for_each history_row gens)
          (λ e, add_terminal_output (LogHistoryError e) ;; ret [])
      else ret []
  end.

(** Lines 71-90. *)
Definition load_project (project_name : string)
  : M (status * tree_view * term_view * list row * string) :=
  if String.eqb project_name "" then
    ret (SelectProject, NoTree, NoLines, [], "src/App.jsx")
  else
    let project_path := workspace_dir // project_name in
    e <- exists_ project_path ;;
    if negb e then ret (NotFound project_name, NoTree, NoLines, [], "src/App.jsx")
    else
      set_current_project (Some project_path) ;;
      add_terminal_output (LogLoaded project_name) ;;
      add_terminal_output (LogLocation project_path) ;;
      history <- load_generation_history ;;
      default_file <- get_default_target_file ;;
      tree <- get_file_tree ;;
      term <- get_terminal_output ;;
      ret (Loaded project_name, tree, term, history, default_file).

(** Lines 881-885. *)
Definition _write_file (p : path) (c : content) : M unit :=
  mkdir_parents (parent p) ;; write_text p c.

Definition obj_of_strings (kv : list (string * string)) : json :=
  JObj (map (λ '(k, v), (k, JStr v)) kv).

(** The [package.json] documents of the three Node scaffolds. *)
Definition react_package_json : json :=
  JObj [("name", JStr "react-app"); ("private", JBool true);
        ("version", JStr "0.0.0"); ("type", JStr "module");
        ("scripts", obj_of_strings [("dev", "vite"); ("build", "vite build");
                                    ("preview", "vite preview")]);
        ("dependencies", obj_of_strings [("react", "^18.2.0"); ("react-dom", "^18.2.0")]);
        ("devDependencies",
          obj_of_strings [("@types/react", "^18.2.43"); ("@types/react-dom", "^18.2.17");
                          ("@vitejs/plugin-react", "^4.2.1"); ("vite", "^5.0.8")])].

Definition vue_package_json : json :=
  JObj [("name", JStr "vue-app"); ("version", JStr "1.0.0");
        ("scripts", obj_of_strings [("dev", "vite"); ("build", "vite build");
                                    ("preview", "vite preview")]);
        ("dependencies", obj_of_strings [("vue", "^3.3.0")]);
        ("devDependencies",
          obj_of_strings [("@vitejs/plugin-vue", "^4.2.3"); ("vite", "^4.4.0")])].

Definition nextjs_package_json : json :=
  JObj [("name", JStr "nextjs-app"); ("version", JStr "1.0.0");
        ("scripts", obj_of_strings [("dev", "next dev"); ("build", "next build");
                                    ("start", "next start")]);
        ("dependencies", obj_of_strings [("next", "14.0.0"); ("react", "^18");
                                         ("react-dom", "^18")])].

(** Lines 537-631. *)
Definition _create_react_structure (p : path) : M unit :=
  mkdir (p // "src") ;;
  mkdir (p // "src" // "components") ;;
  mkdir (p // "public") ;;
  _write_file (p // "package.json") (Json react_package_json) ;;
  _write_file (p // "vite.config.js") (Scaffold ReactViteConfig) ;;
  _write_file (p // "index.html") (Scaffold ReactIndexHtml) ;;
  _write_file (p // "src" // "main.jsx") (Scaffold ReactMainJsx) ;;
  _write_file (p // "src" // "App.jsx") (Scaffold ReactAppJsx) ;;
  _write_file (p // "src" // "index.css") (Scaffold ReactIndexCss) ;;
  _write_file (p // "src" // "App.css") (Scaffold ReactAppCss).

(** Lines 633-694. *)
Definition _create_vue_structure (p : path) : M unit :=
  mkdir (p // "src") ;;
  mkdir (p // "src" // "components") ;;
  mkdir (p // "public") ;;
  _write_file (p // "package.json") (Json vue_package_json) ;;
  _write_file (p // "vite.config.js") (Scaffold VueViteConfig) ;;
  _write_file (p // "index.html") (Scaffold VueIndexHtml) ;;
  _write_file (p // "src" // "main.js") (Scaffold VueMainJs) ;;
  _write_file (p // "src" // "App.vue") (Scaffold VueAppVue).

(** Lines 696-736. *)
Definition _create_nextjs_structure (p : path) : M unit :=
  mkdir (p // "app") ;;
  mkdir (p // "components") ;;
  mkdir (p // "public") ;;
  _write_file (p // "package.json") (Json nextjs_package_json) ;;
  _write_file (p // "next.config.js") (Scaffold NextConfigJs) ;;
  _write_file (p // "app" // "layout.js") (Scaffold NextLayoutJs) ;;
  _write_file (p // "app" // "page.js") (Scaffold NextPageJs).

(** Lines 738-782. *)
Definition _create_html_structure (p : path) : M unit :=
  mkdir (p // "css") ;;
  mkdir (p // "js") ;;
  mkdir (p // "images") ;;
  _write_file (p // "index.html") (Scaffold HtmlIndexHtml) ;;
  _write_file (p // "css" // "style.css") (Scaffold HtmlStyleCss) ;;
  _write_file (p // "js" // "main.js") (Scaffold HtmlMainJs).

(** The descriptor written by [create_project], lines 135-141. *)
Definition fresh_meta (project_name project_type : string) (t : reading) : json :=
  JObj [("name", JStr project_name); ("type", JStr project_type);
        ("created", JStr (iso t)); ("last_modified", JStr (iso t));
        ("generations", JArr [])].

(** Lines 114-166. *)
Definition create_project (project_name project_type : string)
  : M (status * tree_view * term_view * list row * string) :=
  if String.eqb project_name "" || String.eqb (Py.strip project_name) "" then
    ret (EnterName, TreeNoProject, NoLines, [], "src/App.jsx")
  else
    let project_name := Py.strip project_name in
    let project_path := workspace_dir // project_name in
    e <- exists_ project_path ;;
    if e : bool then
      tree <- get_file_tree ;;
      term <- get_terminal_output ;;
      default_file <- get_default_target_file ;;
      ret (AlreadyExists project_name, tree, term, [], default_file)
    else
      try_except
        (mkdir_parents project_path ;;
         set_current_project (Some project_path) ;;
         let screenshots_dir := project_path // "screenshots" in
         mkdir screenshots_dir ;;
         t <- gets (λ st, now (os st)) ;;
         dump_json (project_path // "meta.json") (fresh_meta project_name project_type t) ;;
         (if String.eqb project_type "React" then _create_react_structure project_path
          else if String.eqb project_type "Vue" then _create_vue_structure project_path
          else if String.eqb project_type "Next.js" then _create_nextjs_structure project_path
          else _create_html_structure project_path) ;;
         add_terminal_output (LogCreated project_name) ;;
         add_terminal_output (LogLocation project_path) ;;
         add_terminal_output (LogScreenshots screenshots_dir) ;;
         default_file <- get_default_target_file ;;
         tree <- get_file_tree ;;
         term <- get_terminal_output ;;
         ret (Created project_type project_name, tree, term, [], default_file))
        (λ e, ret (Error e, TreeErrorCreating, ErrorText e, [], "src/App.jsx")).

(** Lines 327-344.  [image] is [None] when no image was given. *)
Definition save_screenshot (image : option nat) (target_file : string) : M (option path) :=
  cp <- gets (λ st, current_project (self st)) ;;
  match cp, image with
  | Some p, Some img =>
      let screenshots_dir := p // "screenshots" in
      mkdir screenshots_dir ;;
      timestamp <- gets (λ st, stamp (now (os st))) ;;
      let clean_target :=
        Py.replace_char "092"%char "_"%char (Py.replace_char "/"%char "_"%char target_file) in
      let filename := timestamp +:+ "_" +:+ clean_target +:+ ".png" in
      let screenshot_path := screenshots_dir // filename in
      write_text screenshot_path (Png img) ;;
      add_terminal_output (LogSavedScreenshot filename) ;;
      ret (Some screenshot_path)
  | _, _ => ret None
  end.

(** [meta["generations"].append(g)] then
    [meta["generations"] = meta["generations"][-50:]], lines 369-372. *)
Definition append_generation (meta : json) (g : json) : exn + json :=
  match meta with
  | JObj kv =>
      match Dict.lookup "generations" kv with
      | None => inl KeyError
      | Some (JArr gens) =>
          inr (JObj (Dict.set "generations" (JArr (Py.last_n 50 (gens ++ [g]))) kv))
      | Some _ => inl AttributeError
      end
  | _ => inl TypeError
  end.

(** [meta["last_modified"] = v], line 366. *)
Definition set_item (meta : json) (k : string) (v : json) : exn + json :=
  match meta with
  | JObj kv => inr (JObj (Dict.set k v kv))
  | _ => inl TypeError
  end.

(** Lines 346-376. *)
Definition save_generation_metadata (generation_meta : json) : M unit :=
  cp <- gets (λ st, current_project (self st)) ;;
  match cp with
  | None => ret tt
  | Some p =>
      let meta_file := p // "meta.json" in
      e <- exists_ meta_file ;;
      t <- gets (λ st, now (os st)) ;;
      meta <- (if e : bool then load_json meta_file
               else ret (JObj [("name", JStr (name p)); ("type", JStr "Unknown");
                               ("created", JStr (iso t)); ("generations", JArr [])])) ;;
      meta <- lift (set_item meta "last_modified" (JStr (iso t))) ;;
      meta <- lift (append_generation meta generation_meta) ;;
      dump_json meta_file meta
  end.

(** The identifier of line 314: "gen_" and the clock in milliseconds. *)
Definition generation_id (t : reading) : string := "gen_" +:+ pretty (epoch_ms t).

(** Lines 309-315. *)
Definition generation_record (t : reading) (target_file custom_prompt : string)
    (screenshot_path : option path) : json :=
  JObj [("timestamp", JStr (iso t)); ("target_file", JStr target_file);
        ("prompt", JStr custom_prompt);
        ("screenshot", match screenshot_path with
                       | Some sp => JStr (name sp)
                       | None => JNull
                       end);
        ("generation_id", JStr (generation_id t))].

(** Lines 168-325.  The call of the vision model and the clean-up of its
    answer (lines 197-297) are the world's [answer]: the text that is written
    to the target file, or the exception met on the way. *)
Definition generate_code (image : option nat) (target_file custom_prompt : string)
    (save_shot : bool) : M (status * option content * term_view * list row) :=
  loaded <- gets (λ st, model (self st)) ;;
  if negb loaded then term <- get_terminal_output ;; ret (LoadModelFirst, None, term, [])
  else
  match image with
  | None => term <- get_terminal_output ;; ret (UploadImage, None, term, [])
  | Some img =>
  cp <- gets (λ st, current_project (self st)) ;;
  match cp with
  | None => term <- get_terminal_output ;; ret (OpenProjectFirst, None, term, [])
  | Some p =>
      try_except
        (add_terminal_output (LogGenerating target_file) ;;
         let meta_file := p // "meta.json" in
         e <- exists_ meta_file ;;
         project_type <- (if e : bool then
                            meta <- load_json meta_file ;;
                            lift (Dict.get meta "type" (JStr "HTML/Bootstrap"))
                          else ret (JStr "HTML/Bootstrap")) ;;
         add_terminal_output (LogProjectType project_type) ;;
         screenshot_path <- (if save_shot then save_screenshot image target_file
                             else ret None) ;;
         code <- try_gets (λ st, answer (os st)) ;;
         let file_path := p // target_file in
         mkdir_parents (parent file_path) ;;
         write_text file_path code ;;
         add_terminal_output (LogSaved target_file) ;;
         t <- gets (λ st, now (os st)) ;;
         save_generation_metadata
           (generation_record t target_file custom_prompt screenshot_path) ;;
         history <- load_generation_history ;;
         term <- get_terminal_output ;;
         ret (Generated, Some code, term, history))
        (λ e, term <- get_terminal_output ;; ret (Error e, None, term, []))
  end
  end.

(** Lines 848-856. *)
Definition stop_dev_server : M status :=
  r <- gets running ;;
  h <- gets (λ st, dev_server_process (self st)) ;;
  match h with
  | Some pid =>
      if r : bool then
        terminate pid ;;
        wait pid ;;
        add_terminal_output LogStopped ;;
        set_preview_port None ;;
        ret Stopped
      else ret NoServerRunning
  | None => ret NoServerRunning
  end.

(** Lines 449-471. *)
Definition delete_project (project_name : string) : M status :=
  if String.eqb project_name "" then ret SelectToDelete
  else
    let project_path := workspace_dir // project_name in
    e <- exists_ project_path ;;
    if negb e then ret (NotFound project_name)
    else
      try_except
        (cp <- gets (λ st, current_project (self st)) ;;
         (if decide (cp = Some project_path) then
            stop_dev_server ;; set_current_project None
          else ret tt) ;;
         rmtree project_path ;;
         add_terminal_output (LogDeleted project_name) ;;
         ret (Deleted project_name))
        (λ e, ret (ErrorDeleting e)).

(** Lines 870-879: [s.bind(('', port))] fails on a busy port. *)
Definition bindable (busy_ports : list Z) (port : Z) : bool :=
  bool_decide (port ∉ busy_ports).

Definition find_available_port (start end_ : Z) : M (option Z) :=
  gets (λ st, List.find (bindable (busy (os st))) (seqZ start (end_ - start))).

(** Lines 819-843: spawn, remember the handle, announce the port. *)
Definition launch (c : command) (p : path) : M (status * option Z) :=
  pid <- popen c p ;;
  set_dev_server_process (Some pid) ;;
  add_terminal_output (LogStarting (port_of c)) ;;
  ret (Starting (port_of c), Some (port_of c)).

(** Lines 784-846.  The second component is the port of the link shown,
    [None] for the empty string. *)
Definition start_dev_server : M (status * option Z) :=
  cp <- gets (λ st, current_project (self st)) ;;
  match cp with
  | None => ret (NoProjectOpen, None)
  | Some p =>
      r <- gets running ;;
      if r : bool then
        port <- gets (λ st, preview_port (self st)) ;;
        ret (AlreadyRunning port, port)
      else
        try_except
          (found <- find_available_port 3000 3100 ;;
           set_preview_port found ;;
           match found with
           | None => ret (NoAvailablePorts, None)
           | Some port =>
               if port =? 0 then ret (NoAvailablePorts, None)
               else
                 node <- exists_ (p // "package.json") ;;
                 if node : bool then
                   have_modules <- exists_ (p // "node_modules") ;;
                   failed <- (if have_modules : bool then ret None
                              else add_terminal_output LogInstalling ;; npm_install p) ;;
                   match failed with
                   | Some stderr =>
                       add_terminal_output (LogInstallFailed stderr) ;;
                       ret (InstallDepsFailed, None)
                   | None => launch (NpmRunDev port) p
                   end
                 else
                   add_terminal_output LogHttpServer ;;
                   launch (HttpServer port) p
           end)
          (λ e, ret (Error e, None))
  end.

(** Lines 25-34: [__init__] makes the workspace directory when it is
    missing and starts with no project, no server and no port. *)
Definition init : M unit :=
  mkdir workspace_dir ;;
  modify (on_self (λ _, Ide false None [] None None)).

End DevstralWorkspace.

(** ** Sessions: calls of the methods, interleaved with the environment *)

Inductive call :=
| CreateProject (project_name project_type : string)
| LoadProject (project_name : string)
| DeleteProject (project_name : string)
| GenerateCode (image : option nat) (target_file custom_prompt : string) (save_shot : bool)
| StartDevServer
| StopDevServer
| GetWorkspaceProjects.

(** What happens around the calls: a child exits on its own, the reader
    thread of lines 829-837 passes on a line of the child, the clock moves,
    ports are taken or freed, the installer, the program lookup or the code
    generator change their answer, the model gets loaded, and other
    programs (the dev server, an editor) change files. *)
Inductive env :=
| ChildExits (pid : nat)
| ChildPrints (line : string)
| ClockReads (t : reading)
| PortsBusy (l : list Z)
| InstallerDoes (r : install_result)
| SpawnFinds (b : bool)
| ModelAnswers (a : exn + content)
| ModelLoaded (b : bool)
| FilesBecome (f : fsmap).

Inductive step :=
| Call (c : call)
| Env (e : env).

Import DevstralWorkspace.

Definition after {A} (m : M A) (st : state) : state := snd (m st).
Definition result {A} (m : M A) (st : state) : outcome A := fst (m st).

Definition do_call (c : call) (st : state) : state :=
  match c with
  | CreateProject n t => after (create_project n t) st
  | LoadProject n => after (load_project n) st
  | DeleteProject n => after (delete_project n) st
  | GenerateCode i f p s => after (generate_code i f p s) st
  | StartDevServer => after start_dev_server st
  | StopDevServer => after stop_dev_server st
  | GetWorkspaceProjects => after get_workspace_projects st
  end.

Definition do_env (e : env) (st : state) : state :=
  let w := os st in
  let i := self st in
  match e with
  | ChildExits pid =>
      State (World (fs w) (cwd w) (alter exited pid (procs w)) (busy w) (now w)
                   (installer w) (can_spawn w) (answer w) (trace w)) i
  | ChildPrints line =>
      if String.eqb line "" then st
      else after (add_terminal_output (LogOutput (Py.strip line))) st
  | ClockReads t =>
      State (World (fs w) (cwd w) (procs w) (busy w) t
                   (installer w) (can_spawn w) (answer w) (trace w)) i
  | PortsBusy l =>
      State (World (fs w) (cwd w) (procs w) l (now w)
                   (installer w) (can_spawn w) (answer w) (trace w)) i
  | InstallerDoes r =>
      State (World (fs w) (cwd w) (procs w) (busy w) (now w)
                   r (can_spawn w) (answer w) (trace w)) i
  | SpawnFinds b =>
      State (World (fs w) (cwd w) (procs w) (busy w) (now w)
                   (installer w) b (answer w) (trace w)) i
  | ModelAnswers a =>
      State (World (fs w) (cwd w) (procs w) (busy w) (now w)
                   (installer w) (can_spawn w) a (trace w)) i
  | ModelLoaded b =>
      State w (Ide b (current_project i) (terminal_history i)
                   (dev_server_process i) (preview_port i))
  | FilesBecome f =>
      State (World f (cwd w) (procs w) (busy w) (now w)
                   (installer w) (can_spawn w) (answer w) (trace w)) i
  end.

Definition exec (s : step) (st : state) : state :=
  match s with
  | Call c => do_call c st
  | Env e => do_env e st
  end.

Definition run (l : list step) (st : state) : state := foldl (λ st s, exec s st) st l.

(** A session starts in a world without children of its own, with the
    constructor; [reachable] are the states it can be in afterwards. *)
Definition fresh (w : world) : Prop := procs w = [] ∧ trace w = [].

Definition blank : ide := Ide false None [] None None.

Definition reachable (st : state) : Prop :=
  ∃ w l, fresh w ∧ result init (State w blank) = Ret tt
         ∧ st = run l (after init (State w blank)).

(** ** Notions used in the statements *)

(** The system calls a computation makes from a state, in order. *)
Definition events_of {A} (m : M A) (st : state) : list event :=
  drop (length (trace (os st))) (trace (os (after m st))).

(** The file systems another program can see while the system calls [evs]
    are made one after the other, starting from [f]. *)
Fixpoint snapshots (f : fsmap) (evs : list event) : list fsmap :=
  match evs with
  | [] => []
  | ev :: evs' => apply_fs ev f :: snapshots (apply_fs ev f) evs'
  end.

Definition observable {A} (m : M A) (st : state) : list fsmap :=
  snapshots (fs (os st)) (events_of m st).

(** A write of the file at [l] is atomic when every file system seen on the
    way shows either the old file or the new one. *)
Definition atomic_at {A} (l : loc) (m : M A) (st : state) : Prop :=
  ∀ f, f ∈ observable m st →
       f !! l = fs (os st) !! l ∨ f !! l = fs (os (after m st)) !! l.

(** [m] relates every state to the state it leaves behind. *)
Definition preserves {A} (P : state → state → Prop) (m : M A) : Prop :=
  ∀ st, P st (after m st).

(** [f] has the same value before and after. *)
Definition keeps {B} (f : state → B) : state → state → Prop :=
  λ st st', f st' = f st.

Definition the_fs (st : state) : fsmap := fs (os st).
Definition the_project (st : state) : option path := current_project (self st).
Definition the_clock (st : state) : reading := now (os st).
Definition the_trace (st : state) : list event := trace (os st).

(** The supervisor's view: the children and the two fields that describe
    the dev server. *)
Definition supervisor (st : state) : list proc * option nat * option Z :=
  (procs (os st), dev_server_process (self st), preview_port (self st)).

(** The system calls that change files. *)
Definition fs_event (ev : event) : Prop :=
  match ev with
  | EvMkdir _ | EvTruncate _ | EvWrite _ _ | EvEmpty _ | EvRmdir _ | EvInstall _ => True
  | EvSpawn _ _ _ | EvTerminate _ | EvWait _ => False
  end.

(** The files after the system calls [evs]. *)
Definition replay (evs : list event) (f : fsmap) : fsmap :=
  foldl (λ f ev, apply_fs ev f) f evs.

(** The trace only grows, and the files change by the calls it gains. *)
Definition replays (st st' : state) : Prop :=
  ∃ evs, the_trace st' = the_trace st ++ evs
         ∧ the_fs st' = replay evs (the_fs st)
         ∧ cwd (os st') = cwd (os st).

(** [m], started in a state with [P], ends with an outcome and in a state
    that [Q] relates. *)
Definition triple {A} (P : state → Prop) (m : M A) (Q : outcome A → state → Prop) : Prop :=
  ∀ st, P st → Q (result m st) (after m st).

(** The computation answers; it does not raise. *)
Definition returns {A} (m : M A) (st : state) : Prop := ∃ a, result m st = Ret a.

(** No child of the session is alive. *)
Definition idle (st : state) : Prop :=
  ∀ pid, is_alive (procs (os st)) pid = false.

(** The port [start_dev_server] picks in a state: the first of 3000..3099
    on which [bind] succeeds. *)
Definition first_free_port (st : state) : option Z :=
  List.find (bindable (busy (os st))) (seqZ 3000 (3100 - 3000)).

(** The states of [start_dev_server], called in [st] with project [p] open
    and no server running, before a child is spawned: the children and the
    handle are those of [st], the port is the one picked. *)
Definition probing (st : state) (p : path) (s : state) : Prop :=
  procs (os s) = procs (os st)
  ∧ dev_server_process (self s) = dev_server_process (self st)
  ∧ the_project s = Some p
  ∧ preview_port (self s) = first_free_port st.

(** The state after the spawn: one more child, started in [p] for [port],
    and the handle names it. *)
Definition launched (st : state) (p : path) (port : Z) (s : state) : Prop :=
  ∃ c, port_of c = port
       ∧ procs (os s) = procs (os st) ++ [Proc c p true]
       ∧ dev_server_process (self s) = Some (length (procs (os st)))
       ∧ the_project s = Some p
       ∧ preview_port (self s) = Some port.

(** The answers of [start_dev_server] that tell of no server. *)
Definition not_started (o : outcome (status * option Z)) : Prop :=
  o = Ret (NoAvailablePorts, None)
  ∨ o = Ret (InstallDepsFailed, None)
  ∨ ∃ e, o = Ret (Error e, None).

(** How [start_dev_server] ends when it probes: without a child and with
    an answer that tells of no server, or with the answer "starting on
    [port]" for the port picked and a child on that port. *)
Definition start_outcome (st : state) (p : path)
    (o : outcome (status * option Z)) (s : state) : Prop :=
  (probing st p s
   ∧ not_started o
   ∧ (first_free_port st = None → o = Ret (NoAvailablePorts, None)))
  ∨ (∃ port, first_free_port st = Some port
             ∧ o = Ret (Starting port, Some port)
             ∧ launched st p port s).

(** The supervisor invariant: a live child is the one the handle names; and
    while that child lives a project is open and [preview_port] is the port
    the child was started on, which lies in the probed range. *)
Definition supervised (st : state) : Prop :=
  (∀ pid, is_alive (procs (os st)) pid = true → dev_server_process (self st) = Some pid)
  ∧ (∀ pid p, dev_server_process (self st) = Some pid → procs (os st) !! pid = Some p →
              alive p = true →
              is_Some (the_project st)
              ∧ preview_port (self st) = Some (port_of (cmd p))
              ∧ 3000 ≤ port_of (cmd p) ≤ 3099).

(** What the methods that only touch files and the terminal do: the trace
    and the files move together, and the selected project, the clock and
    the supervisor's view stay. *)
Definition quiet (st st' : state) : Prop :=
  replays st st'
  ∧ the_project st' = the_project st
  ∧ the_clock st' = the_clock st
  ∧ supervisor st' = supervisor st.

(** Directories stay directories, and the working directory stays. *)
Definition dirs_stay (st st' : state) : Prop :=
  cwd (os st') = cwd (os st)
  ∧ ∀ l, Fs.node_at (the_fs st) l = Some Dir → Fs.node_at (the_fs st') l = Some Dir.

(** The path leads to a directory. *)
Definition is_directory (p : path) (st : state) : Prop :=
  Fs.is_dir (the_fs st) (cwd (os st)) p = true.

(** A step that keeps the supervisor invariant. *)
Definition sup_step (st st' : state) : Prop := supervised st → supervised st'.

(** What [load_json] answers, as a function of the files. *)
Definition read_json (f : fsmap) (cwd : loc) (p : path) : outcome json :=
  match Fs.resolve f cwd p with
  | inl e => Raise e
  | inr l => match Fs.node_at f l with
             | Some (File c) => match parse_json c with
                                | inr j => Ret j
                                | inl e => Raise e
                                end
             | Some Dir => Raise IsADirectoryError
             | None => Raise FileNotFoundError
             end
  end.

(** Within the computation [m], the document [j] is written to the path
    [p] in place: the file the path leads to is truncated, then written;
    the files in between can be seen, and there the path leads to a file
    that [json.load] rejects. *)
Definition written_in_place {A} (p : path) (j : json) (m : M A) (st : state) : Prop :=
  ∃ pre l post,
    events_of m st = pre ++ [EvTruncate l; EvWrite l (Json j)] ++ post
    ∧ Fs.resolve (replay pre (the_fs st)) (cwd (os st)) p = inr l
    ∧ replay (pre ++ [EvTruncate l]) (the_fs st) ∈ observable m st
    ∧ read_json (replay (pre ++ [EvTruncate l]) (the_fs st)) (cwd (os st)) p
      = Raise JSONDecodeError.

(** The generation history a project's descriptor holds: the list under
    ["generations"] when the descriptor is a JSON object with such a list. *)
Definition history_in (meta : json) : option (list json) :=
  match meta with
  | JObj kv => match Dict.lookup "generations" kv with
               | Some (JArr gens) => Some gens
               | _ => None
               end
  | _ => None
  end.

Definition stored_history (p : path) (st : state) : option (list json) :=
  match result (load_json (p // "meta.json")) st with
  | Ret meta => history_in meta
  | Raise _ => None
  end.

(** The same, counting a descriptor without a history as an empty one. *)
Definition persisted_history (p : path) (st : state) : list json :=
  default [] (stored_history p st).

(** Appending records one after the other. *)
Definition appends (gs : list json) (st : state) : state :=
  foldl (λ st g, after (save_generation_metadata g) st) st gs.

(** A name made of white space only (the empty name included). *)
Definition whitespace_only (s : string) : Prop :=
  Forall (λ c, Py.isspace c = true) (list_ascii_of_string s).

(** A name with a path separator or a [".."] in it. *)
Fixpoint has_dotdot (s : string) : bool :=
  match s with
  | String "." (String "." _) => true
  | String _ s' => has_dotdot s'
  | EmptyString => false
  end.

Definition path_traversal (s : string) : bool :=
  existsb (λ c, Ascii.eqb c "/" || Ascii.eqb c "092") (list_ascii_of_string s)
  || has_dotdot s.

(** [create_project] turns the name down and leaves every file as it was. *)
Definition name_rejected (project_name project_type : string) (st : state) : Prop :=
  result (create_project project_name project_type) st
  = Ret (EnterName, TreeNoProject, NoLines, [], "src/App.jsx")
  ∧ after (create_project project_name project_type) st = st.

(** The identifier stored in a generation record. *)
Definition id_of (g : json) : option json :=
  match g with
  | JObj kv => Dict.lookup "generation_id" kv
  | _ => None
  end.

(** *** A small world to run the methods in *)

Module Example.

Definition noon : reading :=
  Reading "2025-01-01T12:00:00" "12:00:00" "20250101_120000" 1735732800000.

(** A home directory as working directory; nothing else. *)
Definition w0 : world :=
  World (<[ ["home"] := Dir ]> ∅) ["home"] [] [] noon Installed true
        (inr (Text "<h1>Hello</h1>")) [].

(** After [DevstralWorkspace()]. *)
Definition s0 : state := after init (State w0 blank).

(** After creating the project "demo". *)
Definition s1 : state := run [Call (CreateProject "demo" "HTML/Bootstrap")] s0.

Definition demo : path := workspace_dir // "demo".

(** The model is loaded and writes its answer over the descriptor of "demo". *)
Definition s_corrupt : state :=
  run [Env (ModelLoaded true);
       Call (GenerateCode (Some 7%nat) "meta.json" "" false)] s1.

(** Two generations into "demo" without the clock moving in between. *)
Definition s_twice : state :=
  run [Env (ModelLoaded true);
       Call (GenerateCode (Some 7%nat) "index.html" "first" false);
       Call (GenerateCode (Some 7%nat) "index.html" "second" false)] s1.

(** The dev server of "demo" is running. *)
Definition s_serving : state := run [Call StartDevServer] s1.

(** Every port of the probed range is taken. *)
Definition s_full : state := run [Env (PortsBusy (seqZ 3000 100))] s1.

(** The project "demo" is made under the name "x/../demo", and its dev
    server is running. *)
Definition s_alias : state :=
  run [Call (CreateProject "x/../demo" "HTML/Bootstrap"); Call StartDevServer] s0.

(** The first two ports of the probed range are taken. *)
Definition s_taken : state := run [Env (PortsBusy [3000; 3001])] s1.

Definition sample_record (n : Z) : json := JObj [("generation_id", JNum n)].

End Example.

(** ** Views of the class *)

(** What [get_preview_html] shows: the box "No preview available", or a
    frame on [http://localhost:{port}]. *)
Inductive preview :=
| NoPreview
| Frame (port : Z).

(** Lines 858-868.  [not self.preview_port] holds for [None] and for 0. *)
Definition get_preview_html : M preview :=
  port <- gets (λ st, preview_port (self st)) ;;
  ret (match port with
       | Some p => if p =? 0 then NoPreview else Frame p
       | None => NoPreview
       end).

(** Lines 491-494. *)
Definition get_project_selector_choices : M (list string) :=
  projects <- get_workspace_projects ;;
  ret (map s_name projects).

(** [v[:10]]: a string and a list have slices; [None], a boolean and a
    number have no subscript ([TypeError]).  A dict takes the slice for a
    key, which is unhashable before Python 3.12 ([TypeError]) and a missing
    key from 3.12 on ([KeyError]): [hashable_slices] tells which. *)
Definition first_ten (hashable_slices : bool) (v : json) : exn + json :=
  match v with
  | JStr s => inr (JStr (take_chars 10 s))
  | JArr l => inr (JArr (take 10 l))
  | JObj _ => inl (if hashable_slices then KeyError else TypeError)
  | JNull | JBool _ | JNum _ => inl TypeError
  end.

(** [v[:10] if v != "Unknown" else "Unknown"] *)
Definition date_cell (hashable_slices : bool) (v : json) : exn + json :=
  match v with
  | JStr "Unknown" => inr (JStr "Unknown")
  | _ => first_ten hashable_slices v
  end.

(** The row of one project, lines 482-487: name, type, and the first ten
    characters of the two dates. *)
Definition table_row (hashable_slices : bool) (p : summary) : M (list (list json)) :=
  created <- lift (date_cell hashable_slices (s_created p)) ;;
  last_modified <- lift (date_cell hashable_slices (s_last_modified p)) ;;
  ret [[JStr (s_name p); s_type p; created; last_modified]].

(** Lines 473-489. *)
Definition get_project_info_table (hashable_slices : bool) : M (list (list json)) :=
  projects <- get_workspace_projects ;;
  match projects with
  | [] => ret []
  | _ => for_each (table_row hashable_slices) projects
  end.

(** The terminal holds at most fifty lines. *)
Definition capped (st : state) : Prop :=
  (length (terminal_history (self st)) ≤ 50)%nat.

Definition cap_step (st st' : state) : Prop := capped st → capped st'.

(** *** More worlds to run the methods in *)

Module Sample.

(** The descriptor of "demo" is overwritten with a JSON document whose
    creation date is [null]. *)
Definition s_undated : state :=
  run [Env (ModelLoaded true);
       Env (ModelAnswers (inr (Json (JObj [("created", JNull)]))));
       Call (GenerateCode (Some 7%nat) "meta.json" "" false)] Example.s1.

(** A React project "app" whose dependencies cannot be installed. *)
Definition s_no_install : state :=
  run [Call (CreateProject "app" "React");
       Env (InstallerDoes (InstallFailed "ENOTFOUND"))] Example.s0.

(** The dev server of "demo" is running and a second project is there. *)
Definition s_two : state :=
  run [Call (CreateProject "other" "Vue");
       Call (LoadProject "demo");
       Call StartDevServer] Example.s1.

End Sample.

(** ** The code in the answer of the model *)

(** Lines 250-297 of [generate_code] take the code out of the text that the
    model answers.  They are a function of that text. *)
Module Extract.

(** [s[n:]] *)
Fixpoint drop_chars (n : nat) (s : string) : string :=
  match n, s with
  | O, _ => s
  | S n', String _ s' => drop_chars n' s'
  | S _, EmptyString => EmptyString
  end.

(** [s.find(sub)]; [None] stands for -1. *)
Fixpoint find (sub s : string) : option nat :=
  if Py.startswith sub s then Some O
  else match s with
       | EmptyString => None
       | String _ s' => option_map S (find sub s')
       end.

(** [sub in s] *)
Definition contains (sub s : string) : bool :=
  match find sub s with Some _ => true | None => false end.

(** [s.split(sep)] for a separator that is not empty: [cur] is the part
    being read, backwards, and [skip] counts the characters of a separator
    just found that are still to be passed over. *)
Fixpoint split_go (sep : string) (skip : nat) (cur s : string) : list string :=
  match skip, s with
  | S k, String _ s' => split_go sep k cur s'
  | S _, EmptyString => [String.rev cur]
  | O, EmptyString => [String.rev cur]
  | O, String c s' =>
      if Py.startswith sep s
      then String.rev cur :: split_go sep (String.length sep - 1) EmptyString s'
      else split_go sep O (String c cur) s'
  end.

Definition split (sep s : string) : list string := split_go sep O EmptyString s.

Definition code_start_markers : list string :=
  ["<!DOCTYPE"; "<html"; "import React"; "import {"; "<template>"; "export default";
   "function"; "const"; "HTML:"; "```"].

(** Lines 278-282: the least index at which a marker is found, the length
    of the text when none is. *)
Definition earliest_code_start (code : string) : nat :=
  foldl (λ earliest marker,
           match find marker code with
           | Some idx => if (idx <? earliest)%nat then idx else earliest
           | None => earliest
           end)
        (String.length code) code_start_markers.










End Extract.

(** Lines 198-215: the instruction for the kind of project, and the prompt
    made of it. *)
Definition system_instruction (project_type : json) : string :=
  match project_type with
  | JStr "React" =>
      "Generate a React component using modern React hooks (useState, useEffect, etc). Use functional components, not class components. Include proper imports from 'react'. Export the component as default."
  | JStr "Vue" =>
      "Generate a Vue 3 component using the Composition API with <script setup> syntax. Include proper <template>, <script setup>, and <style> sections."
  | JStr "Next.js" =>
      "Generate a Next.js component using TypeScript. Use Next.js specific features like next/link, next/image when appropriate. Include proper TypeScript types."
  | _ =>
      "Generate semantic HTML with Bootstrap 5.3.7 classes. DO NOT use React, Vue, or any JavaScript framework. Use only vanilla HTML and Bootstrap classes. 
IMPORTANT: The HTML already includes Bootstrap 5.3.7 via CDN:
- CSS: https://cdn.jsdelivr.net/npm/bootstrap@5.3.7/dist/css/bootstrap.min.css
- JS: https://cdn.jsdelivr.net/npm/bootstrap@5.3.7/dist/js/bootstrap.bundle.min.js

Do not add these links again. Use Bootstrap 5.3.7 components, utilities, and grid system. Add custom CSS to css/style.css if needed. Use vanilla JavaScript in js/main.js for interactivity."
  end.

Definition prompt_for (project_type : json) (custom_prompt : string) : string :=
  "[IMG] " +:+ system_instruction project_type
  +:+ (if String.eqb custom_prompt "" then ""
       else " Additional requirements: " +:+ custom_prompt).

(** ** More notions used in the statements *)

(** [c in s] for a character. *)
Fixpoint contains_char (c : ascii) (s : string) : bool :=
  match s with
  | EmptyString => false
  | String a s' => Ascii.eqb a c || contains_char c s'
  end.

(** Names in strictly increasing order, the order of [str]: by code
    points. *)
Fixpoint increasing (l : list string) : Prop :=
  match l with
  | [] => True
  | x :: l' => Forall (λ y, String.ltb x y = true) l' ∧ increasing l'
  end.

(** The keys of [l] do not decrease. *)
Fixpoint ordered {A} (key : A → string) (l : list A) : Prop :=
  match l with
  | [] => True
  | x :: l' => Forall (λ y, String.leb (key x) (key y) = true) l' ∧ ordered key l'
  end.

(** A directory that the listing shows. *)
Definition visible (st : state) (item : path) : bool :=
  Fs.is_dir (the_fs st) (cwd (os st)) item && negb (Py.startswith "." (name item)).

(** A value that has slices. *)
Definition sliceable (v : json) : bool :=
  match v with
  | JStr _ | JArr _ => true
  | _ => false
  end.

(** Both dates of a listed project have slices. *)
Definition dated (p : summary) : Prop :=
  sliceable (s_created p) = true ∧ sliceable (s_last_modified p) = true.

(** A generation record that is a JSON object whose prompt, when there is
    one, is a string: what [generate_code] stores. *)
Definition plain_record (g : json) : Prop :=
  ∃ kv, g = JObj kv ∧ ∀ v, Dict.lookup "prompt" kv = Some v → ∃ s, v = JStr s.

(** A record that is no JSON object. *)
Definition not_object (g : json) : Prop := ∀ kv, g ≠ JObj kv.

(** [s[:50] + "..." if len(s) > 50 else s] *)
Definition preview_of (s : string) : string :=
  if (50 <? String.length s)%nat then take_chars 50 s +:+ "..." else s.

(** [a] is a piece of [b]: some characters of [b] in a row. *)
Definition part_of (a b : string) : Prop := ∃ pre post, b = pre +:+ a +:+ post.







(** The selection is never dropped by a method that keeps the relation's
    actions. *)
Definition stays_open (st st' : state) : Prop :=
  is_Some (the_project st) → is_Some (the_project st').

(** The state in which [delete_project] removes the tree: the server of
    the open project is stopped and the project is closed first, when the
    path is the one open. *)
Definition before_rmtree (project_path : path) (st : state) : state :=
  if decide (the_project st = Some project_path)
  then after (set_current_project None) (after stop_dev_server st)
  else st.

(** A path of names only: it has a part, and no part is [..]. *)
Definition plain (p : path) : Prop := parts p ≠ [] ∧ ".." ∉ parts p.

(** * Properties *)

(** ** The definitions at work *)

Example strip_name : Py.strip "  my app " = "my app".
Proof. reflexivity. Qed.

Example last_two : Py.last_n 2 [1; 2; 3] = [2; 3] ∧ Py.last_n 5 [1; 2] = [1; 2].
Proof. split; reflexivity. Qed.

Example descriptor_path :
  DevstralWorkspace.workspace_dir // "demo" // "meta.json"
  = Path false ["workspace"; "demo"; "meta.json"].
Proof. reflexivity. Qed.

Example absolute_name_replaces :
  DevstralWorkspace.workspace_dir // "/srv/www" = Path true ["srv"; "www"].
Proof. reflexivity. Qed.

Example dotdot_is_resolved_by_the_system :
  Fs.resolve (fs Example.w0) (cwd Example.w0)
    (DevstralWorkspace.workspace_dir // "../evil")
  = inl FileNotFoundError
  ∧ Fs.resolve (fs (os Example.s0)) (cwd (os Example.s0))
      (DevstralWorkspace.workspace_dir // "../evil")
    = inr ["home"; "evil"].
Proof. split; vm_compute; reflexivity. Qed.

Example listing_of_demo :
  result DevstralWorkspace.get_workspace_projects Example.s1
  = Ret [Summary "demo" (JStr "2025-01-01T12:00:00") (JStr "2025-01-01T12:00:00")
           (JStr "HTML/Bootstrap")].
Proof. vm_compute. reflexivity. Qed.

Example fifty_one_appends :
  stored_history Example.demo
    (appends (map Example.sample_record (seqZ 0 51)) Example.s1)
  = Some (map Example.sample_record (seqZ 1 50)).
Proof. vm_compute. reflexivity. Qed.

Example server_on_first_port :
  result DevstralWorkspace.start_dev_server Example.s1 = Ret (Starting 3000, Some 3000)
  ∧ result DevstralWorkspace.start_dev_server
      (do_env (PortsBusy [3000; 3001]) Example.s1)
    = Ret (Starting 3002, Some 3002).
Proof. split; vm_compute; reflexivity. Qed.

(** ** Running computations *)

Lemma run_bind {A B} (m : M A) (k : A → M B) st :
  (x <- m ;; k x) st =
  match m st with
  | (Ret a, st') => k a st'
  | (Raise e, st') => (Raise e, st')
  end.
Proof. reflexivity. Qed.

Lemma run_ret {A} (a : A) st : ret a st = (Ret a, st).
Proof. reflexivity. Qed.

Lemma run_raise {A} (e : exn) st : (raise e : M A) st = (Raise e, st).
Proof. reflexivity. Qed.

Lemma run_gets {A} (f : state → A) st : gets f st = (Ret (f st), st).
Proof. reflexivity. Qed.

Lemma run_modify (f : state → state) st : modify f st = (Ret tt, f st).
Proof. reflexivity. Qed.

Lemma run_emit ev st : emit ev st = (Ret tt, on_os (record ev) st).
Proof. reflexivity. Qed.

Lemma run_try_gets {A} (f : state → exn + A) st :
  try_gets f st = match f st with
                  | inl e => (Raise e, st)
                  | inr a => (Ret a, st)
                  end.
Proof. unfold try_gets. by destruct (f st). Qed.

Lemma run_lift {A} (r : exn + A) st :
  lift r st = match r with
              | inl e => (Raise e, st)
              | inr a => (Ret a, st)
              end.
Proof. by destruct r. Qed.

Lemma run_try_except {A} (m : M A) (h : exn → M A) st :
  try_except m h st =
  match m st with
  | (Ret a, st') => (Ret a, st')
  | (Raise e, st') => h e st'
  end.
Proof. reflexivity. Qed.

(** Run the computation in the goal as far as its shape is known. *)
Ltac mrun :=
  repeat (first [ rewrite run_bind | rewrite run_ret | rewrite run_raise
                | rewrite run_gets | rewrite run_modify | rewrite run_emit
                | rewrite run_try_gets | rewrite run_lift | rewrite run_try_except ];
          cbv beta iota).

Lemma bind_ret_inv {A B} (m : M A) (k : A → M B) st b st' :
  (x <- m ;; k x) st = (Ret b, st') →
  ∃ a st1, m st = (Ret a, st1) ∧ k a st1 = (Ret b, st').
Proof.
  rewrite run_bind. destruct (m st) as [[a|e] st1]; [eauto | discriminate].
Qed.

Lemma try_except_inv {A} (m : M A) (h : exn → M A) st a st' :
  try_except m h st = (Ret a, st') →
  m st = (Ret a, st') ∨ ∃ e st1, m st = (Raise e, st1) ∧ h e st1 = (Ret a, st').
Proof.
  unfold try_except. destruct (m st) as [[x|e] st1]; intros H; [left | right; eauto].
  exact H.
Qed.

Lemma after_bind {A B} (m : M A) (k : A → M B) st :
  after (x <- m ;; k x) st =
  match result m st with
  | Ret a => after (k a) (after m st)
  | Raise _ => after m st
  end.
Proof.
  unfold after, result. rewrite run_bind. by destruct (m st) as [[a|e] st1].
Qed.

Lemma surjective_run {A} (m : M A) st : m st = (result m st, after m st).
Proof. unfold result, after. by destruct (m st). Qed.

(** ** What a computation preserves *)

Section Preserves.
Context (P : state → state → Prop) `{!PreOrder P}.

Lemma preserves_ret {A} (a : A) : preserves P (ret a).
Proof. intros st. reflexivity. Qed.

Lemma preserves_raise {A} (e : exn) : preserves P (raise e : M A).
Proof. intros st. reflexivity. Qed.

Lemma preserves_lift {A} (r : exn + A) : preserves P (lift r).
Proof. destruct r; [apply preserves_raise | apply preserves_ret]. Qed.

Lemma preserves_gets {A} (f : state → A) : preserves P (gets f).
Proof. intros st. reflexivity. Qed.

Lemma preserves_try_gets {A} (f : state → exn + A) : preserves P (try_gets f).
Proof.
  intros st. unfold try_gets, after. destruct (f st); reflexivity.
Qed.

Lemma preserves_bind {A B} (m : M A) (k : A → M B) :
  preserves P m → (∀ a, preserves P (k a)) → preserves P (x <- m ;; k x).
Proof.
  intros Hm Hk st. rewrite after_bind. destruct (result m st).
  - etrans; [apply Hm | apply Hk].
  - apply Hm.
Qed.

Lemma preserves_try_except {A} (m : M A) (h : exn → M A) :
  preserves P m → (∀ e, preserves P (h e)) → preserves P (try_except m h).
Proof.
  intros Hm Hh st. unfold after, try_except.
  specialize (Hm st). unfold after in Hm.
  destruct (m st) as [[a|e] st1]; simpl in *; [done |].
  etrans; [exact Hm | apply Hh].
Qed.

Lemma preserves_modify (f : state → state) :
  (∀ st, P st (f st)) → preserves P (modify f).
Proof. intros Hf st. apply Hf. Qed.

Lemma preserves_for_each {A B} (f : A → M (list B)) l :
  (∀ x, preserves P (f x)) → preserves P (for_each f l).
Proof.
  intros Hf. induction l as [|x l IH]; simpl.
  - apply preserves_ret.
  - apply preserves_bind; [apply Hf | intros r].
    apply preserves_bind; [apply IH | intros rs; apply preserves_ret].
Qed.
End Preserves.

Arguments preserves_ret {P _ A} a.
Arguments preserves_raise {P _ A} e.
Arguments preserves_lift {P _ A} r.
Arguments preserves_gets {P _ A} f.
Arguments preserves_try_gets {P _ A} f.
Arguments preserves_bind {P _ A B} m k.
Arguments preserves_try_except {P _ A} m h.
Arguments preserves_for_each {P _ A B} f l.

#[global] Instance keeps_preorder {B} (f : state → B) : PreOrder (keeps f).
Proof.
  split; [intros st; reflexivity |].
  intros a b c H1 H2. unfold keeps in *. congruence.
Qed.

#[global] Instance replays_preorder : PreOrder replays.
Proof.
  split.
  - intros st. exists []. by rewrite app_nil_r.
  - intros a b c (e1 & T1 & F1 & C1) (e2 & T2 & F2 & C2). exists (e1 ++ e2).
    rewrite T2, T1, F2, F1, C2, C1, app_assoc. unfold replay. by rewrite foldl_app.
Qed.

(** One step of a proof that a computation preserves a relation: split
    sequencing, handlers and case distinctions. *)
Ltac preserves_step :=
  first
    [ apply preserves_ret | apply preserves_raise | apply preserves_lift
    | apply preserves_gets | apply preserves_try_gets
    | apply preserves_bind; [| intros ?]
    | apply preserves_try_except; [| intros ?]
    | apply preserves_for_each; intros ?
    | match goal with
      | |- preserves _ (match ?x with _ => _ end) => destruct x
      | |- preserves _ (let '(_, _) := ?x in _) => destruct x
      end ].

Create HintDb preserves discriminated.

Ltac preserves_auto :=
  repeat first [ solve [eauto 2 with preserves] | preserves_step ].

(** The methods of the registry and of the history are built from making
    directories, writing files, terminal lines and the selection of a
    project: a relation that these preserve is preserved by the methods. *)
Section Frame.
Context (P : state → state → Prop) `{!PreOrder P}.
Hypothesis P_terminal : ∀ h, preserves P (set_terminal_history h).
Hypothesis P_mkdir : ∀ l, preserves P (emit (EvMkdir l)).
Hypothesis P_write : ∀ p c, preserves P (write_text p c).
Hypothesis P_select : ∀ p, preserves P (set_current_project (Some p)).

#[local] Hint Resolve P_terminal P_select P_mkdir P_write : preserves.

Lemma preserves_exists_ p : preserves P (exists_ p).
Proof. apply preserves_gets. Qed.

Lemma preserves_is_dir p : preserves P (is_dir p).
Proof. apply preserves_gets. Qed.

Lemma preserves_resolve p : preserves P (resolve p).
Proof. apply preserves_try_gets. Qed.
#[local] Hint Resolve preserves_exists_ preserves_is_dir preserves_resolve : preserves.

Lemma preserves_read_file p : preserves P (read_file p).
Proof. unfold read_file. preserves_auto. Qed.

Lemma preserves_json_load c : preserves P (json_load c).
Proof. unfold json_load. preserves_auto. Qed.
#[local] Hint Resolve preserves_read_file preserves_json_load : preserves.

Lemma preserves_load_json p : preserves P (load_json p).
Proof. unfold load_json. preserves_auto. Qed.

Lemma preserves_iterdir p : preserves P (iterdir p).
Proof. unfold iterdir. preserves_auto. Qed.
#[local] Hint Resolve preserves_load_json preserves_iterdir : preserves.

Lemma preserves_add_terminal_output text : preserves P (add_terminal_output text).
Proof. unfold add_terminal_output. preserves_auto. Qed.

Lemma preserves_get_terminal_output : preserves P get_terminal_output.
Proof. apply preserves_gets. Qed.
#[local] Hint Resolve preserves_add_terminal_output preserves_get_terminal_output
  : preserves.

Lemma preserves_project_entry item : preserves P (project_entry item).
Proof. unfold project_entry. preserves_auto. Qed.
#[local] Hint Resolve preserves_project_entry : preserves.

Lemma preserves_get_workspace_projects : preserves P get_workspace_projects.
Proof. unfold get_workspace_projects. preserves_auto. Qed.

Lemma preserves_get_default_target_file : preserves P get_default_target_file.
Proof. unfold get_default_target_file. preserves_auto. Qed.

Lemma preserves_get_file_tree : preserves P get_file_tree.
Proof. unfold get_file_tree. preserves_auto. Qed.

Lemma preserves_history_row gen : preserves P (history_row gen).
Proof. unfold history_row. preserves_auto. Qed.

Lemma preserves_reversed j : preserves P (reversed j).
Proof. unfold reversed. preserves_auto. Qed.
#[local] Hint Resolve preserves_history_row preserves_reversed : preserves.

Lemma preserves_load_generation_history : preserves P load_generation_history.
Proof. unfold load_generation_history. preserves_auto. Qed.
#[local] Hint Resolve preserves_get_default_target_file preserves_get_file_tree
  preserves_load_generation_history : preserves.

Lemma preserves_os_mkdir p : preserves P (os_mkdir p).
Proof. unfold os_mkdir. preserves_auto. Qed.
#[local] Hint Resolve preserves_os_mkdir : preserves.

Lemma preserves_mkdir p : preserves P (mkdir p).
Proof. unfold mkdir. preserves_auto. Qed.
#[local] Hint Resolve preserves_mkdir : preserves.

Lemma preserves_mkdir_parents p : preserves P (mkdir_parents p).
Proof.
  unfold mkdir_parents. generalize (absolute p), (rev (parts p)).
  intros a l. induction l as [|c l IH]; simpl; preserves_auto.
Qed.
#[local] Hint Resolve preserves_mkdir_parents : preserves.

Lemma preserves_dump_json p j : preserves P (dump_json p j).
Proof. exact (P_write p (Json j)). Qed.
#[local] Hint Resolve preserves_dump_json : preserves.

Lemma preserves__write_file p c : preserves P (_write_file p c).
Proof. unfold _write_file. preserves_auto. Qed.
#[local] Hint Resolve preserves__write_file : preserves.

Lemma preserves_scaffold p :
  preserves P (_create_react_structure p) ∧ preserves P (_create_vue_structure p)
  ∧ preserves P (_create_nextjs_structure p) ∧ preserves P (_create_html_structure p).
Proof.
  unfold _create_react_structure, _create_vue_structure, _create_nextjs_structure,
    _create_html_structure.
  repeat split; preserves_auto.
Qed.

Lemma preserves_save_screenshot image target_file :
  preserves P (save_screenshot image target_file).
Proof. unfold save_screenshot. preserves_auto. Qed.

Lemma preserves_save_generation_metadata g : preserves P (save_generation_metadata g).
Proof. unfold save_generation_metadata. preserves_auto. Qed.
#[local] Hint Resolve preserves_save_screenshot preserves_save_generation_metadata
  : preserves.

(** Lines 146-163: what [create_project] does after the descriptor is
    written. *)
Lemma preserves_create_project_tail (n project_type : string) (project_path : path) :
  preserves P
    ((if String.eqb project_type "React" then _create_react_structure project_path
      else if String.eqb project_type "Vue" then _create_vue_structure project_path
      else if String.eqb project_type "Next.js" then _create_nextjs_structure project_path
      else _create_html_structure project_path) ;;
     add_terminal_output (LogCreated n) ;;
     add_terminal_output (LogLocation project_path) ;;
     add_terminal_output (LogScreenshots (project_path // "screenshots")) ;;
     default_file <- get_default_target_file ;;
     tree <- get_file_tree ;;
     term <- get_terminal_output ;;
     ret (Created project_type n, tree, term, ([] : list row), default_file)).
Proof.
  pose proof preserves_scaffold as Hs. preserves_auto; apply Hs.
Qed.

Lemma preserves_create_project project_name project_type :
  preserves P (create_project project_name project_type).
Proof.
  pose proof preserves_scaffold as Hs.
  unfold create_project. preserves_auto; apply Hs.
Qed.

Lemma preserves_load_project project_name : preserves P (load_project project_name).
Proof. unfold load_project. preserves_auto. Qed.

Lemma preserves_generate_code image target_file custom_prompt save_shot :
  preserves P (generate_code image target_file custom_prompt save_shot).
Proof. unfold generate_code. preserves_auto. Qed.
End Frame.

(** A relation that every file system call preserves is preserved by
    [write_text]. *)
Lemma preserves_write_text P `{!PreOrder P} :
  (∀ ev, fs_event ev → preserves P (emit ev)) → ∀ p c, preserves P (write_text p c).
Proof.
  intros Hev p c. unfold write_text, open_w, write_close.
  preserves_auto; apply Hev; exact I.
Qed.

(** ** Files *)

Lemma node_at_nonroot (f : fsmap) l : Fs.node_at f l ≠ Some Dir → Fs.node_at f l = f !! l.
Proof. destruct l; [intros H; by destruct H | done]. Qed.

Lemma node_at_insert_ne (f : fsmap) l l' n :
  l ≠ l' → Fs.node_at (<[l := n]> f) l' = Fs.node_at f l'.
Proof. intros Hne. destruct l'; [done |]. simpl. by rewrite lookup_insert_ne. Qed.

Lemma node_at_insert_eq (f : fsmap) l n :
  l ≠ [] → Fs.node_at (<[l := n]> f) l = Some n.
Proof. intros Hne. destruct l; [done |]. simpl. by rewrite lookup_insert_eq. Qed.

(** Putting a file where no directory was does not change where paths
    that resolved lead to. *)
Lemma walk_insert_file (f : fsmap) l c ps cur l' :
  Fs.node_at f l ≠ Some Dir →
  Fs.walk f cur ps = inr l' →
  Fs.walk (<[l := File c]> f) cur ps = inr l'.
Proof.
  intros Hl. revert cur. induction ps as [|part ps IH]; intros cur; simpl; [done |].
  destruct (Fs.node_at f cur) as [[|c']|] eqn:Hcur; try discriminate.
  intros Hw. rewrite node_at_insert_ne; [| intros ->; congruence].
  rewrite Hcur. by apply IH.
Qed.

Lemma resolve_insert_file (f : fsmap) cwd l c p l' :
  Fs.node_at f l ≠ Some Dir →
  Fs.resolve f cwd p = inr l' →
  Fs.resolve (<[l := File c]> f) cwd p = inr l'.
Proof. apply walk_insert_file. Qed.

Lemma load_json_run p st :
  load_json p st = (read_json (the_fs st) (cwd (os st)) p, st).
Proof.
  unfold load_json, read_file, json_load, resolve, read_json, the_fs. mrun.
  destruct (Fs.resolve _ _ p) as [e|l]; mrun; [done |].
  destruct (Fs.node_at _ l) as [[|[]]|]; mrun; done.
Qed.

(** [dump_json] on a path that resolves to something other than a directory:
    the file is truncated, then written. *)
Lemma dump_json_run p j st l :
  Fs.resolve (the_fs st) (cwd (os st)) p = inr l →
  Fs.node_at (the_fs st) l ≠ Some Dir →
  dump_json p j st
  = (Ret tt, on_os (record (EvWrite l (Json j))) (on_os (record (EvTruncate l)) st)).
Proof.
  intros Hr Hn. unfold dump_json, open_w, write_close, resolve, the_fs in *.
  mrun. rewrite Hr. mrun.
  destruct (Fs.node_at (fs (os st)) l) as [[|c]|]; mrun; done.
Qed.

Lemma dump_json_fails p j st :
  (∃ e, Fs.resolve (the_fs st) (cwd (os st)) p = inl e)
  ∨ (∃ l, Fs.resolve (the_fs st) (cwd (os st)) p = inr l
          ∧ Fs.node_at (the_fs st) l = Some Dir) →
  ∃ e, dump_json p j st = (Raise e, st).
Proof.
  unfold dump_json, open_w, resolve, the_fs.
  intros [[e He]|(l & Hl & Hd)]; mrun.
  - rewrite He. mrun. eauto.
  - rewrite Hl. mrun. rewrite Hd. mrun. eauto.
Qed.

Lemma read_json_after_dump f cwd p j l :
  Fs.resolve f cwd p = inr l →
  Fs.node_at f l ≠ Some Dir →
  read_json (<[l := File (Json j)]> (<[l := File (Text "")]> f)) cwd p = Ret j.
Proof.
  intros Hr Hn. unfold read_json.
  assert (l ≠ []) as Hne by (intros ->; by apply Hn).
  rewrite (resolve_insert_file _ _ _ _ _ l); first last.
  - by apply resolve_insert_file.
  - rewrite node_at_insert_eq; done.
  - rewrite node_at_insert_eq; done.
Qed.

(** ** Slices and dictionaries *)

Lemma length_last_n {A} (n : nat) (l : list A) : (length (Py.last_n n l) ≤ n)%nat.
Proof. unfold Py.last_n. rewrite length_drop. lia. Qed.

Lemma last_n_short {A} (n : nat) (l : list A) : (length l ≤ n)%nat → Py.last_n n l = l.
Proof.
  intros H. unfold Py.last_n. replace (length l - n)%nat with 0%nat by lia. done.
Qed.

Lemma last_n_app_last_n {A} (n : nat) (l l' : list A) :
  Py.last_n n (Py.last_n n l ++ l') = Py.last_n n (l ++ l').
Proof.
  unfold Py.last_n. rewrite !length_app, length_drop.
  destruct (decide (length l ≤ n)%nat) as [Hle|Hgt].
  - replace (length l - n)%nat with 0%nat by lia. simpl.
    by rewrite Nat.sub_0_r.
  - replace (length l - (length l - n) + length l' - n)%nat with (length l') by lia.
    replace (length l + length l' - n)%nat with ((length l - n) + length l')%nat by lia.
    rewrite <- drop_drop. rewrite (drop_app_le l) by lia. done.
Qed.

(** [l[-n:]] on a list one longer than [n] drops its first element. *)
Lemma last_n_full {A} (n : nat) (l : list A) (x : A) :
  (0 < n)%nat → length l = n → Py.last_n n (l ++ [x]) = tail l ++ [x].
Proof.
  intros Hn Hl. unfold Py.last_n. rewrite length_app. simpl.
  replace (length l + 1 - n)%nat with 1%nat by lia.
  destruct l; [simpl in *; lia | done].
Qed.

Lemma dict_lookup_set_eq k v kv : Dict.lookup k (Dict.set k v kv) = Some v.
Proof.
  induction kv as [|[k' v'] kv IH]; simpl.
  - by rewrite String.eqb_refl.
  - destruct (String.eqb k k') eqn:E; simpl; rewrite ?String.eqb_refl, ?E; done.
Qed.

Lemma dict_lookup_set_ne k k' v kv :
  k ≠ k' → Dict.lookup k (Dict.set k' v kv) = Dict.lookup k kv.
Proof.
  intros Hne. induction kv as [|[k'' v''] kv IH]; simpl.
  - destruct (String.eqb k k') eqn:E; [apply String.eqb_eq in E; done | done].
  - destruct (String.eqb k' k'') eqn:E; simpl.
    + apply String.eqb_eq in E. subst k''.
      destruct (String.eqb k k') eqn:E'; [apply String.eqb_eq in E'; done | done].
    + by rewrite IH.
Qed.

(** ** The metadata store *)

(** [save_generation_metadata] as a function of the descriptor it finds. *)
Lemma save_generation_metadata_run st p g :
  the_project st = Some p →
  save_generation_metadata g st =
  let meta_file := p // "meta.json" in
  let t := now (os st) in
  match (if Fs.exists_ (the_fs st) (cwd (os st)) meta_file
         then read_json (the_fs st) (cwd (os st)) meta_file
         else Ret (JObj [("name", JStr (name p)); ("type", JStr "Unknown");
                         ("created", JStr (iso t)); ("generations", JArr [])])) with
  | Raise e => (Raise e, st)
  | Ret meta =>
      match set_item meta "last_modified" (JStr (iso t)) with
      | inl e => (Raise e, st)
      | inr meta1 =>
          match append_generation meta1 g with
          | inl e => (Raise e, st)
          | inr meta2 => dump_json meta_file meta2 st
          end
      end
  end.
Proof.
  intros Hp. unfold the_project in Hp. unfold save_generation_metadata, exists_.
  mrun. rewrite Hp. mrun. fold (the_fs st).
  destruct (Fs.exists_ _ _ _); mrun.
  - rewrite load_json_run.
    destruct (read_json _ _ _) as [meta|e]; [| done]. mrun.
    destruct (set_item _ _ _) as [e|meta1]; mrun; [done |].
    destruct (append_generation _ _) as [e|meta2]; mrun; done.
  - destruct (set_item _ _ _) as [e|meta1]; mrun; [done |].
    destruct (append_generation _ _) as [e|meta2]; mrun; done.
Qed.

Lemma stored_history_eq p st :
  stored_history p st =
  match read_json (the_fs st) (cwd (os st)) (p // "meta.json") with
  | Ret meta => history_in meta
  | Raise _ => None
  end.
Proof. unfold stored_history, result. by rewrite load_json_run. Qed.

Lemma read_json_ret f cwd p meta :
  read_json f cwd p = Ret meta →
  ∃ l, Fs.resolve f cwd p = inr l ∧ Fs.node_at f l = Some (File (Json meta)).
Proof.
  unfold read_json. destruct (Fs.resolve f cwd p) as [e|l]; [done |].
  destruct (Fs.node_at f l) as [[|[]]|] eqn:Hn; try done. intros [= ->]. eauto.
Qed.

Lemma history_in_append meta t g gens :
  history_in meta = Some gens →
  ∃ meta1 meta2,
    set_item meta "last_modified" t = inr meta1
    ∧ append_generation meta1 g = inr meta2
    ∧ history_in meta2 = Some (Py.last_n 50 (gens ++ [g])).
Proof.
  destruct meta as [| | | | |kv]; try done. simpl.
  destruct (Dict.lookup "generations" kv) as [[| | | |gens'|]|] eqn:Hl; try done.
  intros [= ->]. eexists _, _. split; [done |]. simpl.
  rewrite dict_lookup_set_ne, Hl by done. split; [done |].
  unfold history_in. by rewrite dict_lookup_set_eq.
Qed.

Lemma history_in_none_append meta t g meta1 meta2 :
  history_in meta = None →
  set_item meta "last_modified" t = inr meta1 →
  append_generation meta1 g = inr meta2 → False.
Proof.
  destruct meta as [| | | | |kv]; try done. simpl. intros Hh [= <-]. simpl.
  rewrite dict_lookup_set_ne by done.
  destruct (Dict.lookup "generations" kv) as [[| | | |gens'|]|]; done.
Qed.

(** Appending to a descriptor that holds a history. *)
Lemma save_generation_metadata_stored st p g gens :
  the_project st = Some p →
  stored_history p st = Some gens →
  result (save_generation_metadata g) st = Ret tt
  ∧ stored_history p (after (save_generation_metadata g) st)
    = Some (Py.last_n 50 (gens ++ [g])).
Proof.
  intros Hp Hs. rewrite stored_history_eq in Hs.
  destruct (read_json _ _ _) as [meta|] eqn:Hr; [| done].
  destruct (read_json_ret _ _ _ _ Hr) as (l & Hl & Hn).
  destruct (history_in_append meta (JStr (iso (now (os st)))) g gens Hs)
    as (meta1 & meta2 & H1 & H2 & H3).
  unfold result, after. rewrite (save_generation_metadata_run _ _ _ Hp).
  cbv zeta. unfold Fs.exists_, Fs.stat. rewrite Hl, Hn.
  fold (Fs.stat (the_fs st) (cwd (os st)) (p // "meta.json")).
  rewrite Hr, H1, H2.
  rewrite (dump_json_run _ _ _ l) by (rewrite ?Hn; done).
  split; [done |]. rewrite stored_history_eq. simpl.
  unfold the_fs. simpl.
  rewrite (read_json_after_dump _ _ _ _ l); [done | done |].
  fold (the_fs st). by rewrite Hn.
Qed.

(** Appending where no history is stored: either nothing is written and the
    state stays as it is, or a descriptor with this one record is made. *)
Lemma save_generation_metadata_fresh st p g :
  the_project st = Some p →
  stored_history p st = None →
  after (save_generation_metadata g) st = st
  ∨ stored_history p (after (save_generation_metadata g) st) = Some [g].
Proof.
  intros Hp Hs. rewrite stored_history_eq in Hs.
  unfold after. rewrite (save_generation_metadata_run _ _ _ Hp). cbv zeta.
  destruct (Fs.exists_ _ _ _) eqn:He.
  - left. destruct (read_json _ _ _) as [meta|]; [| done].
    destruct (set_item _ _ _) as [|meta1] eqn:H1; [done |].
    destruct (append_generation _ _) as [|meta2] eqn:H2; [done |].
    destruct (history_in_none_append _ _ _ _ _ Hs H1 H2).
  - simpl set_item. cbv iota. simpl append_generation. cbv iota.
    unfold Fs.exists_, Fs.stat in He.
    destruct (Fs.resolve (the_fs st) (cwd (os st)) (p // "meta.json")) as [e|l] eqn:Hl.
    + left. edestruct (dump_json_fails (p // "meta.json")) as [e' ->]; [left; eauto | done].
    + destruct (Fs.node_at (the_fs st) l) as [n|] eqn:Hn; [done |].
      right. rewrite (dump_json_run _ _ _ l) by (rewrite ?Hn; done).
      rewrite stored_history_eq. simpl. unfold the_fs. simpl.
      rewrite (read_json_after_dump _ _ _ _ l); [done | done |].
      fold (the_fs st). by rewrite Hn.
Qed.

Lemma save_generation_metadata_project g : preserves (keeps the_project) (save_generation_metadata g).
Proof.
  apply preserves_save_generation_metadata; [apply _ |].
  apply preserves_write_text; [apply _ |]. intros ev _ st. reflexivity.
Qed.

Lemma appends_project gs st : the_project (appends gs st) = the_project st.
Proof.
  revert st. induction gs as [|g gs IH]; intros st; simpl; [done |].
  unfold appends in *. rewrite IH. apply save_generation_metadata_project.
Qed.

Lemma appends_snoc gs g st :
  appends (gs ++ [g]) st = after (save_generation_metadata g) (appends gs st).
Proof. unfold appends. by rewrite foldl_app. Qed.

Lemma appends_stored p gs st gens :
  the_project st = Some p →
  stored_history p st = Some gens →
  stored_history p (appends gs st)
  = Some (match gs with [] => gens | _ => Py.last_n 50 (gens ++ gs) end).
Proof.
  intros Hp Hs. induction gs as [|g gs IH] using rev_ind; [done |].
  rewrite appends_snoc.
  edestruct (save_generation_metadata_stored (appends gs st) p g) as [_ ->].
  - by rewrite appends_project.
  - exact IH.
  - f_equal. destruct gs as [|g' gs'].
    + simpl. destruct (gens ++ [g]); done.
    + rewrite last_n_app_last_n, <- app_assoc.
      destruct ((g' :: gs') ++ [g]) eqn:E; [by destruct gs' | done].
Qed.

Lemma stored_bounded_step p g st :
  the_project st = Some p →
  (length (persisted_history p st) ≤ 50)%nat ∨ is_Some (stored_history p st) →
  (length (persisted_history p (after (save_generation_metadata g) st)) ≤ 50)%nat.
Proof.
  intros Hp H. unfold persisted_history in *.
  destruct (stored_history p st) as [gens|] eqn:Hs.
  - destruct (save_generation_metadata_stored st p g gens Hp Hs) as [_ ->].
    simpl. apply length_last_n.
  - destruct H as [H|[? [=]]].
    destruct (save_generation_metadata_fresh st p g Hp Hs) as [-> | ->].
    + by rewrite Hs.
    + simpl. lia.
Qed.

(** C1: the persisted generation history never exceeds 50 records.  For
    every project [p] that is open and every non-empty sequence of appended
    records, the history stored in the descriptor afterwards has at most 50
    records; appended to a stored history [gens], the records [gs] leave the
    last 50 of [gens ++ gs] in their order; and appending [g] to a history of
    exactly 50 drops its first (oldest) record and puts [g] last. *)
Theorem generation_history_capped (st : state) (p : path) :
  the_project st = Some p →
  (∀ gs g, (length (persisted_history p (appends (gs ++ [g]) st)) ≤ 50)%nat)
  ∧ (∀ gens gs g, stored_history p st = Some gens →
        stored_history p (appends (g :: gs) st)
        = Some (Py.last_n 50 (gens ++ g :: gs)))
  ∧ (∀ gens g, stored_history p st = Some gens → length gens = 50%nat →
        stored_history p (after (save_generation_metadata g) st)
        = Some (tail gens ++ [g])).
Proof.
  intros Hp. repeat split.
  - intros gs g. rewrite appends_snoc.
    destruct (stored_history p (appends gs st)) as [gens|] eqn:Hs.
    + apply stored_bounded_step; [by rewrite appends_project | right; eauto].
    + apply stored_bounded_step; [by rewrite appends_project | left].
      unfold persisted_history. rewrite Hs. simpl. lia.
  - intros gens gs g Hs. by rewrite (appends_stored p (g :: gs) st gens).
  - intros gens g Hs Hlen.
    destruct (save_generation_metadata_stored st p g gens Hp Hs) as [_ ->].
    f_equal. apply last_n_full; [lia | done].
Qed.

(** ** The trace and the files *)

Lemma replays_terminal h : preserves replays (set_terminal_history h).
Proof. intros st. exists []. by rewrite app_nil_r. Qed.

Lemma replays_select p : preserves replays (set_current_project p).
Proof. intros st. exists []. by rewrite app_nil_r. Qed.

Lemma replays_emit ev : preserves replays (emit ev).
Proof. intros st. by exists [ev]. Qed.

Lemma replays_events {A} (m : M A) st :
  replays st (after m st) →
  the_fs (after m st) = replay (events_of m st) (the_fs st)
  ∧ the_trace (after m st) = the_trace st ++ events_of m st.
Proof.
  intros (evs & T & F & _). unfold events_of. fold (the_trace st) (the_trace (after m st)).
  rewrite T, drop_app_length. done.
Qed.

Lemma snapshots_app f pre evs :
  snapshots f (pre ++ evs) = snapshots f pre ++ snapshots (replay pre f) evs.
Proof.
  revert f. induction pre as [|ev pre IH]; intros f; simpl; [done |].
  by rewrite IH.
Qed.

(** The files after a prefix of the calls are among those that can be seen. *)
Lemma snapshot_seen f pre ev post :
  replay (pre ++ [ev]) f ∈ snapshots f (pre ++ ev :: post).
Proof.
  rewrite snapshots_app. apply elem_of_app. right. simpl.
  unfold replay. rewrite foldl_app. simpl. apply list_elem_of_here.
Qed.

Lemma dump_json_ret_inv p j st st' :
  dump_json p j st = (Ret tt, st') →
  ∃ l, Fs.resolve (the_fs st) (cwd (os st)) p = inr l
       ∧ Fs.node_at (the_fs st) l ≠ Some Dir
       ∧ st' = on_os (record (EvWrite l (Json j))) (on_os (record (EvTruncate l)) st).
Proof.
  intros H.
  destruct (Fs.resolve (the_fs st) (cwd (os st)) p) as [e|l] eqn:Hl.
  - edestruct (dump_json_fails p j st) as [e' He']; [left; eauto |]. congruence.
  - assert (Fs.node_at (the_fs st) l = Some Dir ∨ Fs.node_at (the_fs st) l ≠ Some Dir)
      as [Hd|Hd] by (destruct (Fs.node_at (the_fs st) l) as [[|c]|]; auto).
    + edestruct (dump_json_fails p j st) as [e' He']; [right; eauto |]. congruence.
    + exists l. repeat split; [done |]. rewrite (dump_json_run _ _ _ l) in H by done.
      congruence.
Qed.

(** Right after the descriptor was opened for writing it is empty, and
    [json.load] rejects it. *)
Lemma read_json_truncated f cwd p l :
  Fs.resolve f cwd p = inr l →
  Fs.node_at f l ≠ Some Dir →
  read_json (apply_fs (EvTruncate l) f) cwd p = Raise JSONDecodeError.
Proof.
  intros Hr Hn. unfold read_json. simpl.
  rewrite (resolve_insert_file _ _ _ _ _ l) by done.
  rewrite node_at_insert_eq; [done |]. intros ->. by apply Hn.
Qed.

(** ** Creating a project *)

#[global] Instance quiet_preorder : PreOrder quiet.
Proof.
  split.
  - intros st. by repeat split.
  - intros a b c (R1 & P1 & C1 & S1) (R2 & P2 & C2 & S2).
    repeat split; [by etrans | congruence..].
Qed.

Lemma quiet_terminal h : preserves quiet (set_terminal_history h).
Proof. intros st. repeat split. apply replays_terminal. Qed.

Lemma quiet_emit ev : fs_event ev → preserves quiet (emit ev).
Proof.
  intros Hev st. repeat split; [apply replays_emit |].
  unfold supervisor. simpl. by destruct ev.
Qed.

Lemma quiet_mkdir_ev l : preserves quiet (emit (EvMkdir l)).
Proof. by apply quiet_emit. Qed.

Lemma quiet_write_text p c : preserves quiet (write_text p c).
Proof. apply preserves_write_text; [apply _ | apply quiet_emit]. Qed.

#[global] Hint Resolve quiet_terminal quiet_emit quiet_mkdir_ev quiet_write_text : preserves.
#[global] Hint Extern 1 (fs_event _) => exact I : preserves.

Lemma preserves_run {A} P (m : M A) st o st' :
  preserves P m → m st = (o, st') → P st st'.
Proof. intros Hp H. specialize (Hp st). unfold after in Hp. by rewrite H in Hp. Qed.

Lemma quiet_scaffold project_type p :
  preserves quiet
    (if String.eqb project_type "React" then _create_react_structure p
     else if String.eqb project_type "Vue" then _create_vue_structure p
     else if String.eqb project_type "Next.js" then _create_nextjs_structure p
     else _create_html_structure p).
Proof.
  destruct (preserves_scaffold quiet quiet_mkdir_ev quiet_write_text p) as (?&?&?&?).
  repeat case_match; done.
Qed.

(** *** Directories *)

#[global] Instance dirs_stay_preorder : PreOrder dirs_stay.
Proof.
  split.
  - intros st. by split.
  - intros a b c [C1 D1] [C2 D2]. split; [congruence | auto].
Qed.

Lemma walk_dirs_stay (f f' : fsmap) cur ps l :
  (∀ l, Fs.node_at f l = Some Dir → Fs.node_at f' l = Some Dir) →
  Fs.walk f cur ps = inr l → Fs.walk f' cur ps = inr l.
Proof.
  intros Hd. revert cur. induction ps as [|part ps IH]; intros cur; simpl; [done |].
  destruct (Fs.node_at f cur) as [[|c]|] eqn:Hcur; try done.
  rewrite (Hd cur Hcur). apply IH.
Qed.

Lemma is_directory_dirs_stay p st st' :
  dirs_stay st st' → is_directory p st → is_directory p st'.
Proof.
  intros [Hc Hd]. unfold is_directory, Fs.is_dir, Fs.stat, Fs.resolve. rewrite Hc.
  destruct (Fs.walk (the_fs st) _ _) as [e|l] eqn:Hw; [done |].
  rewrite (walk_dirs_stay _ _ _ _ _ Hd Hw).
  destruct (Fs.node_at (the_fs st) l) as [[|c]|] eqn:Hn; try done.
  by rewrite (Hd l Hn).
Qed.

Lemma dirs_stay_terminal h : preserves dirs_stay (set_terminal_history h).
Proof. intros st. by split. Qed.

Lemma dirs_stay_select p : preserves dirs_stay (set_current_project p).
Proof. intros st. by split. Qed.

Lemma dirs_stay_mkdir_ev l : preserves dirs_stay (emit (EvMkdir l)).
Proof.
  intros st. split; [done |]. intros l' Hl'. unfold the_fs. simpl.
  destruct (decide (l = l')) as [->|Hne]; [| by rewrite node_at_insert_ne].
  destruct l'; [done |]. by rewrite node_at_insert_eq.
Qed.

(** [write_text] either raises and changes nothing, or truncates and writes
    a location that is not a directory. *)
Lemma write_text_cases p c st :
  (∃ e, write_text p c st = (Raise e, st))
  ∨ (∃ l, Fs.resolve (the_fs st) (cwd (os st)) p = inr l
          ∧ Fs.node_at (the_fs st) l ≠ Some Dir
          ∧ write_text p c st
            = (Ret tt, on_os (record (EvWrite l c)) (on_os (record (EvTruncate l)) st))).
Proof.
  unfold write_text, open_w, write_close, resolve, the_fs. mrun.
  destruct (Fs.resolve _ _ p) as [e|l]; mrun; [left; eauto |].
  destruct (Fs.node_at (fs (os st)) l) as [[|c']|] eqn:Hn; mrun.
  - left. eauto.
  - right. exists l. by rewrite Hn.
  - right. exists l. by rewrite Hn.
Qed.

Lemma dirs_stay_write_text p c : preserves dirs_stay (write_text p c).
Proof.
  intros st. unfold after.
  destruct (write_text_cases p c st) as [[e ->]|(l & _ & Hn & ->)]; [reflexivity |].
  split; [done |]. intros l' Hl'. unfold the_fs. simpl.
  assert (l ≠ l') as Hne by (intros ->; done).
  by rewrite !node_at_insert_ne.
Qed.

Lemma os_mkdir_directory p st st' :
  os_mkdir p st = (Ret tt, st') → is_directory p st'.
Proof.
  unfold os_mkdir, resolve. mrun. fold (the_fs st).
  destruct (Fs.resolve _ _ p) as [e|l] eqn:Hl; mrun; [done |]. fold (the_fs st).
  destruct (Fs.node_at (the_fs st) l) as [n|] eqn:Hn; mrun; [done |].
  intros [= <-]. unfold is_directory, Fs.is_dir, Fs.stat, Fs.resolve, the_fs in *. simpl.
  erewrite walk_dirs_stay; [| | exact Hl].
  - rewrite node_at_insert_eq; [done |]. by intros ->.
  - intros l' Hl'. destruct (decide (l = l')) as [->|Hne]; [congruence |].
    by rewrite node_at_insert_ne.
Qed.

Lemma mkdir_directory p st st' : mkdir p st = (Ret tt, st') → is_directory p st'.
Proof.
  unfold mkdir. intros H. apply try_except_inv in H as [H|(e & s & _ & H)].
  - by apply os_mkdir_directory in H.
  - destruct e; try done; revert H; unfold is_dir; mrun;
      fold (the_fs s); destruct (Fs.is_dir (the_fs s) _ _) eqn:Hd; mrun;
      by intros [= <-].
Qed.

(** After [mkdir(parents=True, exist_ok=True)] the path is a directory. *)
Lemma mkdir_parents_directory p st st' :
  mkdir_parents p st = (Ret tt, st') → is_directory p st'.
Proof.
  unfold mkdir_parents.
  assert (p = Path (absolute p) (rev (rev (parts p)))) as Hp
    by (rewrite rev_involutive; by destruct p).
  revert Hp. generalize (absolute p), (rev (parts p)). intros a rparts ->.
  destruct rparts as [|c rparts]; simpl; intros H;
    apply try_except_inv in H as [H|(e & s & _ & H)];
    try (by apply os_mkdir_directory in H).
  - destruct e; try done; revert H; unfold is_dir; mrun;
      fold (the_fs s); destruct (Fs.is_dir (the_fs s) _ _) eqn:Hd; mrun;
      by intros [= <-].
  - destruct e; try (revert H; unfold is_dir; mrun;
      fold (the_fs s); destruct (Fs.is_dir (the_fs s) _ _) eqn:Hd; mrun;
      by intros [= <-]).
    apply bind_ret_inv in H as ([] & s1 & _ & H). by apply mkdir_directory in H.
Qed.

(** The steps of a successful [create_project]. *)
Lemma create_project_created project_name project_type st v st' :
  create_project project_name project_type st = (Ret v, st') →
  (∃ t n, v.1.1.1.1 = Created t n) →
  let n := Py.strip project_name in
  let project_path := workspace_dir // n in
  ∃ st1 st3 st4,
    Fs.exists_ (the_fs st) (cwd (os st)) project_path = false
    ∧ mkdir_parents project_path st = (Ret tt, st1)
    ∧ mkdir (project_path // "screenshots")
            (after (set_current_project (Some project_path)) st1) = (Ret tt, st3)
    ∧ dump_json (project_path // "meta.json")
                (fresh_meta n project_type (now (os st3))) st3 = (Ret tt, st4)
    ∧ quiet st4 st'
    ∧ dirs_stay st4 st'
    ∧ v.1.1.1.1 = Created project_type n.
Proof.
  intros H Hv. unfold create_project in H.
  destruct (String.eqb project_name "" || String.eqb (Py.strip project_name) "").
  { revert H. mrun. intros [= <- <-]. by destruct Hv as (? & ? & ?). }
  revert H. mrun. unfold exists_ at 1. mrun. fold (the_fs st).
  destruct (Fs.exists_ _ _ _) eqn:He.
  { mrun. destruct (get_file_tree st) as [[tree|e] s1]; mrun; [| done].
    unfold get_terminal_output at 1. mrun.
    destruct (get_default_target_file s1) as [[file|e] s2]; mrun; [| done].
    intros [= <- <-]. by destruct Hv as (? & ? & ?). }
  intros H. apply try_except_inv in H as [H|(e & s & _ & H)]; first last.
  { revert H. mrun. intros [= <- <-]. by destruct Hv as (? & ? & ?). }
  apply bind_ret_inv in H as ([] & st1 & H1 & H).
  apply bind_ret_inv in H as ([] & st2 & H2 & H).
  apply bind_ret_inv in H as ([] & st3 & H3 & H).
  apply bind_ret_inv in H as (t & st3' & Ht & H). revert Ht. mrun. intros [= <- <-].
  apply bind_ret_inv in H as ([] & st4 & H4 & H).
  pose proof H as Htail.
  repeat (apply bind_ret_inv in H as (? & ? & _ & H)).
  revert H. mrun. intros [= <- <-].
  assert (st2 = after (set_current_project (Some (workspace_dir // Py.strip project_name))) st1)
    as -> by (unfold after; by rewrite H2).
  exists st1, st3, st4. split_and!; try done.
  - refine (preserves_run quiet _ _ _ _ _ Htail).
    apply preserves_create_project_tail;
      [apply _ | apply quiet_terminal | apply quiet_mkdir_ev | apply quiet_write_text].
  - refine (preserves_run dirs_stay _ _ _ _ _ Htail).
    apply preserves_create_project_tail;
      [apply _ | apply dirs_stay_terminal | apply dirs_stay_mkdir_ev
      | apply dirs_stay_write_text].
Qed.

Lemma quiet_mkdir_parents p : preserves quiet (mkdir_parents p).
Proof. apply preserves_mkdir_parents; [apply _ | apply quiet_mkdir_ev]. Qed.

Lemma quiet_mkdir p : preserves quiet (mkdir p).
Proof. apply preserves_mkdir; [apply _ | apply quiet_mkdir_ev]. Qed.

(** ** Writes of the descriptor *)

Lemma replay_snoc pre ev f : replay (pre ++ [ev]) f = apply_fs ev (replay pre f).
Proof. unfold replay. by rewrite foldl_app. Qed.

Lemma trace_record ev st : the_trace (on_os (record ev) st) = the_trace st ++ [ev].
Proof. reflexivity. Qed.

Lemma written_in_place_intro {A} (m : M A) p j st st3 st4 :
  replays st st3 →
  dump_json p j st3 = (Ret tt, st4) →
  replays st4 (after m st) →
  written_in_place p j m st.
Proof.
  intros (pre & T3 & F3 & C3) Hd (post & T' & F' & C').
  apply dump_json_ret_inv in Hd as (l & Hl & Hn & ->).
  assert (events_of m st = pre ++ [EvTruncate l; EvWrite l (Json j)] ++ post) as Hev.
  { unfold events_of. fold (the_trace st) (the_trace (after m st)).
    rewrite T', !trace_record, T3, <- !app_assoc. by rewrite drop_app_length. }
  exists pre, l, post. split_and!.
  - done.
  - by rewrite <- F3, <- C3.
  - unfold observable. rewrite Hev. simpl. apply snapshot_seen.
  - rewrite replay_snoc, <- F3, <- C3. by apply read_json_truncated.
Qed.

(** C2, as the code has it: every write of a project's descriptor, the
    first one by [create_project] and each one by [save_generation_metadata],
    is made in place.  The descriptor itself is opened for writing, which
    truncates it, and the JSON text is written into it afterwards; no
    temporary file is written and nothing is renamed.  Between the two
    calls the files can be seen with an empty descriptor, which
    [json.load] rejects. *)
Theorem descriptor_written_in_place (st : state) :
  (∀ project_name project_type t n tree term history file,
      result (create_project project_name project_type) st
      = Ret (Created t n, tree, term, history, file) →
      written_in_place (workspace_dir // Py.strip project_name // "meta.json")
        (fresh_meta (Py.strip project_name) project_type (now (os st)))
        (create_project project_name project_type) st)
  ∧ (∀ p g, the_project st = Some p →
        result (save_generation_metadata g) st = Ret tt →
        ∃ meta, written_in_place (p // "meta.json") meta (save_generation_metadata g) st).
Proof.
  split.
  - intros project_name project_type t n tree term history file Hres.
    pose proof (surjective_run (create_project project_name project_type) st) as Hrun.
    rewrite Hres in Hrun.
    apply create_project_created in Hrun
      as (st1 & st3 & st4 & _ & H1 & H3 & H4 & Hq & _ & _); [| by eauto].
    pose proof (preserves_run quiet _ _ _ _ (quiet_mkdir_parents _) H1) as (R1 & _ & C1 & _).
    pose proof (preserves_run quiet _ _ _ _ (quiet_mkdir _) H3) as (R3 & _ & C3 & _).
    assert (now (os st3) = now (os st)) as Hnow by (etrans; [exact C3 | exact C1]).
    rewrite Hnow in H4.
    eapply written_in_place_intro; [| exact H4 | apply Hq].
    etrans; [exact R1 |]. etrans; [| exact R3]. apply replays_select.
  - intros p g Hp Hres. unfold result in Hres.
    pose proof (save_generation_metadata_run st p g Hp) as Hrun. cbv zeta in Hrun.
    destruct (if Fs.exists_ _ _ _ then _ else _) as [meta|e];
      [| by rewrite Hrun in Hres].
    destruct (set_item _ _ _) as [e|meta1]; [by rewrite Hrun in Hres |].
    destruct (append_generation _ _) as [e|meta2]; [by rewrite Hrun in Hres |].
    exists meta2.
    eapply (written_in_place_intro _ _ _ st st (after (save_generation_metadata g) st)).
    + reflexivity.
    + rewrite Hrun in Hres. unfold after. rewrite Hrun.
      destruct (dump_json _ _ _) as [[[]|] s]; simpl in *; [done | done].
    + reflexivity.
Qed.

(** C2 fails as stated: while "demo" is created in the example world, the
    files can be seen with a descriptor that is neither the old one (there
    was none) nor the new one, but an empty file. *)
Lemma descriptor_write_not_atomic :
  ¬ atomic_at ["home"; "workspace"; "demo"; "meta.json"]
      (create_project "demo" "HTML/Bootstrap") Example.s0.
Proof.
  intros Hat.
  assert (Some (File (Text ""))
          ∈ (λ f : fsmap, f !! ["home"; "workspace"; "demo"; "meta.json"])
            <$> observable (create_project "demo" "HTML/Bootstrap") Example.s0) as Hin.
  { vm_compute. do 2 apply list_elem_of_further. apply list_elem_of_here. }
  apply list_elem_of_fmap in Hin as (f & Hf & Hin).
  apply Hat in Hin. rewrite <- Hf in Hin. vm_compute in Hin.
  destruct Hin as [[=]|[=]].
Qed.

Lemma descriptor_written_in_place_witness :
  written_in_place (workspace_dir // Py.strip "demo" // "meta.json")
    (fresh_meta (Py.strip "demo") "HTML/Bootstrap" (now (os Example.s0)))
    (create_project "demo" "HTML/Bootstrap") Example.s0
  ∧ ∃ meta, written_in_place (Example.demo // "meta.json") meta
              (save_generation_metadata (Example.sample_record 1)) Example.s1.
Proof.
  split.
  - eapply (proj1 (descriptor_written_in_place Example.s0)). vm_compute. reflexivity.
  - apply (proj2 (descriptor_written_in_place Example.s1)); vm_compute; reflexivity.
Defined.

Lemma generation_history_capped_witness :
  (length (persisted_history Example.demo
             (appends (replicate 60 (Example.sample_record 0) ++ [Example.sample_record 1])
                      Example.s1)) ≤ 50)%nat.
Proof.
  apply (proj1 (generation_history_capped Example.s1 Example.demo eq_refl)).
Defined.

(** C10: a successful [create_project] leaves the new project selected.
    Whenever the call answers "Created ...", [self.current_project] is the
    path of the project just made, the workspace directory joined with the
    stripped name; that path leads to a directory; and the answer names that
    type and that name. *)
Theorem create_selects_project (st : state) (project_name project_type : string)
    t n tree term history file :
  result (create_project project_name project_type) st
  = Ret (Created t n, tree, term, history, file) →
  the_project (after (create_project project_name project_type) st)
  = Some (workspace_dir // Py.strip project_name)
  ∧ is_directory (workspace_dir // Py.strip project_name)
      (after (create_project project_name project_type) st)
  ∧ t = project_type ∧ n = Py.strip project_name.
Proof.
  intros Hres.
  pose proof (surjective_run (create_project project_name project_type) st) as Hrun.
  rewrite Hres in Hrun.
  apply create_project_created in Hrun
    as (st1 & st3 & st4 & _ & H1 & H3 & H4 & Hq & Hd & Hv); [| by eauto].
  simpl in Hv. injection Hv as -> ->.
  pose proof (dirs_stay_write_text (workspace_dir // Py.strip project_name // "meta.json")
                (Json (fresh_meta (Py.strip project_name) project_type (now (os st3)))) st3)
    as Hd4.
  unfold after in Hd4.
  change (write_text ?p (Json ?j)) with (dump_json p j) in Hd4. rewrite H4 in Hd4.
  apply dump_json_ret_inv in H4 as (l & _ & _ & ->).
  split_and!; [| | done | done].
  - destruct Hq as (_ & -> & _).
    pose proof (preserves_run quiet _ _ _ _ (quiet_mkdir _) H3) as (_ & P3 & _).
    change (the_project st3 = Some (workspace_dir // Py.strip project_name)).
    by rewrite P3.
  - apply (is_directory_dirs_stay _ _ _ Hd), (is_directory_dirs_stay _ _ _ Hd4).
    refine (is_directory_dirs_stay _ _ _
              (preserves_run dirs_stay _ _ _ _ _ H3) _).
    { apply preserves_mkdir; [apply _ | apply dirs_stay_mkdir_ev]. }
    apply (is_directory_dirs_stay _ st1); [apply dirs_stay_select |].
    by apply mkdir_parents_directory in H1.
Qed.

Lemma create_selects_project_witness :
  the_project (after (create_project " demo " "Vue") Example.s0)
  = Some (workspace_dir // "demo")
  ∧ is_directory (workspace_dir // "demo")
      (after (create_project " demo " "Vue") Example.s0).
Proof.
  destruct (create_selects_project Example.s0 " demo " "Vue" "Vue" "demo"
              (TreeOf (workspace_dir // "demo"))
              (Lines [("12:00:00", LogCreated "demo");
                      ("12:00:00", LogLocation (workspace_dir // "demo"));
                      ("12:00:00", LogScreenshots (workspace_dir // "demo" // "screenshots"))])
              [] "src/App.vue")
    as (Hp & Hd & _); [vm_compute; reflexivity |].
  split; [exact Hp | exact Hd].
Defined.

(** ** Names *)

Lemma lstrip_chars_nil l :
  Py.lstrip_chars l = [] ↔ Forall (λ c, Py.isspace c = true) l.
Proof.
  induction l as [|c l IH]; simpl; [by split |].
  destruct (Py.isspace c) eqn:Hc.
  - rewrite IH. split; [by constructor | by inversion 1].
  - split; [done |]. inversion 1; congruence.
Qed.


Lemma lstrip_chars_head l c l' :
  Py.lstrip_chars l = c :: l' → Py.isspace c = false.
Proof.
  induction l as [|d l IH]; simpl; [done |].
  destruct (Py.isspace d) eqn:Hd; [done |]. by intros [= <- _].
Qed.

Lemma string_of_list_ascii_nil l : string_of_list_ascii l = "" ↔ l = [].
Proof. destruct l; simpl; split; done. Qed.

(** [strip] leaves nothing exactly of the names made of white space. *)
Lemma strip_empty s : Py.strip s = "" ↔ whitespace_only s.
Proof.
  unfold Py.strip, whitespace_only. rewrite string_of_list_ascii_nil.
  set (l := list_ascii_of_string s). split.
  - intros H. apply (f_equal (@rev ascii)) in H. rewrite rev_involutive in H. simpl in H.
    apply lstrip_chars_nil in H. apply lstrip_chars_nil.
    destruct (Py.lstrip_chars l) as [|c l'] eqn:Hl; [done |].
    apply lstrip_chars_head in Hl.
    apply Forall_rev in H. rewrite rev_involutive in H.
    inversion H; congruence.
  - intros H. apply lstrip_chars_nil in H. by rewrite H.
Qed.

Lemma whitespace_only_empty : whitespace_only "".
Proof. constructor. Qed.

Lemma create_project_blank project_name :
  String.eqb project_name "" || String.eqb (Py.strip project_name) "" = true
  ↔ whitespace_only project_name.
Proof.
  rewrite orb_true_iff, !String.eqb_eq, <- strip_empty. split; [| auto].
  intros [->|H]; [| done]. apply strip_empty, whitespace_only_empty.
Qed.

(** C4, as the code has it: [create_project] turns down exactly the names
    that are empty or made of white space only.  For such a name it answers
    "Please enter a project name" and changes nothing: no directory, no
    descriptor, no scaffold file; for every other name, names with path
    separators or ".." among them, it does not give that answer. *)
Theorem blank_names_rejected (st : state) (project_name project_type : string) :
  (whitespace_only project_name → name_rejected project_name project_type st)
  ∧ (¬ whitespace_only project_name →
     ∀ v, result (create_project project_name project_type) st = Ret v →
          v.1.1.1.1 ≠ EnterName).
Proof.
  pose proof (create_project_blank project_name) as Hb.
  unfold name_rejected, result, after, create_project. split.
  - intros Hw. apply Hb in Hw. by rewrite Hw.
  - intros Hw v.
    destruct (String.eqb project_name "" || String.eqb (Py.strip project_name) "");
      [by destruct Hw; apply Hb |].
    mrun. unfold exists_ at 1. mrun.
    destruct (Fs.exists_ _ _ _).
    + mrun. destruct (get_file_tree st) as [[tree|e] s1]; mrun; [| done].
      unfold get_terminal_output at 1. mrun.
      destruct (get_default_target_file s1) as [[file|e] s2]; mrun; [| done].
      simpl. by intros [= <-].
    + rewrite run_try_except.
      match goal with
      | |- context [match ?m st with _ => _ end] =>
          destruct (m st) as [[v'|e] s1] eqn:Hbody
      end.
      * repeat (apply bind_ret_inv in Hbody as (? & ? & _ & Hbody)).
        revert Hbody. mrun. simpl. by intros [= <- _] [= <-].
      * mrun. simpl. by intros [= <-].
Qed.

(** C4 fails as stated for names with path-traversal characters: in the
    example world the name "../evil" is taken, and a project directory is
    made next to the workspace directory, outside of it. *)
Lemma traversal_name_accepted :
  path_traversal "../evil" = true
  ∧ ¬ name_rejected "../evil" "HTML/Bootstrap" Example.s0
  ∧ the_fs Example.s0 !! ["home"; "evil"] = None
  ∧ the_fs (after (create_project "../evil" "HTML/Bootstrap") Example.s0)
      !! ["home"; "evil"] = Some Dir.
Proof.
  split_and!; [reflexivity | | vm_compute; reflexivity..].
  intros [H _]. vm_compute in H. discriminate.
Qed.

Lemma blank_names_rejected_witness :
  name_rejected "  " "React" Example.s0.
Proof.
  apply (proj1 (blank_names_rejected Example.s0 "  " "React")).
  repeat constructor.
Defined.

(** ** Existing names *)

Lemma keeps_fs_terminal h : preserves (keeps the_fs) (set_terminal_history h).
Proof. intros st. reflexivity. Qed.

Lemma keeps_trace_terminal h : preserves (keeps the_trace) (set_terminal_history h).
Proof. intros st. reflexivity. Qed.

(** On a name whose path exists, [create_project] writes nothing, makes no
    system call, and, when it answers at all, answers "already exists". *)
Lemma create_project_existing st project_name project_type :
  ¬ whitespace_only project_name →
  Fs.exists_ (the_fs st) (cwd (os st)) (workspace_dir // Py.strip project_name) = true →
  the_fs (after (create_project project_name project_type) st) = the_fs st
  ∧ events_of (create_project project_name project_type) st = []
  ∧ ∀ v, result (create_project project_name project_type) st = Ret v →
         v.1.1.1.1 = AlreadyExists (Py.strip project_name).
Proof.
  intros Hw He. pose proof (create_project_blank project_name) as Hb.
  unfold events_of, result, after, create_project.
  destruct (String.eqb project_name "" || String.eqb (Py.strip project_name) "");
    [by destruct Hw; apply Hb |].
  mrun. unfold exists_. mrun. fold (the_fs st). rewrite He. mrun.
  pose proof (preserves_get_file_tree (keeps the_fs) st) as F1.
  pose proof (preserves_get_file_tree (keeps the_trace) st) as T1.
  unfold keeps, after in F1, T1.
  destruct (get_file_tree st) as [[tree|e] s1]; mrun; simpl in *.
  - unfold get_terminal_output. mrun.
    pose proof (preserves_get_default_target_file (keeps the_fs) s1) as F2.
    pose proof (preserves_get_default_target_file (keeps the_trace) s1) as T2.
    unfold keeps, after in F2, T2.
    destruct (get_default_target_file s1) as [[file|e] s2]; mrun; simpl in *.
    + split_and!; [congruence | | by intros v [= <-]].
      fold (the_trace s2) (the_trace st). rewrite T2, T1. apply drop_all.
    + split_and!; [congruence | | done].
      fold (the_trace s2) (the_trace st). rewrite T2, T1. apply drop_all.
  - split_and!; [congruence | | done].
    fold (the_trace s1) (the_trace st). rewrite T1. apply drop_all.
Qed.

(** C7 at a failing input.  On a name whose path exists [create_project]
    never writes and never answers anything but "already exists"; but it
    need not answer.  Here the descriptor of the open project "demo" has been
    overwritten with text that is not JSON (by a generation into
    "meta.json"); creating "demo" again finds the directory, and then
    [get_default_target_file] raises while the answer is being put
    together: the call ends in [JSONDecodeError], not in "already exists".
    The files are as before. *)
Theorem create_existing_raises_on_corrupt_descriptor :
  (∀ st project_name project_type,
      ¬ whitespace_only project_name →
      Fs.exists_ (the_fs st) (cwd (os st)) (workspace_dir // Py.strip project_name) = true →
      the_fs (after (create_project project_name project_type) st) = the_fs st
      ∧ events_of (create_project project_name project_type) st = []
      ∧ ∀ v, result (create_project project_name project_type) st = Ret v →
             v.1.1.1.1 = AlreadyExists (Py.strip project_name))
  ∧ Fs.exists_ (the_fs Example.s_corrupt) (cwd (os Example.s_corrupt)) Example.demo = true
  ∧ result (create_project "demo" "React") Example.s_corrupt = Raise JSONDecodeError.
Proof.
  split_and!; [| vm_compute; reflexivity..].
  intros st project_name project_type. apply create_project_existing.
Qed.

(** ** Unreadable descriptors *)

Lemma returns_ret {A} (a : A) st : returns (ret a) st.
Proof. by exists a. Qed.

Lemma returns_gets {A} (f : state → A) st : returns (gets f) st.
Proof. by eexists. Qed.

Lemma returns_bind {A B} (m : M A) (k : A → M B) st :
  returns m st → (∀ a s, returns (k a) s) → returns (x <- m ;; k x) st.
Proof.
  intros [a Ha] Hk. unfold returns, result in *. rewrite run_bind.
  destruct (m st) as [o s]. simpl in Ha. subst o. apply Hk.
Qed.

Lemma returns_try_except {A} (m : M A) (h : exn → M A) st :
  (∀ e s, returns (h e) s) → returns (try_except m h) st.
Proof.
  intros Hh. unfold returns, result in *. rewrite run_try_except.
  destruct (m st) as [[a|e] s]; [by eexists | apply Hh].
Qed.

Lemma add_terminal_output_returns text st : returns (add_terminal_output text) st.
Proof. by eexists. Qed.

Lemma project_entry_returns item st : returns (project_entry item) st.
Proof.
  unfold project_entry. apply returns_bind; [apply returns_gets | intros d s].
  destruct (_ && _); [| apply returns_ret].
  apply returns_bind; [apply returns_gets | intros e s'].
  destruct e; [| apply returns_ret].
  apply returns_try_except. intros. apply returns_ret.
Qed.

Lemma for_each_returns {A B} (f : A → M (list B)) l st :
  (∀ x s, returns (f x) s) → returns (for_each f l) st.
Proof.
  intros Hf. revert st. induction l as [|x l IH]; intros st; [apply returns_ret |].
  simpl. apply returns_bind; [apply Hf | intros r s].
  apply returns_bind; [apply IH | intros rs s']. apply returns_ret.
Qed.

(** The listing answers whenever the workspace directory is there, whatever
    the descriptors hold. *)
Lemma get_workspace_projects_returns st :
  Fs.is_dir (the_fs st) (cwd (os st)) workspace_dir = true →
  returns get_workspace_projects st.
Proof.
  intros Hd. unfold get_workspace_projects. apply returns_bind.
  - unfold returns, result, iterdir, resolve. mrun.
    unfold Fs.is_dir, Fs.stat in Hd. fold (the_fs st).
    destruct (Fs.resolve _ _ _) as [e|l]; [done |]. mrun. fold (the_fs st).
    destruct (Fs.node_at (the_fs st) l) as [[|c]|]; try done. mrun. by eexists.
  - intros items s. apply returns_bind; [| intros; apply returns_ret].
    apply for_each_returns. intros. apply project_entry_returns.
Qed.

(** A project whose descriptor cannot be read is listed with "Unknown"
    fields. *)
Lemma project_entry_unreadable item st e :
  Fs.is_dir (the_fs st) (cwd (os st)) item = true →
  Py.startswith "." (name item) = false →
  Fs.exists_ (the_fs st) (cwd (os st)) (item // "meta.json") = true →
  read_json (the_fs st) (cwd (os st)) (item // "meta.json") = Raise e →
  project_entry item st = (Ret [unknown_summary item], st).
Proof.
  intros Hd Hn He Hr. unfold project_entry, is_dir, exists_. mrun.
  fold (the_fs st). rewrite Hd, Hn. change (true && negb false) with true.
  cbv iota. mrun. fold (the_fs st). rewrite He. mrun.
  rewrite load_json_run, Hr. by mrun.
Qed.

Lemma load_generation_history_returns st : returns load_generation_history st.
Proof.
  unfold load_generation_history. apply returns_bind; [apply returns_gets | intros cp s].
  destruct cp; [| apply returns_ret].
  apply returns_bind; [apply returns_gets | intros e s'].
  destruct e; [| apply returns_ret].
  apply returns_try_except. intros.
  apply returns_bind; [apply add_terminal_output_returns | intros; apply returns_ret].
Qed.

(** [load_project] on a project whose descriptor is there but cannot be
    read: the error of the read comes out of the call. *)
Lemma load_project_unreadable st project_name e :
  project_name ≠ "" →
  Fs.exists_ (the_fs st) (cwd (os st)) (workspace_dir // project_name // "meta.json") = true →
  read_json (the_fs st) (cwd (os st)) (workspace_dir // project_name // "meta.json")
  = Raise e →
  Fs.exists_ (the_fs st) (cwd (os st)) (workspace_dir // project_name) = true →
  result (load_project project_name) st = Raise e.
Proof.
  intros Hne He Hr Hp. unfold result, load_project.
  apply String.eqb_neq in Hne. rewrite Hne. mrun. unfold exists_ at 1. mrun.
  fold (the_fs st). rewrite Hp. change (negb true) with false. cbv iota.
  unfold set_current_project, add_terminal_output, set_terminal_history. mrun.
  match goal with |- context [load_generation_history ?s] => remember s as s1 eqn:E1 end.
  assert (the_fs s1 = the_fs st ∧ cwd (os s1) = cwd (os st)
          ∧ the_project s1 = Some (workspace_dir // project_name)) as (F1 & C1 & P1)
    by (by rewrite E1).
  clear E1.
  destruct (load_generation_history_returns s1) as [h Hh].
  pose proof (preserves_load_generation_history (keeps the_fs) keeps_fs_terminal s1) as F2.
  pose proof (preserves_load_generation_history (keeps (λ st, cwd (os st)))
                (λ h st, eq_refl) s1) as C2.
  pose proof (preserves_load_generation_history (keeps the_project)
                (λ h st, eq_refl) s1) as P2.
  unfold keeps, result, after in *.
  destruct (load_generation_history s1) as [o s2]. simpl in *. subst o. mrun.
  unfold get_default_target_file, exists_. mrun.
  unfold the_project in *. rewrite P2, P1. mrun.
  fold (the_fs s2). rewrite F2, F1, C2, C1, He. mrun.
  rewrite load_json_run. fold (the_fs s2). rewrite F2, F1, C2, C1, Hr. by mrun.
Qed.

(** C3 at a failing input.  The listing answers whatever the descriptors
    hold, with "Unknown" fields for a project whose descriptor cannot be
    read; [load_project] does not: when the descriptor of the project is
    there but cannot be read, the error of the read comes out of the call,
    raised by [get_default_target_file].  In the example state the listing
    shows "demo" with "Unknown" fields and [load_project] ends in
    [JSONDecodeError], after the project was selected. *)
Theorem load_raises_on_corrupt_descriptor :
  (∀ st, Fs.is_dir (the_fs st) (cwd (os st)) workspace_dir = true →
         returns get_workspace_projects st)
  ∧ (∀ st project_name e,
        project_name ≠ "" →
        Fs.exists_ (the_fs st) (cwd (os st)) (workspace_dir // project_name // "meta.json")
        = true →
        read_json (the_fs st) (cwd (os st)) (workspace_dir // project_name // "meta.json")
        = Raise e →
        Fs.exists_ (the_fs st) (cwd (os st)) (workspace_dir // project_name) = true →
        result (load_project project_name) st = Raise e)
  ∧ result get_workspace_projects Example.s_corrupt
    = Ret [Summary "demo" unknown unknown unknown]
  ∧ result (load_project "demo") Example.s_corrupt = Raise JSONDecodeError
  ∧ the_project (after (load_project "demo") Example.s_corrupt) = Some Example.demo.
Proof.
  split_and!; [| | vm_compute; reflexivity..].
  - apply get_workspace_projects_returns.
  - apply load_project_unreadable.
Qed.

(** ** Generation identifiers *)

Lemma last_n_snoc {A} (n : nat) (l : list A) (x : A) :
  (0 < n)%nat → Py.last_n n (l ++ [x]) = Py.last_n (n - 1) l ++ [x].
Proof.
  intros Hn. unfold Py.last_n. rewrite length_app. simpl.
  replace (length l + 1 - n)%nat with (length l - (n - 1))%nat by lia.
  rewrite drop_app_le by lia. done.
Qed.

Lemma append_generation_inr meta g meta2 :
  append_generation meta g = inr meta2 →
  ∃ gens, history_in meta2 = Some (gens ++ [g]).
Proof.
  destruct meta as [| | | | |kv]; try done. simpl.
  destruct (Dict.lookup "generations" kv) as [[| | | |gens|]|]; try done.
  intros [= <-]. exists (Py.last_n 49 gens). simpl.
  rewrite dict_lookup_set_eq. by rewrite last_n_snoc by lia.
Qed.

(** A record that was saved is the last one of the stored history. *)
Lemma save_generation_metadata_last st p g :
  the_project st = Some p →
  result (save_generation_metadata g) st = Ret tt →
  ∃ gens, stored_history p (after (save_generation_metadata g) st) = Some (gens ++ [g]).
Proof.
  intros Hp Hres. unfold result in Hres. unfold after.
  pose proof (save_generation_metadata_run st p g Hp) as Hrun. cbv zeta in Hrun.
  rewrite Hrun in Hres. rewrite Hrun. clear Hrun.
  destruct (if Fs.exists_ _ _ _ then _ else _) as [meta|e]; [| done].
  destruct (set_item _ _ _) as [e|meta1]; [done |].
  destruct (append_generation _ _) as [e|meta2] eqn:Ha; [done |].
  destruct (dump_json _ _ _) as [[[]|e] s] eqn:Hd; [| done].
  apply dump_json_ret_inv in Hd as (l & Hl & Hn & ->).
  apply append_generation_inr in Ha as [gens Hg]. exists gens.
  rewrite stored_history_eq. simpl. unfold the_fs. simpl.
  rewrite (read_json_after_dump _ _ _ _ l); done.
Qed.

Lemma quiet_add_terminal_output text : preserves quiet (add_terminal_output text).
Proof. apply preserves_add_terminal_output; [apply _ | apply quiet_terminal]. Qed.

Lemma quiet_load_json p : preserves quiet (load_json p).
Proof. apply preserves_load_json. apply _. Qed.

Lemma quiet_save_screenshot image target_file :
  preserves quiet (save_screenshot image target_file).
Proof.
  apply preserves_save_screenshot;
    [apply _ | apply quiet_terminal | apply quiet_mkdir_ev | apply quiet_write_text].
Qed.

#[global] Hint Resolve quiet_add_terminal_output quiet_load_json
  quiet_save_screenshot quiet_mkdir_parents quiet_mkdir : preserves.

Lemma quiet_of {A} (m : M A) st o st' :
  preserves quiet m → m st = (o, st') → quiet st st'.
Proof. apply preserves_run. Qed.

Lemma stored_history_same_files p st st' :
  the_fs st' = the_fs st → cwd (os st') = cwd (os st) →
  stored_history p st' = stored_history p st.
Proof. intros Hf Hc. by rewrite !stored_history_eq, Hf, Hc. Qed.

Lemma keeps_cwd_terminal h : preserves (keeps (λ st, cwd (os st))) (set_terminal_history h).
Proof. intros st. reflexivity. Qed.

(** The steps of a successful [generate_code]: the record is saved with the
    clock of the call, and nothing is written after that. *)
Lemma generate_code_generated image target_file custom_prompt save_shot st v st' :
  generate_code image target_file custom_prompt save_shot st = (Ret v, st') →
  v.1.1.1 = Generated →
  ∃ p sk shot,
    the_project st = Some p
    ∧ the_project sk = Some p
    ∧ result (save_generation_metadata
                (generation_record (now (os st)) target_file custom_prompt shot)) sk
      = Ret tt
    ∧ stored_history p st'
      = stored_history p
          (after (save_generation_metadata
                    (generation_record (now (os st)) target_file custom_prompt shot)) sk).
Proof.
  intros H Hv. unfold generate_code in H. revert H. mrun.
  destruct (negb (model (self st))).
  { unfold get_terminal_output. mrun. intros [= <- <-]. done. }
  destruct image as [img|].
  2:{ unfold get_terminal_output. mrun. intros [= <- <-]. done. }
  mrun. destruct (current_project (self st)) as [p|] eqn:Hp.
  2:{ unfold get_terminal_output. mrun. intros [= <- <-]. done. }
  intros H. apply try_except_inv in H as [H|(e & s & _ & H)]; first last.
  { revert H. unfold get_terminal_output. mrun. intros [= <- <-]. done. }
  apply bind_ret_inv in H as ([] & s1 & H1 & H).
  apply bind_ret_inv in H as (e & s2 & H2 & H).
  apply bind_ret_inv in H as (ty & s3 & H3 & H).
  apply bind_ret_inv in H as ([] & s4 & H4 & H).
  apply bind_ret_inv in H as (shot & s5 & H5 & H).
  apply bind_ret_inv in H as (code & s6 & H6 & H).
  apply bind_ret_inv in H as ([] & s7 & H7 & H).
  apply bind_ret_inv in H as ([] & s8 & H8 & H).
  apply bind_ret_inv in H as ([] & s9 & H9 & H).
  apply bind_ret_inv in H as (t & s10 & H10 & H).
  apply bind_ret_inv in H as ([] & s11 & H11 & H).
  apply bind_ret_inv in H as (history & s12 & H12 & H).
  apply bind_ret_inv in H as (term & s13 & H13 & H).
  revert H. mrun. intros [= <- <-].
  assert (quiet st s9) as Hq.
  { etrans; [eapply (quiet_of _ _ _ _ _ H1) |].
    etrans; [eapply (quiet_of _ _ _ _ _ H2) |].
    etrans; [eapply (quiet_of _ _ _ _ _ H3) |].
    etrans; [eapply (quiet_of _ _ _ _ _ H4) |].
    etrans; [eapply (quiet_of _ _ _ _ _ H5) |].
    etrans; [eapply (quiet_of _ _ _ _ _ H6) |].
    etrans; [eapply (quiet_of _ _ _ _ _ H7) |].
    etrans; [eapply (quiet_of _ _ _ _ _ H8) |].
    eapply (quiet_of _ _ _ _ _ H9). }
  revert H10. mrun. intros [= <- <-].
  destruct Hq as (_ & Hproj & Hclock & _). unfold the_clock in Hclock.
  rewrite Hclock in H11.
  exists p, s9, shot. split_and!.
  - done.
  - by rewrite Hproj.
  - unfold result. by rewrite H11.
  - unfold after. rewrite H11. simpl.
    revert H13. unfold get_terminal_output. mrun. intros [= _ <-].
    apply stored_history_same_files.
    + exact (preserves_run (keeps the_fs) _ _ _ _
               (preserves_load_generation_history _ keeps_fs_terminal) H12).
    + exact (preserves_run (keeps (λ st, cwd (os st))) _ _ _ _
               (preserves_load_generation_history _ keeps_cwd_terminal) H12).
  Unshelve.
  all: unfold exists_; preserves_auto.
Qed.

(** C9, as the code has it: a generation record carries the identifier
    "gen_" followed by the clock in whole milliseconds, read when the code
    is generated.  After a successful [generate_code] the last record of the
    stored history has that identifier; and two identifiers are equal
    exactly when the two clock readings are the same millisecond, so the
    later record's identifier differs from, and counts more than, the
    earlier one's only when the clock has moved on in between. *)
Theorem generation_id_is_clock (st : state) :
  (∀ image target_file custom_prompt save_shot code term history,
      result (generate_code image target_file custom_prompt save_shot) st
      = Ret (Generated, code, term, history) →
      ∃ p gens g,
        the_project st = Some p
        ∧ stored_history p (after (generate_code image target_file custom_prompt save_shot) st)
          = Some (gens ++ [g])
        ∧ id_of g = Some (JStr (generation_id (now (os st)))))
  ∧ (∀ t1 t2, generation_id t1 = generation_id t2 ↔ epoch_ms t1 = epoch_ms t2).
Proof.
  split.
  - intros image target_file custom_prompt save_shot code term history Hres.
    pose proof (surjective_run (generate_code image target_file custom_prompt save_shot) st)
      as Hrun.
    rewrite Hres in Hrun.
    apply generate_code_generated in Hrun as (p & sk & shot & Hp & Hk & Hsave & Hst);
      [| done].
    destruct (save_generation_metadata_last _ _ _ Hk Hsave) as [gens Hg].
    exists p, gens, (generation_record (now (os st)) target_file custom_prompt shot).
    split_and!; [done | by rewrite Hst | done].
  - intros t1 t2. unfold generation_id. split.
    + intros H. simpl in H. injection H as H. by apply pretty_Z_inj in H.
    + by intros ->.
Qed.

(** C9 fails as stated: two generations into "demo" within the same
    millisecond of the clock are stored with one and the same identifier. *)
Lemma same_millisecond_same_identifier :
  ∃ g1 g2,
    stored_history Example.demo Example.s_twice = Some [g1; g2]
    ∧ id_of g1 = Some (JStr "gen_1735732800000")
    ∧ id_of g2 = Some (JStr "gen_1735732800000").
Proof.
  eexists _, _. split_and!; [vm_compute; reflexivity | reflexivity | reflexivity].
Qed.

Lemma generation_id_is_clock_witness :
  ∃ p gens g,
    the_project Example.s_twice = Some p
    ∧ stored_history p
        (after (generate_code (Some 7%nat) "index.html" "third" false) Example.s_twice)
      = Some (gens ++ [g])
    ∧ id_of g = Some (JStr (generation_id (now (os Example.s_twice)))).
Proof.
  eapply (proj1 (generation_id_is_clock Example.s_twice)). vm_compute. reflexivity.
Defined.

(** ** Outcomes of computations *)

Lemma triple_ret {A} (a : A) (Q : outcome A → state → Prop) :
  triple (Q (Ret a)) (ret a) Q.
Proof. intros st H. exact H. Qed.

Lemma triple_raise {A} (e : exn) (Q : outcome A → state → Prop) :
  triple (Q (Raise e)) (raise e) Q.
Proof. intros st H. exact H. Qed.

Lemma triple_conseq {A} (P P' : state → Prop) (m : M A) (Q Q' : outcome A → state → Prop) :
  triple P' m Q' → (∀ st, P st → P' st) → (∀ o st, Q' o st → Q o st) → triple P m Q.
Proof. intros Hm HP HQ st H. apply HQ, Hm, HP, H. Qed.

Lemma triple_bind {A B} (P : state → Prop) (m : M A) (k : A → M B)
    (Q1 : outcome A → state → Prop) (Q : outcome B → state → Prop) :
  triple P m Q1 →
  (∀ a, triple (Q1 (Ret a)) (k a) Q) →
  (∀ e st, Q1 (Raise e) st → Q (Raise e) st) →
  triple P (x <- m ;; k x) Q.
Proof.
  intros Hm Hk He st HP. specialize (Hm st HP).
  unfold result, after in *. rewrite run_bind.
  destruct (m st) as [[a|e] st1]; simpl in *.
  - apply (Hk a st1 Hm).
  - by apply He.
Qed.

Lemma triple_try_except {A} (P : state → Prop) (m : M A) (h : exn → M A)
    (Q1 Q : outcome A → state → Prop) :
  triple P m Q1 →
  (∀ a st, Q1 (Ret a) st → Q (Ret a) st) →
  (∀ e, triple (Q1 (Raise e)) (h e) Q) →
  triple P (try_except m h) Q.
Proof.
  intros Hm Hr Hh st HP. specialize (Hm st HP).
  unfold result, after in *. rewrite run_try_except.
  destruct (m st) as [[a|e] st1]; simpl in *.
  - by apply Hr.
  - apply (Hh e st1 Hm).
Qed.

(** A computation that preserves [R] carries over what is stable under [R]. *)
Lemma triple_preserves {A} (R : state → state → Prop) (P : state → Prop) (m : M A) :
  preserves R m →
  (∀ st st', P st → R st st' → P st') →
  triple P m (λ _, P).
Proof. intros Hm Hs st HP. eapply Hs; [exact HP | apply Hm]. Qed.

Lemma triple_gets {A} (f : state → A) (P : state → Prop) :
  triple P (gets f) (λ o st, P st ∧ o = Ret (f st)).
Proof. intros st HP. by split. Qed.

(** ** The dev server supervisor *)

Lemma is_alive_app_l ps x pid :
  (pid < length ps)%nat → is_alive (ps ++ [x]) pid = is_alive ps pid.
Proof. intros H. unfold is_alive. by rewrite lookup_app_l. Qed.

Lemma is_alive_ge ps pid : (length ps ≤ pid)%nat → is_alive ps pid = false.
Proof. intros H. unfold is_alive. by rewrite lookup_ge_None_2. Qed.

Lemma is_alive_exited ps pid pid' :
  is_alive (alter exited pid ps) pid' = if decide (pid = pid') then false else is_alive ps pid'.
Proof.
  unfold is_alive. destruct (decide (pid = pid')) as [->|Hne].
  - rewrite list_lookup_alter_eq. by destruct (ps !! pid').
  - by rewrite list_lookup_alter_ne.
Qed.

Lemma idle_supervised st : idle st → supervised st.
Proof.
  intros Hi. split.
  - intros pid Ha. by rewrite Hi in Ha.
  - intros pid p Hd Hp Ha. specialize (Hi pid). unfold is_alive in Hi.
    rewrite Hp in Hi. congruence.
Qed.

Lemma supervised_not_running_idle st : supervised st → running st = false → idle st.
Proof.
  intros [H1 _] Hr pid. destruct (is_alive (procs (os st)) pid) eqn:Ha; [| done].
  unfold running in Hr. by rewrite (H1 pid Ha), Ha in Hr.
Qed.

Lemma supervised_same st st' :
  supervisor st' = supervisor st →
  (is_Some (the_project st) → is_Some (the_project st')) →
  supervised st → supervised st'.
Proof.
  unfold supervisor, supervised. intros [= Hp Hd Hv] Hproj [H1 H2].
  rewrite Hp, Hd, Hv. split; [done |].
  intros pid p Hdev Hlook Ha. destruct (H2 pid p Hdev Hlook Ha) as (? & ? & ?). auto.
Qed.

Lemma idle_same st st' : procs (os st') = procs (os st) → idle st → idle st'.
Proof. unfold idle. by intros ->. Qed.

Lemma quiet_npm_install p : preserves quiet (npm_install p).
Proof. unfold npm_install. preserves_auto. Qed.

Lemma probing_quiet st p s s' : probing st p s → quiet s s' → probing st p s'.
Proof.
  intros (Hp & Hd & Hproj & Hport) (_ & Hproj' & _ & [= Hp' Hd' Hport']).
  unfold probing. rewrite Hp', Hd', Hproj', Hport'. done.
Qed.

(** A quiet step in front of a computation that keeps probing. *)
Lemma triple_probing_bind {A B} st p (m : M A) (k : A → M B) Q :
  preserves quiet m →
  (∀ a, triple (probing st p) (k a) Q) →
  (∀ e s, probing st p s → Q (Raise e) s) →
  triple (probing st p) (x <- m ;; k x) Q.
Proof.
  intros Hm Hk He.
  apply (triple_bind _ _ _ (λ _, probing st p)); [| exact Hk | exact He].
  eapply triple_preserves; [exact Hm |]. intros s s'. apply probing_quiet.
Qed.

Lemma launch_outcome st p port c :
  port_of c = port → first_free_port st = Some port →
  triple (probing st p) (launch c p)
    (λ o s, match o with
            | Ret v => v = (Starting port, Some port) ∧ launched st p port s
            | Raise _ => probing st p s
            end).
Proof.
  intros Hc Hf s (Hp & Hd & Hproj & Hport).
  unfold result, after, launch, popen. mrun.
  destruct (Fs.stat _ _ _) as [e|[|c']]; mrun; simpl; [by repeat split | | by repeat split].
  destruct (can_spawn (os s)); mrun; simpl; [| by repeat split].
  unfold set_dev_server_process, add_terminal_output, set_terminal_history. mrun. simpl.
  rewrite Hc. split; [done |]. exists c.
  unfold the_project, on_self, on_os, record in *. simpl. rewrite Hp, Hport.
  by split_and!.
Qed.

Lemma quiet_exists_ p : preserves quiet (exists_ p).
Proof. apply preserves_gets. Qed.

#[global] Hint Resolve quiet_exists_ quiet_npm_install : preserves.

(** [start_dev_server] after the probe, lines 796-843. *)
Lemma start_after_probe st p :
  triple (probing st p)
    (match first_free_port st with
     | None => ret (NoAvailablePorts, None)
     | Some port =>
         if port =? 0 then ret (NoAvailablePorts, None)
         else
           node <- exists_ (p // "package.json") ;;
           if node : bool then
             have_modules <- exists_ (p // "node_modules") ;;
             failed <- (if have_modules : bool then ret None
                        else add_terminal_output LogInstalling ;; npm_install p) ;;
             match failed with
             | Some stderr =>
                 add_terminal_output (LogInstallFailed stderr) ;;
                 ret (InstallDepsFailed, None)
             | None => launch (NpmRunDev port) p
             end
           else
             add_terminal_output LogHttpServer ;;
             launch (HttpServer port) p
     end)
    (λ o s, match o with
            | Ret v => start_outcome st p (Ret v) s
            | Raise _ => probing st p s ∧ first_free_port st ≠ None
            end).
Proof.
  destruct (first_free_port st) as [port|] eqn:Hf.
  2:{ intros s Hs. left. split_and!; [done | by left | done]. }
  destruct (port =? 0).
  { intros s Hs. left. split_and!; [done | by left | by rewrite Hf]. }
  assert (∀ c, port_of c = port →
            triple (probing st p) (launch c p)
              (λ o s, match o with
                      | Ret v => start_outcome st p (Ret v) s
                      | Raise _ => probing st p s ∧ Some port ≠ None
                      end)) as Hlaunch.
  { intros c Hc. eapply triple_conseq; [apply (launch_outcome st p port c Hc Hf) | done |].
    intros [v|e] s; [| done]. intros [-> Hl]. right. exists port. by rewrite Hf. }
  apply triple_probing_bind; [auto with preserves | | done].
  intros [|].
  - apply triple_probing_bind; [auto with preserves | | done]. intros have_modules.
    apply triple_probing_bind; [destruct have_modules; preserves_auto | | done].
    intros [stderr|].
    + apply triple_probing_bind; [auto with preserves | | done].
      intros _ s Hs. left. split_and!; [done | by right; left | by rewrite Hf].
    + by apply Hlaunch.
  - apply triple_probing_bind; [auto with preserves | | done].
    intros _. by apply Hlaunch.
Qed.

Lemma start_dev_server_outcome st p :
  the_project st = Some p → running st = false →
  start_outcome st p (result start_dev_server st) (after start_dev_server st).
Proof.
  intros Hp Hr. unfold the_project in Hp.
  unfold result, after, start_dev_server, find_available_port, set_preview_port.
  mrun. rewrite Hp. mrun. rewrite Hr. mrun.
  fold (first_free_port st).
  set (s1 := on_self _ st).
  assert (probing st p s1) as Hs1 by (by split_and!).
  pose proof (start_after_probe st p s1 Hs1) as H. unfold result, after in H.
  match goal with
  | H : match (?m s1).1 with _ => _ end |- _ => destruct (m s1) as [[v|e] s2]
  end; simpl in *.
  - exact H.
  - destruct H as [H Hne]. left. split_and!; [done | right; right; by eexists |].
    intros Hnone. by destruct Hne.
Qed.

#[global] Instance sup_step_preorder : PreOrder sup_step.
Proof.
  split; [intros st H; exact H | intros a b c H1 H2 H; exact (H2 (H1 H))].
Qed.

Lemma supervised_quiet st st' : quiet st st' → sup_step st st'.
Proof.
  intros (_ & Hp & _ & Hs) H. revert H. apply supervised_same; [done |]. by rewrite Hp.
Qed.

Lemma sup_step_of_quiet {A} (m : M A) : preserves quiet m → preserves sup_step m.
Proof. intros H st. apply supervised_quiet, H. Qed.

Lemma sup_step_terminal h : preserves sup_step (set_terminal_history h).
Proof. apply sup_step_of_quiet, quiet_terminal. Qed.

Lemma sup_step_mkdir l : preserves sup_step (emit (EvMkdir l)).
Proof. apply sup_step_of_quiet, quiet_mkdir_ev. Qed.

Lemma sup_step_write_text p c : preserves sup_step (write_text p c).
Proof. apply sup_step_of_quiet, quiet_write_text. Qed.

Lemma sup_step_select p : preserves sup_step (set_current_project (Some p)).
Proof. intros st H. revert H. by apply supervised_same. Qed.

(** The port that is picked is the first free one of 3000..3099. *)
Lemma find_seqZ (f : Z → bool) (n : nat) (m x : Z) :
  List.find f (seqZ m (Z.of_nat n)) = Some x →
  m ≤ x < m + Z.of_nat n ∧ f x = true ∧ ∀ q, m ≤ q < x → f q = false.
Proof.
  revert m. induction n as [|n IH]; intros m; [done |].
  rewrite seqZ_cons by lia. simpl.
  replace (Z.pred (Z.of_nat (S n))) with (Z.of_nat n) by lia.
  destruct (f m) eqn:Hm.
  - intros [= <-]. split_and!; [lia | lia | done | lia].
  - intros H. apply IH in H as (Hx & Hf & Hq). split_and!; [lia | lia | done |].
    intros q Hq'. destruct (decide (q = m)) as [->|]; [done |]. apply Hq. lia.
Qed.

Lemma first_free_port_some st port :
  first_free_port st = Some port →
  3000 ≤ port ≤ 3099
  ∧ bindable (busy (os st)) port = true
  ∧ ∀ q, 3000 ≤ q < port → bindable (busy (os st)) q = false.
Proof.
  unfold first_free_port. intros H.
  apply (find_seqZ _ 100) in H as (Hx & Hf & Hq). split_and!; [lia | lia | done | done].
Qed.

Lemma first_free_port_none st :
  (∀ q, 3000 ≤ q ≤ 3099 → bindable (busy (os st)) q = false) →
  first_free_port st = None.
Proof.
  intros H. unfold first_free_port.
  destruct (List.find _ _) as [x|] eqn:Hx; [| done].
  apply (find_seqZ _ 100) in Hx as (Hr & Hf & _). rewrite H in Hf by lia. done.
Qed.

Lemma launched_supervised st p port s :
  idle st → first_free_port st = Some port → launched st p port s → supervised s.
Proof.
  intros Hi Hf (c & Hc & Hp & Hd & Hproj & Hport).
  apply first_free_port_some in Hf as (Hrange & _).
  unfold supervised. rewrite Hp, Hd, Hport, Hproj. split.
  - intros pid Ha. destruct (decide (pid < length (procs (os st)))%nat).
    + rewrite is_alive_app_l, Hi in Ha by done. done.
    + destruct (decide (pid = length (procs (os st)))) as [->|]; [done |].
      rewrite is_alive_ge in Ha; [done |]. rewrite length_app. simpl. lia.
  - intros pid q [= <-]. rewrite lookup_app_r, Nat.sub_diag by done. simpl.
    intros [= <-] _. simpl. rewrite Hc. split_and!; [by eexists | done | lia | lia].
Qed.

Lemma sup_step_start_dev_server : preserves sup_step start_dev_server.
Proof.
  intros st Hs.
  destruct (the_project st) as [p|] eqn:Hp.
  2:{ unfold after, start_dev_server. mrun. unfold the_project in Hp. by rewrite Hp. }
  destruct (running st) eqn:Hr.
  { unfold after, start_dev_server. mrun. unfold the_project in Hp. rewrite Hp. mrun.
    by rewrite Hr. }
  pose proof (supervised_not_running_idle st Hs Hr) as Hi.
  destruct (start_dev_server_outcome st p Hp Hr) as [((Hprocs & _) & _)|(port & Hf & _ & Hl)].
  - apply idle_supervised. by apply (idle_same st).
  - by apply (launched_supervised st p port).
Qed.

(** What [stop_dev_server] does to a running server. *)
Lemma stop_dev_server_running st pid :
  dev_server_process (self st) = Some pid → running st = true →
  stop_dev_server st
  = (Ret Stopped,
     after (set_preview_port None)
       (after (add_terminal_output LogStopped)
          (on_os (record (EvWait pid)) (on_os (record (EvTerminate pid)) st)))).
Proof.
  intros Hd Hr. unfold stop_dev_server, terminate, wait. mrun. rewrite Hr, Hd. mrun.
  unfold after. destruct (add_terminal_output LogStopped _) as [[[]|e] s] eqn:Ht.
  - simpl. unfold set_preview_port. by mrun.
  - revert Ht. unfold add_terminal_output, set_terminal_history. mrun. done.
Qed.

Lemma stop_dev_server_not_running st :
  running st = false → stop_dev_server st = (Ret NoServerRunning, st).
Proof.
  intros Hr. unfold stop_dev_server. mrun. rewrite Hr.
  by destruct (dev_server_process (self st)).
Qed.

Lemma stop_dev_server_idle st : supervised st → idle (after stop_dev_server st).
Proof.
  intros Hs. destruct (running st) eqn:Hr.
  - unfold running in Hr. destruct (dev_server_process (self st)) as [pid|] eqn:Hd; [| done].
    unfold after at 1. rewrite (stop_dev_server_running st pid Hd); [| unfold running; by rewrite Hd].
    intros pid'. simpl. rewrite is_alive_exited. case_decide; [done |].
    destruct (is_alive (procs (os st)) pid') eqn:Ha; [| done].
    destruct Hs as [H1 _]. specialize (H1 pid' Ha). congruence.
  - unfold after. rewrite stop_dev_server_not_running by done.
    by apply supervised_not_running_idle.
Qed.

Lemma sup_step_stop_dev_server : preserves sup_step stop_dev_server.
Proof. intros st Hs. by apply idle_supervised, stop_dev_server_idle. Qed.

Lemma quiet_rmtree p : preserves quiet (rmtree p).
Proof. unfold rmtree. preserves_auto. Qed.

Lemma sup_step_delete_project project_name : preserves sup_step (delete_project project_name).
Proof.
  unfold delete_project. destruct (String.eqb project_name ""); [apply preserves_ret |].
  apply preserves_bind; [apply preserves_gets | intros e].
  destruct (negb e); [apply preserves_ret |].
  apply preserves_try_except; [| intros; apply preserves_ret].
  apply preserves_bind; [apply preserves_gets | intros cp].
  apply preserves_bind; [| intros _].
  - destruct (decide _); [| apply preserves_ret].
    intros st Hs. apply idle_supervised. rewrite after_bind.
    pose proof (stop_dev_server_idle st Hs) as Hi.
    destruct (result stop_dev_server st); [| done].
    revert Hi. by apply idle_same.
  - apply preserves_bind; [apply sup_step_of_quiet, quiet_rmtree | intros _].
    apply preserves_bind; [apply sup_step_of_quiet; auto with preserves | intros _].
    apply preserves_ret.
Qed.

Lemma sup_step_do_call c st : supervised st → supervised (do_call c st).
Proof.
  destruct c; simpl.
  - apply preserves_create_project;
      [apply _ | apply sup_step_terminal | apply sup_step_mkdir | apply sup_step_write_text
      | apply sup_step_select].
  - apply preserves_load_project;
      [apply _ | apply sup_step_terminal | apply sup_step_select].
  - apply sup_step_delete_project.
  - apply preserves_generate_code;
      [apply _ | apply sup_step_terminal | apply sup_step_mkdir | apply sup_step_write_text].
  - apply sup_step_start_dev_server.
  - apply sup_step_stop_dev_server.
  - apply preserves_get_workspace_projects. apply _.
Qed.

Lemma sup_step_do_env e st : supervised st → supervised (do_env e st).
Proof.
  destruct e; simpl; try (apply supervised_same; done).
  - intros [H1 H2]. split; simpl.
    + intros pid' Ha. rewrite is_alive_exited in Ha. case_decide; [done |]. by apply H1.
    + intros pid' p Hd Hl Ha.
      destruct (decide (pid = pid')) as [->|Hne].
      * rewrite list_lookup_alter_eq in Hl. destruct (procs (os st) !! pid'); [| done].
        simpl in Hl. injection Hl as <-. done.
      * rewrite list_lookup_alter_ne in Hl by done. by apply (H2 pid').
  - destruct (String.eqb line ""); [done |].
    apply sup_step_of_quiet. auto with preserves.
Qed.

Lemma supervised_init w st :
  fresh w → init (State w blank) = (Ret tt, st) → supervised st.
Proof.
  intros [Hp _] Hi. apply idle_supervised. intros pid.
  assert (procs (os st) = []) as ->; [| done].
  unfold init in Hi. apply bind_ret_inv in Hi as ([] & s1 & H1 & Hi).
  pose proof (preserves_run quiet _ _ _ _ (quiet_mkdir _) H1) as (_ & _ & _ & [= Hprocs _ _]).
  revert Hi. mrun. intros [= <-]. simpl in *. congruence.
Qed.

(** The supervisor invariant holds throughout a session. *)
Lemma reachable_supervised st : reachable st → supervised st.
Proof.
  intros (w & l & Hw & Hres & ->).
  pose proof (surjective_run init (State w blank)) as Hrun. rewrite Hres in Hrun.
  pose proof (supervised_init w _ Hw Hrun) as H0.
  induction l as [|s l IH] using rev_ind; [done |].
  unfold run in *. rewrite foldl_app. simpl.
  destruct s; [by apply sup_step_do_call | by apply sup_step_do_env].
Qed.

(** The three ways [start_dev_server] goes. *)
Lemma start_dev_server_cases st :
  (the_project st = None ∧ start_dev_server st = (Ret (NoProjectOpen, None), st))
  ∨ (is_Some (the_project st) ∧ running st = true
     ∧ start_dev_server st
       = (Ret (AlreadyRunning (preview_port (self st)), preview_port (self st)), st))
  ∨ (∃ p, the_project st = Some p ∧ running st = false
          ∧ start_outcome st p (result start_dev_server st) (after start_dev_server st)).
Proof.
  destruct (the_project st) as [p|] eqn:Hp.
  - destruct (running st) eqn:Hr.
    + right. left. split_and!; [by eexists | done |].
      unfold start_dev_server. mrun. unfold the_project in Hp. rewrite Hp. mrun.
      by rewrite Hr.
    + right. right. exists p. split_and!; [done | done |].
      by apply start_dev_server_outcome.
  - left. split; [done |]. unfold start_dev_server. mrun.
    unfold the_project in Hp. by rewrite Hp.
Qed.

Lemma running_child st :
  running st = true →
  ∃ pid p, dev_server_process (self st) = Some pid
           ∧ procs (os st) !! pid = Some p ∧ alive p = true.
Proof.
  unfold running, is_alive. destruct (dev_server_process (self st)) as [pid|]; [| done].
  destruct (procs (os st) !! pid) as [p|] eqn:Hl; [| done]. eauto.
Qed.

(** C5: while the dev server of the session is running, every further
    [start_dev_server] answers "already running" with the port the running
    child was started on, and leaves the state as it is: no system call is
    made, no second child is spawned.  And at no point of a session are two
    children alive. *)
Theorem start_is_idempotent (st : state) :
  reachable st →
  (∀ pid1 pid2, is_alive (procs (os st)) pid1 = true →
                is_alive (procs (os st)) pid2 = true → pid1 = pid2)
  ∧ (running st = true →
     ∃ pid p,
       dev_server_process (self st) = Some pid
       ∧ procs (os st) !! pid = Some p
       ∧ result start_dev_server st
         = Ret (AlreadyRunning (Some (port_of (cmd p))), Some (port_of (cmd p)))
       ∧ events_of start_dev_server st = []
       ∧ ∀ n, Nat.iter n (after start_dev_server) st = st).
Proof.
  intros Hreach. pose proof (reachable_supervised st Hreach) as [H1 H2]. split.
  - intros pid1 pid2 Ha1 Ha2. apply H1 in Ha1, Ha2. congruence.
  - intros Hr. destruct (running_child st Hr) as (pid & p & Hd & Hl & Ha).
    destruct (H2 pid p Hd Hl Ha) as (Hproj & Hport & _).
    destruct (start_dev_server_cases st) as [[Hn _]|[(_ & _ & Hs)|(q & _ & Hnr & _)]].
    + rewrite Hn in Hproj. by destruct Hproj.
    + exists pid, p. unfold result, events_of, after. rewrite Hs, Hport. simpl.
      split_and!; [done | done | done | apply drop_all |].
      intros n. induction n as [|n IH]; [done |]. simpl. rewrite IH.
      unfold after. by rewrite Hs.
    + congruence.
Qed.

Lemma reachable_run l st : reachable st → reachable (run l st).
Proof.
  intros (w & l0 & Hw & Hres & ->). exists w, (l0 ++ l). split_and!; [done | done |].
  unfold run. by rewrite foldl_app.
Qed.

Lemma reachable_s0 : reachable Example.s0.
Proof.
  exists Example.w0, []. split_and!; [by split | vm_compute; reflexivity | done].
Qed.

Lemma start_is_idempotent_witness :
  events_of start_dev_server Example.s_serving = []
  ∧ Nat.iter 3 (after start_dev_server) Example.s_serving = Example.s_serving.
Proof.
  assert (reachable Example.s_serving) as Hreach
    by (do 2 apply reachable_run; apply reachable_s0).
  assert (running Example.s_serving = true) as Hr by (vm_compute; reflexivity).
  destruct (proj2 (start_is_idempotent Example.s_serving Hreach) Hr)
    as (pid & p & _ & _ & _ & Hev & H).
  split; [exact Hev | exact (H 3%nat)].
Defined.

Lemma first_free_port_least st port :
  3000 ≤ port ≤ 3099 →
  bindable (busy (os st)) port = true →
  (∀ q, 3000 ≤ q < port → bindable (busy (os st)) q = false) →
  first_free_port st = Some port.
Proof.
  intros Hr Hb Hq. destruct (first_free_port st) as [x|] eqn:Hx.
  - apply first_free_port_some in Hx as (Hxr & Hxb & Hxq).
    destruct (Z.lt_trichotomy x port) as [Hlt|[->|Hgt]]; [| done |].
    + rewrite Hq in Hxb by lia. done.
    + rewrite Hxq in Hb by lia. done.
  - unfold first_free_port in Hx.
    rewrite (find_none _ _ Hx port) in Hb; [done |].
    apply list_elem_of_In, elem_of_seqZ. lia.
Qed.

(** Resolution of a path with one more part. *)
Lemma walk_last (f : fsmap) cur ps c :
  Fs.walk f cur (ps ++ [c])
  = match Fs.walk f cur ps with
    | inl e => inl e
    | inr l => match Fs.node_at f l with
               | Some Dir => inr (if String.eqb c ".." then removelast l else l ++ [c])
               | Some (File _) => inl NotADirectoryError
               | None => inl FileNotFoundError
               end
    end.
Proof.
  revert cur. induction ps as [|x ps IH]; intros cur; simpl.
  - by destruct (Fs.node_at f cur) as [[|?]|].
  - destruct (Fs.node_at f cur) as [[|?]|]; [| done ..]. apply IH.
Qed.

Lemma is_dir_after_mkdir (f : fsmap) cwd p l :
  Fs.is_dir f cwd p = true → Fs.is_dir (<[l := Dir]> f) cwd p = true.
Proof.
  assert (∀ k, Fs.node_at f k = Some Dir → Fs.node_at (<[l := Dir]> f) k = Some Dir) as Hd.
  { intros [|c k]; [done |]. simpl. intros Hk.
    destruct (decide (l = c :: k)) as [->|Hne];
      [by rewrite lookup_insert_eq | by rewrite lookup_insert_ne]. }
  unfold Fs.is_dir, Fs.stat, Fs.resolve.
  destruct (Fs.walk f _ _) as [e|lp] eqn:Hw; [done |].
  rewrite (walk_dirs_stay _ _ _ _ _ Hd Hw).
  destruct (Fs.node_at f lp) as [[|c]|] eqn:Hn; [| done ..].
  by rewrite (Hd lp Hn).
Qed.

(** [npm install] in a project directory, when the installer works. *)
Lemma npm_install_installed p s :
  Fs.is_dir (the_fs s) (cwd (os s)) p = true → installer (os s) = Installed →
  ∃ l, npm_install p s = (Ret None, on_os (record (EvInstall l)) s).
Proof.
  intros Hd Hi. unfold npm_install, resolve. mrun. fold (the_fs s).
  change (p // "node_modules") with (Path (absolute p) (parts p ++ ["node_modules"])).
  unfold Fs.resolve. cbn [absolute parts]. rewrite walk_last.
  unfold Fs.is_dir, Fs.stat, Fs.resolve in Hd.
  destruct (Fs.walk _ _ (parts p)) as [e|lp]; [done |].
  destruct (Fs.node_at _ lp) as [[|c]|]; [| done ..].
  mrun. rewrite Hi. mrun. by eexists.
Qed.

(** The spawn of lines 819-826 in a project directory, when the program is
    found. *)
Lemma launch_starts c p s :
  Fs.is_dir (the_fs s) (cwd (os s)) p = true → can_spawn (os s) = true →
  ∃ s', launch c p s = (Ret (Starting (port_of c), Some (port_of c)), s')
        ∧ procs (os s') = procs (os s) ++ [Proc c p true].
Proof.
  intros Hd Hc. unfold launch, popen. mrun. fold (the_fs s).
  unfold Fs.is_dir in Hd.
  destruct (Fs.stat _ _ _) as [e|[|c']]; [done | | done].
  mrun. rewrite Hc. mrun.
  unfold set_dev_server_process, add_terminal_output, set_terminal_history. mrun.
  by eexists.
Qed.

(** When a port of the range is free, the project directory is there and the
    programs to run are found, [start_dev_server] starts the server on the
    first free port. *)
Lemma start_dev_server_starts st p port :
  the_project st = Some p → running st = false →
  first_free_port st = Some port →
  Fs.is_dir (the_fs st) (cwd (os st)) p = true →
  can_spawn (os st) = true →
  Fs.exists_ (the_fs st) (cwd (os st)) (p // "package.json") = false
  ∨ Fs.exists_ (the_fs st) (cwd (os st)) (p // "node_modules") = true
  ∨ installer (os st) = Installed →
  ∃ c s', start_dev_server st = (Ret (Starting port, Some port), s')
          ∧ port_of c = port
          ∧ procs (os s') = procs (os st) ++ [Proc c p true].
Proof.
  intros Hp Hr Hf Hd Hc Hcase.
  destruct (first_free_port_some st port Hf) as (Hrange & _).
  unfold the_project in Hp.
  unfold start_dev_server, find_available_port, set_preview_port.
  mrun. rewrite Hp. mrun. rewrite Hr. mrun.
  fold (first_free_port st). rewrite Hf.
  destruct (port =? 0) eqn:H0; [lia |].
  set (s1 := on_self _ st).
  assert (the_fs s1 = the_fs st ∧ os s1 = os st) as [Hfs Hos] by done.
  unfold exists_ at 1. mrun. fold (the_fs s1). rewrite Hfs, Hos.
  assert (∀ c s, os s = os st ∨ (∃ l, os s = record (EvInstall l) (os st)) →
            port_of c = port →
            ∃ c' s', (let '(o, s') := launch c p s in
                      match o with
                      | Ret a => (Ret a, s')
                      | Raise e => (Ret (Error e, None), s')
                      end) = (Ret (Starting port, Some port), s')
                     ∧ port_of c' = port
                     ∧ procs (os s') = procs (os st) ++ [Proc c' p true]) as Hlaunch.
  { intros c s Hs <-.
    assert (Fs.is_dir (the_fs s) (cwd (os s)) p = true ∧ can_spawn (os s) = true
            ∧ procs (os s) = procs (os st)) as (Hd' & Hc' & Hprocs).
    { unfold the_fs. destruct Hs as [->|[l ->]]; [done |]. simpl.
      split_and!; [| done | done]. by apply is_dir_after_mkdir. }
    destruct (launch_starts c p s Hd' Hc') as (s' & -> & Hps).
    exists c, s'. by rewrite Hps, Hprocs. }
  destruct (Fs.exists_ (the_fs st) (cwd (os st)) (p // "package.json")) eqn:Hpkg.
  - unfold exists_ at 1. mrun. fold (the_fs s1). rewrite Hfs, Hos.
    destruct (Fs.exists_ (the_fs st) (cwd (os st)) (p // "node_modules")) eqn:Hmod.
    + mrun. apply Hlaunch; [by left | done].
    + destruct Hcase as [?|[?|Hi]]; [done | done |].
      unfold add_terminal_output at 1, set_terminal_history. mrun.
      set (s2 := on_self _ s1).
      destruct (npm_install_installed p s2) as [l Hrun]; [done | done |].
      rewrite Hrun. apply Hlaunch; [right; by exists l | done].
  - unfold add_terminal_output at 1, set_terminal_history. mrun.
    apply Hlaunch; [by left | done].
Qed.

(** C8: a port that [start_dev_server] answers with lies in 3000..3099.
    When it answers "starting on port", the port is the first of the range,
    in ascending order, on which [bind] succeeds; when it answers "already
    running", the port is the one of the running server.  When [bind]
    fails on every port of the range, no child is spawned, and the call,
    made with a project open and no server running, answers "No available
    ports".  And the first port of the range on which [bind] succeeds is
    found: called with a project open and no server running, the method
    takes it as the preview port, and it starts a server on it and answers
    with it whenever the project directory is there, the program to run is
    found, and the packages of the project, if it has a [package.json], are
    there or can be installed. *)
Theorem start_port_in_range (st : state) :
  reachable st →
  (∀ port u, result start_dev_server st = Ret (Starting port, u) →
       u = Some port ∧ 3000 ≤ port ≤ 3099
       ∧ bindable (busy (os st)) port = true
       ∧ ∀ q, 3000 ≤ q < port → bindable (busy (os st)) q = false)
  ∧ (∀ port u, result start_dev_server st = Ret (AlreadyRunning port, u) →
       ∃ q, port = Some q ∧ u = Some q ∧ 3000 ≤ q ≤ 3099)
  ∧ ((∀ q, 3000 ≤ q ≤ 3099 → bindable (busy (os st)) q = false) →
       procs (os (after start_dev_server st)) = procs (os st)
       ∧ (is_Some (the_project st) → running st = false →
          result start_dev_server st = Ret (NoAvailablePorts, None)))
  ∧ (∀ p port,
       the_project st = Some p → running st = false →
       3000 ≤ port ≤ 3099 →
       bindable (busy (os st)) port = true →
       (∀ q, 3000 ≤ q < port → bindable (busy (os st)) q = false) →
       preview_port (self (after start_dev_server st)) = Some port
       ∧ (Fs.is_dir (the_fs st) (cwd (os st)) p = true →
          can_spawn (os st) = true →
          Fs.exists_ (the_fs st) (cwd (os st)) (p // "package.json") = false
          ∨ Fs.exists_ (the_fs st) (cwd (os st)) (p // "node_modules") = true
          ∨ installer (os st) = Installed →
          result start_dev_server st = Ret (Starting port, Some port)
          ∧ ∃ c, port_of c = port
                 ∧ procs (os (after start_dev_server st))
                   = procs (os st) ++ [Proc c p true])).
Proof.
  intros Hreach. pose proof (reachable_supervised st Hreach) as [H1 H2].
  assert (∀ p port,
            the_project st = Some p → running st = false →
            3000 ≤ port ≤ 3099 →
            bindable (busy (os st)) port = true →
            (∀ q, 3000 ≤ q < port → bindable (busy (os st)) q = false) →
            preview_port (self (after start_dev_server st)) = Some port
            ∧ (Fs.is_dir (the_fs st) (cwd (os st)) p = true →
               can_spawn (os st) = true →
               Fs.exists_ (the_fs st) (cwd (os st)) (p // "package.json") = false
               ∨ Fs.exists_ (the_fs st) (cwd (os st)) (p // "node_modules") = true
               ∨ installer (os st) = Installed →
               result start_dev_server st = Ret (Starting port, Some port)
               ∧ ∃ c, port_of c = port
                      ∧ procs (os (after start_dev_server st))
                        = procs (os st) ++ [Proc c p true])) as Hfound.
  { intros p port Hp Hnr Hrange Hb Hq.
    pose proof (first_free_port_least st port Hrange Hb Hq) as Hf. split.
    - destruct (start_dev_server_outcome st p Hp Hnr)
        as [((_ & _ & _ & Hport) & _)|(port' & Hf' & _ & (c & _ & _ & _ & _ & Hport))].
      + by rewrite Hport.
      + rewrite Hport. congruence.
    - intros Hd Hc Hcase.
      destruct (start_dev_server_starts st p port Hp Hnr Hf Hd Hc Hcase)
        as (c & s' & Hrun & Hc' & Hprocs).
      unfold result, after. rewrite Hrun. split; [done |]. by exists c. }
  destruct (start_dev_server_cases st)
    as [[Hn Hs]|[(Hproj & Hr & Hs)|(p & Hp & Hnr & Ho)]].
  - unfold result, after. rewrite Hs. simpl. split_and!; [done | done | |].
    + intros _. split; [done |]. rewrite Hn. by intros [? ?].
    + intros p port Hp'. congruence.
  - unfold result, after. rewrite Hs. simpl. split_and!; [done | | |].
    + intros port u [= <- <-].
      destruct (running_child st Hr) as (pid & c & Hd & Hl & Ha).
      destruct (H2 pid c Hd Hl Ha) as (_ & Hport & Hrange). eauto.
    + intros _. split; [done |]. congruence.
    + intros p port _ Hnr'. congruence.
  - destruct Ho as [(Hprob & Hne & Hnone)|(port & Hf & Hres & Hl)].
    + split_and!.
      * intros port u Hres. rewrite Hres in Hne. by destruct Hne as [|[|[]]].
      * intros port u Hres. rewrite Hres in Hne. by destruct Hne as [|[|[]]].
      * intros Hbusy. split; [apply Hprob |]. intros _ _. apply Hnone.
        by apply first_free_port_none.
      * exact Hfound.
    + rewrite Hres. split_and!.
      * intros ? ? [= <- <-]. split; [done |]. by apply first_free_port_some.
      * done.
      * intros Hbusy. rewrite first_free_port_none in Hf by done. done.
      * rewrite <- Hres. exact Hfound.
Qed.

Lemma reachable_s1 : reachable Example.s1.
Proof. apply reachable_run, reachable_s0. Qed.

Lemma start_port_in_range_witness :
  result start_dev_server Example.s_taken = Ret (Starting 3002, Some 3002)
  ∧ result start_dev_server Example.s_full = Ret (NoAvailablePorts, None).
Proof.
  split.
  - refine (proj1 (proj2 (proj2 (proj2 (proj2
              (start_port_in_range Example.s_taken _))) Example.demo 3002 _ _ _ _ _) _ _ _)).
    + apply reachable_run, reachable_s1.
    + vm_compute. reflexivity.
    + vm_compute. reflexivity.
    + lia.
    + vm_compute. reflexivity.
    + intros q Hq. assert (q = 3000 ∨ q = 3001) as [->| ->] by lia; vm_compute; reflexivity.
    + vm_compute. reflexivity.
    + vm_compute. reflexivity.
    + left. vm_compute. reflexivity.
  - refine (proj2 (proj1 (proj2 (proj2 (start_port_in_range Example.s_full _))) _) _ _).
    + apply reachable_run, reachable_s1.
    + intros q Hq. unfold bindable. apply bool_decide_eq_false. intros Hn. apply Hn.
      change (busy (os Example.s_full)) with (seqZ 3000 100).
      apply elem_of_seqZ. lia.
    + vm_compute. by eexists.
    + vm_compute. reflexivity.
Defined.

(** ** Deleting the open project *)

Lemma events_of_app {A} (m : M A) st evs :
  the_trace (after m st) = the_trace st ++ evs → events_of m st = evs.
Proof.
  intros H. unfold events_of. fold (the_trace st) (the_trace (after m st)).
  by rewrite H, drop_app_length.
Qed.

(** C6, at the input where it fails: the project "demo" is made and opened
    under the name "x/../demo", its dev server is started, and
    [delete_project "demo"] is called.  Both names lead to the same
    directory, but [current_project] holds the path as it was written, which
    is another path than the one [delete_project] makes: the server is not
    stopped.  The directory is removed with no [terminate] and no [wait]
    before; afterwards the child started in it is still alive, the handle
    still names it, and the project is still selected, its path leading
    nowhere. *)
Theorem delete_leaves_server_running :
  let st := Example.s_alias in
  let st' := after (delete_project "demo") st in
  let l := ["home"; "workspace"; "demo"] in
  the_project st = Some (workspace_dir // "x/../demo")
  ∧ running st = true
  ∧ Fs.resolve (the_fs st) (cwd (os st)) (workspace_dir // "x/../demo") = inr l
  ∧ Fs.resolve (the_fs st) (cwd (os st)) (workspace_dir // "demo") = inr l
  ∧ result (delete_project "demo") st = Ret (Deleted "demo")
  ∧ events_of (delete_project "demo") st = [EvEmpty l; EvRmdir l]
  ∧ Fs.node_at (the_fs st') l = None
  ∧ running st' = true
  ∧ procs (os st') = [Proc (HttpServer 3000) (workspace_dir // "x/../demo") true]
  ∧ dev_server_process (self st') = Some 0%nat
  ∧ the_project st' = Some (workspace_dir // "x/../demo")
  ∧ Fs.exists_ (the_fs st') (cwd (os st')) (workspace_dir // "x/../demo") = false.
Proof. split_and!; vm_compute; reflexivity. Qed.

(** The same guard lets the server of a project that is no longer the open
    one run on: "a" is made, its server started, "b" is made, and "a" is
    deleted. *)
Example delete_of_a_closed_project :
  let st := run [Call (CreateProject "a" "HTML/Bootstrap"); Call StartDevServer;
                 Call (CreateProject "b" "HTML/Bootstrap")] Example.s0 in
  let st' := after (delete_project "a") st in
  result (delete_project "a") st = Ret (Deleted "a")
  ∧ running st' = true
  ∧ procs (os st') = [Proc (HttpServer 3000) (workspace_dir // "a") true]
  ∧ Fs.exists_ (the_fs st') (cwd (os st')) (workspace_dir // "a") = false.
Proof. split_and!; vm_compute; reflexivity. Qed.

(** * Further properties of the class *)

(** ** What the methods are made of *)

(** Every method acts on the state through five things only: a line added
    to the terminal, a system call, and the assignments to
    [current_project], [dev_server_process] and [preview_port].  A relation
    that these preserve is preserved by every call. *)
Section Actions.
Context (P : state → state → Prop) `{!PreOrder P}.
Hypothesis P_log : ∀ text, preserves P (add_terminal_output text).
Hypothesis P_emit : ∀ ev, preserves P (emit ev).
Hypothesis P_select : ∀ p, preserves P (set_current_project p).
Hypothesis P_handle : ∀ h, preserves P (set_dev_server_process h).
Hypothesis P_port : ∀ p, preserves P (set_preview_port p).

#[local] Hint Resolve P_log P_emit P_select P_handle P_port : preserves.

Lemma acts_reads :
  (∀ p, preserves P (exists_ p)) ∧ (∀ p, preserves P (is_dir p))
  ∧ (∀ p, preserves P (resolve p)) ∧ (∀ p, preserves P (load_json p))
  ∧ (∀ p, preserves P (iterdir p)).
Proof.
  split_and!; intros p;
    unfold exists_, is_dir, resolve, load_json, read_file, json_load, iterdir;
    preserves_auto.
Qed.

Lemma acts_exists_ p : preserves P (exists_ p).
Proof. apply acts_reads. Qed.

Lemma acts_load_json p : preserves P (load_json p).
Proof. apply acts_reads. Qed.

Lemma acts_iterdir p : preserves P (iterdir p).
Proof. apply acts_reads. Qed.

Lemma acts_is_dir p : preserves P (is_dir p).
Proof. apply acts_reads. Qed.

Lemma acts_resolve p : preserves P (resolve p).
Proof. apply acts_reads. Qed.

#[local] Hint Resolve acts_exists_ acts_load_json acts_iterdir acts_is_dir acts_resolve
  : preserves.

Lemma acts_mkdir p : preserves P (mkdir p).
Proof. unfold mkdir, os_mkdir. preserves_auto. Qed.

Lemma acts_mkdir_parents p : preserves P (mkdir_parents p).
Proof.
  pose proof acts_mkdir as Hm.
  unfold mkdir_parents. generalize (absolute p), (rev (parts p)).
  intros a l. induction l as [|c l IH]; simpl; unfold os_mkdir; preserves_auto.
Qed.

Lemma acts_write_text p c : preserves P (write_text p c).
Proof. unfold write_text, open_w, write_close. preserves_auto. Qed.

#[local] Hint Resolve acts_mkdir acts_mkdir_parents acts_write_text : preserves.

Lemma acts_set_terminal_free :
  preserves P get_terminal_output ∧ preserves P get_file_tree
  ∧ preserves P get_default_target_file ∧ preserves P load_generation_history
  ∧ preserves P get_workspace_projects.
Proof.
  unfold get_terminal_output, get_file_tree, get_default_target_file,
    load_generation_history, get_workspace_projects, project_entry, history_row, reversed.
  split_and!; preserves_auto.
Qed.

Lemma acts_get_terminal_output : preserves P get_terminal_output.
Proof. apply acts_set_terminal_free. Qed.

Lemma acts_get_file_tree : preserves P get_file_tree.
Proof. apply acts_set_terminal_free. Qed.

Lemma acts_get_default_target_file : preserves P get_default_target_file.
Proof. apply acts_set_terminal_free. Qed.

Lemma acts_load_generation_history : preserves P load_generation_history.
Proof. apply acts_set_terminal_free. Qed.

Lemma acts_get_workspace_projects : preserves P get_workspace_projects.
Proof. apply acts_set_terminal_free. Qed.

#[local] Hint Resolve acts_get_terminal_output acts_get_file_tree
  acts_get_default_target_file acts_load_generation_history
  acts_get_workspace_projects : preserves.

Lemma acts_scaffold p :
  preserves P (_create_react_structure p) ∧ preserves P (_create_vue_structure p)
  ∧ preserves P (_create_nextjs_structure p) ∧ preserves P (_create_html_structure p).
Proof.
  unfold _create_react_structure, _create_vue_structure, _create_nextjs_structure,
    _create_html_structure, _write_file.
  split_and!; preserves_auto.
Qed.

Lemma acts_create_project project_name project_type :
  preserves P (create_project project_name project_type).
Proof.
  pose proof acts_scaffold as Hs.
  unfold create_project, dump_json, open_w, write_close. preserves_auto; apply Hs.
Qed.

Lemma acts_load_project project_name : preserves P (load_project project_name).
Proof. unfold load_project. preserves_auto. Qed.

Lemma acts_save_generation_metadata g : preserves P (save_generation_metadata g).
Proof.
  unfold save_generation_metadata, dump_json, open_w, write_close. preserves_auto.
Qed.

Lemma acts_save_screenshot image target_file :
  preserves P (save_screenshot image target_file).
Proof. unfold save_screenshot. preserves_auto. Qed.

#[local] Hint Resolve acts_save_generation_metadata acts_save_screenshot : preserves.

Lemma acts_generate_code image target_file custom_prompt save_shot :
  preserves P (generate_code image target_file custom_prompt save_shot).
Proof. unfold generate_code. preserves_auto. Qed.

Lemma acts_stop_dev_server : preserves P stop_dev_server.
Proof. unfold stop_dev_server, terminate, wait. preserves_auto. Qed.

#[local] Hint Resolve acts_stop_dev_server : preserves.

Lemma acts_delete_project project_name : preserves P (delete_project project_name).
Proof. unfold delete_project, rmtree. preserves_auto. Qed.

Lemma acts_start_dev_server : preserves P start_dev_server.
Proof.
  unfold start_dev_server, find_available_port, launch, popen, npm_install.
  preserves_auto.
Qed.

Lemma acts_do_call c : ∀ st, P st (do_call c st).
Proof.
  destruct c; simpl; intros st.
  - apply acts_create_project.
  - apply acts_load_project.
  - apply acts_delete_project.
  - apply acts_generate_code.
  - apply acts_start_dev_server.
  - apply acts_stop_dev_server.
  - apply acts_get_workspace_projects.
Qed.
End Actions.

(** ** The terminal *)

#[global] Instance cap_step_preorder : PreOrder cap_step.
Proof.
  split; [intros st H; exact H | intros a b c H1 H2 H; apply H2, H1, H].
Qed.

Lemma add_terminal_output_run text st :
  add_terminal_output text st
  = (Ret tt,
     on_self (λ i, Ide (model i) (current_project i)
                       (Py.last_n 50 (terminal_history i ++ [(hms (now (os st)), text)]))
                       (dev_server_process i) (preview_port i)) st).
Proof. unfold add_terminal_output, set_terminal_history. by mrun. Qed.

Lemma capped_add_terminal_output text st : capped (after (add_terminal_output text) st).
Proof.
  unfold after. rewrite add_terminal_output_run. unfold capped. simpl.
  apply length_last_n.
Qed.

Lemma cap_step_do_call c st : capped st → capped (do_call c st).
Proof.
  change (cap_step st (do_call c st)).
  apply acts_do_call; [apply _ | | intros ? s H; exact H ..].
  intros text s _. apply capped_add_terminal_output.
Qed.

Lemma cap_step_do_env e st : capped st → capped (do_env e st).
Proof.
  destruct e; simpl; try done.
  destruct (String.eqb line ""); [done |]. intros _. apply capped_add_terminal_output.
Qed.

Lemma init_self w st : init (State w blank) = (Ret tt, st) → self st = blank.
Proof.
  unfold init. intros Hi. apply bind_ret_inv in Hi as ([] & s1 & _ & Hi).
  revert Hi. mrun. by intros [= <-].
Qed.

(** X1: at every point of a session the terminal holds at most fifty
    lines.  [add_terminal_output] puts the new line, stamped with the
    clock, last; below fifty lines nothing is lost, at fifty the oldest line
    goes; and [get_terminal_output] shows exactly these lines. *)
Theorem terminal_history_capped (st : state) :
  reachable st →
  capped st
  ∧ ∀ text,
      let h := terminal_history (self st) in
      let h' := terminal_history (self (after (add_terminal_output text) st)) in
      let line := (hms (now (os st)), text) in
      result (add_terminal_output text) st = Ret tt
      ∧ ((length h < 50)%nat → h' = h ++ [line])
      ∧ (length h = 50%nat → h' = tail h ++ [line])
      ∧ result get_terminal_output (after (add_terminal_output text) st) = Ret (Lines h').
Proof.
  intros Hreach. split.
  - destruct Hreach as (w & l & Hw & Hres & ->).
    pose proof (surjective_run init (State w blank)) as Hrun. rewrite Hres in Hrun.
    induction l as [|s l IH] using rev_ind.
    + unfold capped. simpl. rewrite (init_self w _ Hrun). simpl. lia.
    + unfold run in *. rewrite foldl_app. simpl.
      destruct s; [by apply cap_step_do_call | by apply cap_step_do_env].
  - intros text. unfold after, result. rewrite add_terminal_output_run. simpl.
    split_and!; [done | | | done].
    + intros Hlt. unfold Py.last_n. rewrite length_app. simpl.
      replace (length (terminal_history (self st)) + 1 - 50)%nat with 0%nat by lia. done.
    + intros Heq. apply last_n_full; [lia | done].
Qed.

Lemma terminal_history_capped_witness : capped Example.s1.
Proof. apply terminal_history_capped, reachable_s1. Defined.

(** ** Ports *)

Lemma find_none_iff {A} (f : A → bool) (l : list A) :
  List.find f l = None ↔ ∀ x, x ∈ l → f x = false.
Proof.
  induction l as [|y l IH]; simpl.
  - split; [intros _ x Hx; by apply elem_of_nil in Hx | done].
  - destruct (f y) eqn:Hy.
    + split; [done |]. intros H. specialize (H y). rewrite Hy in H.
      discriminate H. by left.
    + rewrite IH. split.
      * intros H x [->|Hx]%elem_of_cons; auto.
      * intros H x Hx. apply H. by right.
Qed.

Lemma find_range (f : Z → bool) (m n : Z) :
  (∀ x, List.find f (seqZ m (n - m)) = Some x
        ↔ m ≤ x < n ∧ f x = true ∧ ∀ q, m ≤ q < x → f q = false)
  ∧ (List.find f (seqZ m (n - m)) = None ↔ ∀ q, m ≤ q < n → f q = false).
Proof.
  assert (List.find f (seqZ m (n - m)) = None ↔ ∀ q, m ≤ q < n → f q = false) as Hnone.
  { rewrite find_none_iff. split.
    - intros H q Hq. apply H, elem_of_seqZ. lia.
    - intros H q Hq%elem_of_seqZ. apply H. lia. }
  assert (∀ x, List.find f (seqZ m (n - m)) = Some x
               → m ≤ x < n ∧ f x = true ∧ ∀ q, m ≤ q < x → f q = false) as Hsome.
  { intros x Hx. destruct (decide (0 ≤ n - m)) as [Hle|Hlt].
    - rewrite <- (Z2Nat.id (n - m)) in Hx by done.
      apply find_seqZ in Hx as (H1 & H2 & H3). split_and!; [lia | lia | done | done].
    - rewrite seqZ_nil in Hx by lia. done. }
  split; [| done]. intros x. split; [apply Hsome |].
  intros (Hx & Hfx & Hleast).
  destruct (List.find f (seqZ m (n - m))) as [y|] eqn:Hy.
  - destruct (Hsome y eq_refl) as (Hy' & Hfy & Hleasty). f_equal.
    destruct (Z.lt_trichotomy x y) as [Hlt|[->|Hgt]]; [| done |].
    + rewrite Hleasty in Hfx by lia. done.
    + rewrite Hleast in Hfy by lia. done.
  - rewrite (proj1 Hnone eq_refl) in Hfx by done. done.
Qed.

(** X2: [find_available_port(start, end)] only looks: the state stays as
    it is.  It answers the least port from [start] up to, but not including,
    [end] on which [bind] succeeds, and [None] exactly when [bind] fails on
    every such port, as it does when the range is empty. *)
Theorem find_available_port_least (st : state) (start end_ : Z) :
  after (find_available_port start end_) st = st
  ∧ (∀ port, result (find_available_port start end_) st = Ret (Some port)
             ↔ start ≤ port < end_
               ∧ (port ∉ busy (os st))
               ∧ ∀ q, start ≤ q < port → q ∈ busy (os st))
  ∧ (result (find_available_port start end_) st = Ret None
     ↔ ∀ q, start ≤ q < end_ → q ∈ busy (os st))
  ∧ (end_ ≤ start → result (find_available_port start end_) st = Ret None).
Proof.
  destruct (find_range (bindable (busy (os st))) start end_) as [Hsome Hnone].
  assert (∀ q, bindable (busy (os st)) q = true ↔ q ∉ busy (os st)) as Ht
    by (intros q; unfold bindable; by rewrite bool_decide_eq_true).
  assert (∀ q, bindable (busy (os st)) q = false ↔ q ∈ busy (os st)) as Hf.
  { intros q. unfold bindable. rewrite bool_decide_eq_false.
    split; [apply dec_stable | by intros H1 H2]. }
  unfold result, after, find_available_port. rewrite run_gets. simpl.
  split_and!; [done | | |].
  - intros port. split.
    + intros [= H]. apply Hsome in H as (H1 & H2 & H3).
      split_and!; [lia | lia | by apply Ht |]. intros q Hq. by apply Hf, H3.
    + intros (H1 & H2 & H3). do 2 f_equal. apply Hsome.
      split_and!; [lia | lia | by apply Ht |]. intros q Hq. by apply Hf, H3.
  - split.
    + intros [= H]. intros q Hq. apply Hf. by apply Hnone.
    + intros H. do 2 f_equal. apply Hnone. intros q Hq. by apply Hf, H.
  - intros Hle. do 2 f_equal. apply Hnone. intros q Hq. lia.
Qed.

(** ** The dev server and the preview *)

Lemma idle_not_running st : idle st → running st = false.
Proof.
  intros Hi. unfold running. destruct (dev_server_process (self st)); [apply Hi | done].
Qed.

Lemma get_preview_html_run st :
  get_preview_html st
  = (Ret (match preview_port (self st) with
          | Some p => if p =? 0 then NoPreview else Frame p
          | None => NoPreview
          end), st).
Proof. unfold get_preview_html. by mrun. Qed.

(** X3: at every point of a session, after [stop_dev_server] no child of
    the session is alive, and a second stop answers "No server running" and
    changes nothing.  When a server was running, the stop terminates it,
    waits for it, answers "Server stopped", and the preview shows "No preview
    available".  When none was running, the stop changes nothing at all. *)
Theorem stop_leaves_no_server (st : state) :
  reachable st →
  let st' := after stop_dev_server st in
  idle st'
  ∧ stop_dev_server st' = (Ret NoServerRunning, st')
  ∧ (∀ pid, dev_server_process (self st) = Some pid → running st = true →
       result stop_dev_server st = Ret Stopped
       ∧ events_of stop_dev_server st = [EvTerminate pid; EvWait pid]
       ∧ result get_preview_html st' = Ret NoPreview)
  ∧ (running st = false → stop_dev_server st = (Ret NoServerRunning, st)).
Proof.
  intros Hreach st'. pose proof (reachable_supervised st Hreach) as Hs.
  pose proof (stop_dev_server_idle st Hs) as Hi. fold st' in Hi.
  split_and!; [done | | |].
  - by apply stop_dev_server_not_running, idle_not_running.
  - intros pid Hd Hr. subst st'. unfold result, events_of, after.
    rewrite (stop_dev_server_running st pid Hd Hr), get_preview_html_run. simpl.
    split_and!; [done | | done].
    by rewrite <- app_assoc, drop_app_length.
  - apply stop_dev_server_not_running.
Qed.

Lemma stop_leaves_no_server_witness :
  idle (after stop_dev_server Example.s_serving)
  ∧ result get_preview_html (after stop_dev_server Example.s_serving) = Ret NoPreview.
Proof.
  assert (reachable Example.s_serving) as Hreach
    by (do 2 apply reachable_run; apply reachable_s0).
  destruct (stop_leaves_no_server Example.s_serving Hreach) as (H1 & _ & H3 & _).
  split; [exact H1 |].
  apply (H3 0%nat); vm_compute; reflexivity.
Defined.

(** X4: when [start_dev_server] answers "Server starting on port", the
    session had no live child before; now it has exactly one more child,
    alive, started in the directory of the open project for that port, the
    handle names it, and the preview shows the frame of that port. *)
Theorem started_server_is_shown (st : state) (port : Z) (u : option Z) :
  reachable st →
  result start_dev_server st = Ret (Starting port, u) →
  let st' := after start_dev_server st in
  idle st
  ∧ running st' = true
  ∧ result get_preview_html st' = Ret (Frame port)
  ∧ ∃ p c, the_project st = Some p
           ∧ port_of c = port
           ∧ procs (os st') = procs (os st) ++ [Proc c p true]
           ∧ dev_server_process (self st') = Some (length (procs (os st))).
Proof.
  intros Hreach Hres st'. pose proof (reachable_supervised st Hreach) as Hs.
  destruct (start_dev_server_cases st) as [[_ Hrun]|[(_ & _ & Hrun)|(p & Hp & Hr & Ho)]].
  - unfold result in Hres. by rewrite Hrun in Hres.
  - unfold result in Hres. by rewrite Hrun in Hres.
  - destruct Ho as [(_ & Hn & _)|(port' & Hf & Ho & (c & Hc & Hprocs & Hd & _ & Hport))].
    { rewrite Hres in Hn. destruct Hn as [Hn|[Hn|[e Hn]]]; discriminate Hn. }
    rewrite Hres in Ho. injection Ho as -> ->.
    apply first_free_port_some in Hf as (Hrange & _).
    fold st' in Hprocs, Hd, Hport.
    split_and!.
    + by apply supervised_not_running_idle.
    + unfold running, is_alive. rewrite Hd, Hprocs.
      by rewrite lookup_app_r, Nat.sub_diag.
    + unfold result. rewrite get_preview_html_run, Hport. simpl.
      destruct (Z.eqb_spec port' 0); [lia | done].
    + by exists p, c.
Qed.

Lemma started_server_is_shown_witness :
  result get_preview_html (after start_dev_server Example.s1) = Ret (Frame 3000).
Proof.
  apply (started_server_is_shown Example.s1 3000 (Some 3000));
    [apply reachable_s1 | vm_compute; reflexivity].
Defined.

(** X5: a start that fails after the port was picked, with "Failed to
    install dependencies" or with an error, leaves the picked port in
    [preview_port]: no child of the session is alive, and yet the preview
    shows the frame of that port. *)
Theorem failed_start_keeps_port (st : state) (answer : status) :
  reachable st →
  result start_dev_server st = Ret (answer, None) →
  answer = InstallDepsFailed ∨ (∃ e, answer = Error e) →
  let st' := after start_dev_server st in
  idle st'
  ∧ ∃ port, first_free_port st = Some port
            ∧ preview_port (self st') = Some port
            ∧ result get_preview_html st' = Ret (Frame port).
Proof.
  intros Hreach Hres Hans st'. pose proof (reachable_supervised st Hreach) as Hs.
  destruct (start_dev_server_cases st) as [[_ Hrun]|[(_ & _ & Hrun)|(p & Hp & Hr & Ho)]].
  - unfold result in Hres. rewrite Hrun in Hres. injection Hres as <-.
    by destruct Hans as [|[]].
  - unfold result in Hres. rewrite Hrun in Hres. injection Hres as <- _.
    by destruct Hans as [|[]].
  - destruct Ho as [((Hprocs & _ & _ & Hport) & _ & Hnone)|(port' & _ & Ho & _)].
    2:{ rewrite Hres in Ho. injection Ho as ->. by destruct Hans as [|[]]. }
    fold st' in Hprocs, Hport. split.
    + apply (idle_same st); [done |]. by apply supervised_not_running_idle.
    + destruct (first_free_port st) as [port|] eqn:Hf.
      2:{ rewrite Hres in Hnone. specialize (Hnone eq_refl). injection Hnone as ->.
          by destruct Hans as [|[]]. }
      exists port. apply first_free_port_some in Hf as (Hrange & _).
      unfold result. rewrite get_preview_html_run, Hport. simpl.
      destruct (Z.eqb_spec port 0); [lia | done].
Qed.

Lemma failed_start_keeps_port_witness :
  idle (after start_dev_server Sample.s_no_install)
  ∧ ∃ port, first_free_port Sample.s_no_install = Some port
            ∧ preview_port (self (after start_dev_server Sample.s_no_install)) = Some port
            ∧ result get_preview_html (after start_dev_server Sample.s_no_install)
              = Ret (Frame port).
Proof.
  apply (failed_start_keeps_port Sample.s_no_install InstallDepsFailed).
  - apply reachable_run, reachable_s0.
  - vm_compute. reflexivity.
  - by left.
Defined.

(** ** Opening a project *)

Lemma keeps_supervisor_write_text p c : preserves (keeps supervisor) (write_text p c).
Proof. apply preserves_write_text; [apply _ |]. by intros [] Hev st. Qed.

#[global] Instance stays_open_preorder : PreOrder stays_open.
Proof.
  split; [intros st H; exact H | intros a b c H1 H2 H; apply H2, H1, H].
Qed.

Lemma stays_open_write_text p c : preserves stays_open (write_text p c).
Proof. apply preserves_write_text; [apply _ |]. intros ev _ st H. exact H. Qed.

Lemma load_project_run st project_name :
  project_name ≠ "" →
  Fs.exists_ (the_fs st) (cwd (os st)) (workspace_dir // project_name) = true →
  load_project project_name st
  = (add_terminal_output (LogLoaded project_name) ;;
     add_terminal_output (LogLocation (workspace_dir // project_name)) ;;
     history <- load_generation_history ;;
     default_file <- get_default_target_file ;;
     tree <- get_file_tree ;;
     term <- get_terminal_output ;;
     ret (Loaded project_name, tree, term, history, default_file))
      (after (set_current_project (Some (workspace_dir // project_name))) st).
Proof.
  intros Hne He. unfold load_project.
  rewrite (proj2 (String.eqb_neq _ _) Hne). unfold exists_ at 1. mrun.
  unfold the_fs in He. rewrite He. simpl. unfold set_current_project at 1. by mrun.
Qed.

Lemma load_project_selects st project_name :
  project_name ≠ "" →
  Fs.exists_ (the_fs st) (cwd (os st)) (workspace_dir // project_name) = true →
  the_project (after (load_project project_name) st) = Some (workspace_dir // project_name).
Proof.
  intros Hne He. unfold after at 1. rewrite load_project_run by done.
  match goal with
  | |- the_project (snd (?m ?s)) = _ =>
      assert (preserves (keeps the_project) m) as Hm; [| exact (Hm s)]
  end.
  assert (∀ text, preserves (keeps the_project) (add_terminal_output text)) as Hlog.
  { intros text. apply preserves_add_terminal_output; [apply _ | by intros h s]. }
  apply preserves_bind; [apply Hlog | intros _].
  apply preserves_bind; [apply Hlog | intros _].
  apply preserves_bind; [| intros history].
  { apply preserves_load_generation_history; [apply _ | by intros h s]. }
  apply preserves_bind; [apply preserves_get_default_target_file, _ | intros file].
  apply preserves_bind; [apply preserves_get_file_tree, _ | intros tree].
  apply preserves_bind; [apply preserves_get_terminal_output, _ | intros term].
  apply preserves_ret.
Qed.

(** X6: [load_project] changes nothing outside the session: no file, no
    child, no system call; and within the session it keeps the handle and the
    port of the dev server.  An empty name and a name that leads nowhere are
    turned down with the state as it was.  A name that leads somewhere is
    selected, whatever comes after. *)
Theorem load_project_only_selects (st : state) (project_name : string) :
  let st' := after (load_project project_name) st in
  os st' = os st
  ∧ supervisor st' = supervisor st
  ∧ model (self st') = model (self st)
  ∧ (project_name = "" →
     load_project project_name st
     = (Ret (SelectProject, NoTree, NoLines, [], "src/App.jsx"), st))
  ∧ (project_name ≠ "" →
     Fs.exists_ (the_fs st) (cwd (os st)) (workspace_dir // project_name) = false →
     load_project project_name st
     = (Ret (NotFound project_name, NoTree, NoLines, [], "src/App.jsx"), st))
  ∧ (project_name ≠ "" →
     Fs.exists_ (the_fs st) (cwd (os st)) (workspace_dir // project_name) = true →
     the_project st' = Some (workspace_dir // project_name)).
Proof.
  intros st'. subst st'. split_and!.
  - change (keeps os st (after (load_project project_name) st)).
    apply preserves_load_project; [apply _ | by intros h s | by intros p s].
  - change (keeps supervisor st (after (load_project project_name) st)).
    apply preserves_load_project; [apply _ | by intros h s | by intros p s].
  - change (keeps (λ s, model (self s)) st (after (load_project project_name) st)).
    apply preserves_load_project; [apply _ | by intros h s | by intros p s].
  - intros ->. done.
  - intros Hne He. unfold load_project.
    rewrite (proj2 (String.eqb_neq _ _) Hne). unfold exists_. mrun.
    unfold the_fs in He. by rewrite He.
  - apply load_project_selects.
Qed.

(** X7: opening or creating another project does not touch a running dev
    server.  The children, the handle and the port are as before and a
    project is still open, so that the next [start_dev_server] answers
    "Server already running" with the old port and starts nothing for the
    project selected since. *)
Theorem selecting_keeps_server (st : state) :
  reachable st →
  running st = true →
  ∀ c, (∃ n, c = LoadProject n) ∨ (∃ n t, c = CreateProject n t) →
       let st' := do_call c st in
       supervisor st' = supervisor st
       ∧ running st' = true
       ∧ start_dev_server st'
         = (Ret (AlreadyRunning (preview_port (self st)), preview_port (self st)), st').
Proof.
  intros Hreach Hr c Hc st'.
  assert (supervisor st' = supervisor st) as Hsup.
  { destruct Hc as [[n ->]|(n & t & ->)]; subst st'; simpl.
    - change (keeps supervisor st (after (load_project n) st)).
      apply preserves_load_project; [apply _ | by intros h s | by intros p s].
    - change (keeps supervisor st (after (create_project n t) st)).
      apply preserves_create_project;
        [apply _ | by intros h s | by intros l s | apply keeps_supervisor_write_text
        | by intros p s]. }
  assert (is_Some (the_project st')) as Hopen.
  { assert (is_Some (the_project st)) as Hp.
    { destruct (running_child st Hr) as (pid & p & Hd & Hl & Ha).
      by destruct (reachable_supervised st Hreach) as [_ H2], (H2 pid p Hd Hl Ha). }
    revert Hp. destruct Hc as [[n ->]|(n & t & ->)]; subst st'; simpl.
    - change (stays_open st (after (load_project n) st)).
      apply preserves_load_project;
        [apply _ | intros h s H; exact H | by intros p s _; eexists].
    - change (stays_open st (after (create_project n t) st)).
      apply preserves_create_project;
        [apply _ | intros h s H; exact H | intros l s H; exact H
        | apply stays_open_write_text | by intros p s _; eexists]. }
  assert (running st' = true) as Hr'.
  { revert Hr. unfold running. unfold supervisor in Hsup.
    injection Hsup as -> -> _. done. }
  split_and!; [done | done |].
  destruct (start_dev_server_cases st') as [[Hn _]|[(_ & _ & Hrun)|(p & _ & Hnr & _)]].
  - rewrite Hn in Hopen. by destruct Hopen.
  - unfold supervisor in Hsup. injection Hsup as _ _ <-. exact Hrun.
  - congruence.
Qed.

Lemma selecting_keeps_server_witness :
  start_dev_server (do_call (LoadProject "other") Sample.s_two)
  = (Ret (AlreadyRunning (Some 3000), Some 3000), do_call (LoadProject "other") Sample.s_two)
  ∧ the_project (do_call (LoadProject "other") Sample.s_two)
    = Some (workspace_dir // "other").
Proof.
  split; [| vm_compute; reflexivity].
  assert (reachable Sample.s_two) as Hreach by (do 2 apply reachable_run; apply reachable_s0).
  assert (running Sample.s_two = true) as Hr by (vm_compute; reflexivity).
  apply (selecting_keeps_server Sample.s_two Hreach Hr (LoadProject "other")).
  left. by eexists.
Defined.

(** ** Deleting a project *)

Lemma stop_dev_server_returns st : ∃ a, stop_dev_server st = (Ret a, after stop_dev_server st).
Proof.
  destruct (running st) eqn:Hr.
  - destruct (running_child st Hr) as (pid & p & Hd & _).
    unfold after. rewrite (stop_dev_server_running st pid Hd Hr). by eexists.
  - unfold after. rewrite (stop_dev_server_not_running st Hr). by eexists.
Qed.

Lemma stop_dev_server_files st :
  the_fs (after stop_dev_server st) = the_fs st
  ∧ cwd (os (after stop_dev_server st)) = cwd (os st).
Proof.
  destruct (running st) eqn:Hr.
  - destruct (running_child st Hr) as (pid & p & Hd & _).
    unfold after. by rewrite (stop_dev_server_running st pid Hd Hr).
  - unfold after. by rewrite (stop_dev_server_not_running st Hr).
Qed.

Lemma delete_project_run st project_name :
  project_name ≠ "" →
  Fs.exists_ (the_fs st) (cwd (os st)) (workspace_dir // project_name) = true →
  delete_project project_name st
  = match rmtree (workspace_dir // project_name)
            (before_rmtree (workspace_dir // project_name) st) with
    | (Ret _, s1) =>
        (Ret (Deleted project_name), after (add_terminal_output (LogDeleted project_name)) s1)
    | (Raise e, s1) => (Ret (ErrorDeleting e), s1)
    end.
Proof.
  intros Hne He. unfold delete_project, before_rmtree.
  rewrite (proj2 (String.eqb_neq _ _) Hne). unfold exists_ at 1. mrun.
  unfold the_fs in He. rewrite He. simpl. mrun. unfold the_project.
  destruct (decide (current_project (self st) = Some (workspace_dir // project_name))).
  - mrun. destruct (stop_dev_server_returns st) as [a ->].
    unfold set_current_project at 1. mrun. unfold after at 2. unfold set_current_project.
    rewrite run_modify. simpl.
    destruct (rmtree _ _) as [[[]|e'] s1]; [| done].
    unfold after. rewrite add_terminal_output_run. by mrun.
  - mrun. destruct (rmtree _ _) as [[[]|e'] s1]; [| done].
    unfold after. rewrite add_terminal_output_run. by mrun.
Qed.

Lemma before_rmtree_files p st :
  the_fs (before_rmtree p st) = the_fs st
  ∧ cwd (os (before_rmtree p st)) = cwd (os st).
Proof.
  unfold before_rmtree. destruct (decide _); [| done]. apply stop_dev_server_files.
Qed.

Lemma loc_snoc (k : loc) : k ≠ [] → k = removelast k ++ [List.last k ""].
Proof. intros Hk. by apply app_removelast_last. Qed.

Lemma elem_of_children (f : fsmap) (l : loc) c :
  c ∈ Fs.children f l ↔ is_Some (f !! (l ++ [c])).
Proof.
  unfold Fs.children. rewrite list_elem_of_omap. split.
  - intros (k & Hk & Hc). case_decide as Hd; [| done]. destruct Hd as [<- Hne].
    injection Hc as <-. rewrite <- loc_snoc by done.
    apply list_elem_of_In, in_map_iff in Hk as ([k' n] & <- & Hin).
    apply list_elem_of_In, elem_of_map_to_list in Hin. by eexists.
  - intros [n Hn]. exists (l ++ [c]). split.
    + apply list_elem_of_In, in_map_iff. exists (l ++ [c], n). split; [done |].
      by apply list_elem_of_In, elem_of_map_to_list.
    + rewrite decide_True.
      * by rewrite last_last.
      * split; [by rewrite removelast_last | by destruct l].
Qed.

Lemma remove_tree_lookup (l : loc) (f : fsmap) (k : loc) :
  Fs.remove_tree l f !! k = if decide (l `prefix_of` k) then None else f !! k.
Proof.
  unfold Fs.remove_tree. destruct (f !! k) as [n|] eqn:Hk.
  - destruct (decide (l `prefix_of` k)) as [Hp|Hp].
    + apply map_lookup_filter_None. right. intros n' _. simpl. unfold Fs.below. tauto.
    + apply map_lookup_filter_Some. split; [done |]. exact Hp.
  - transitivity (@None node); [| by destruct (decide _)].
    apply map_lookup_filter_None. by left.
Qed.

Lemma remove_tree_dirs (l : loc) (f : fsmap) (k : loc) :
  Fs.node_at (Fs.remove_tree l f) k = Some Dir → Fs.node_at f k = Some Dir.
Proof.
  destruct k as [|c k]; [done |]. simpl. rewrite remove_tree_lookup.
  by destruct (decide _).
Qed.

Lemma exists_after_rmtree (f : fsmap) (cwd : loc) (p : path) (l : loc) :
  Fs.resolve f cwd p = inr l → l ≠ [] →
  Fs.exists_ (Fs.remove_tree l f) cwd p = false.
Proof.
  intros Hres Hl. unfold Fs.exists_, Fs.stat.
  destruct (Fs.resolve (Fs.remove_tree l f) cwd p) as [e|l'] eqn:Hres'; [done |].
  unfold Fs.resolve in *.
  apply (walk_dirs_stay _ f) in Hres'; [| apply remove_tree_dirs].
  rewrite Hres in Hres'. injection Hres' as <-.
  destruct l as [|c l]; [done |]. simpl. rewrite remove_tree_lookup.
  by rewrite decide_True.
Qed.

Lemma empty_dir_lookup (l : loc) (f : fsmap) (k : loc) :
  Fs.empty_dir l f !! k = if decide (l `prefix_of` k ∧ k ≠ l) then None else f !! k.
Proof.
  unfold Fs.empty_dir. destruct (f !! k) as [n|] eqn:Hk.
  - destruct (decide (l `prefix_of` k ∧ k ≠ l)) as [Hp|Hp].
    + apply map_lookup_filter_None. right. intros n' _. simpl. unfold Fs.inside. tauto.
    + apply map_lookup_filter_Some. split; [done |]. exact Hp.
  - transitivity (@None node); [| by destruct (decide _)].
    apply map_lookup_filter_None. by left.
Qed.

Lemma empty_dir_node (l : loc) (f : fsmap) (k : loc) :
  ¬ (l `prefix_of` k ∧ k ≠ l) → Fs.node_at (Fs.empty_dir l f) k = Fs.node_at f k.
Proof.
  intros H. destruct k as [|c k]; [done |]. simpl. rewrite empty_dir_lookup.
  by rewrite decide_False.
Qed.

Lemma empty_dir_dirs (l : loc) (f : fsmap) (k : loc) :
  Fs.node_at (Fs.empty_dir l f) k = Some Dir → Fs.node_at f k = Some Dir.
Proof.
  destruct k as [|c k]; [done |]. simpl. rewrite empty_dir_lookup.
  by destruct (decide _).
Qed.

(** An emptied directory has no children. *)
Lemma children_empty_dir (l : loc) (f : fsmap) : Fs.children (Fs.empty_dir l f) l = [].
Proof.
  destruct (Fs.children _ l) as [|c cs] eqn:H; [done |].
  assert (c ∈ Fs.children (Fs.empty_dir l f) l) as Hc by (rewrite H; left).
  apply elem_of_children in Hc as [n Hn]. rewrite empty_dir_lookup in Hn.
  rewrite decide_True in Hn; [done |]. split; [by apply prefix_app_r |].
  intros Heq. apply (f_equal length) in Heq. rewrite length_app in Heq. simpl in Heq. lia.
Qed.

(** Emptying a directory and removing it removes its tree. *)
Lemma delete_empty_dir (l : loc) (f : fsmap) :
  delete l (Fs.empty_dir l f) = Fs.remove_tree l f.
Proof.
  apply map_eq. intros k. rewrite remove_tree_lookup.
  destruct (decide (k = l)) as [->|Hne].
  - rewrite lookup_delete_eq. by rewrite decide_True.
  - rewrite lookup_delete_ne by done. rewrite empty_dir_lookup.
    destruct (decide (l `prefix_of` k)).
    + by rewrite decide_True.
    + rewrite decide_False; [done |]. by intros [? ?].
Qed.

(** [rmtree], step by step. *)
Lemma rmtree_run p st :
  rmtree p st =
  match Fs.resolve (the_fs st) (cwd (os st)) p with
  | inl e => (Raise e, st)
  | inr l =>
      match Fs.node_at (the_fs st) l with
      | Some Dir =>
          let s1 := on_os (record (EvEmpty l)) st in
          match Fs.resolve (Fs.empty_dir l (the_fs st)) (cwd (os st)) p with
          | inl e => (Raise e, s1)
          | inr _ => if ends_in_name p then (Ret tt, on_os (record (EvRmdir l)) s1)
                     else (Raise OSError, s1)
          end
      | Some (File _) => (Raise NotADirectoryError, st)
      | None => (Raise FileNotFoundError, st)
      end
  end.
Proof.
  unfold rmtree, os_rmdir, resolve, the_fs. mrun.
  destruct (Fs.resolve _ _ p) as [e|l] eqn:Hres; mrun; [done |].
  destruct (Fs.node_at _ l) as [[|c]|] eqn:Hn; mrun; [| done ..].
  cbn [os on_os record fs cwd apply_fs].
  destruct (Fs.resolve (Fs.empty_dir l _) _ p) as [e|l'] eqn:Hres'; mrun; [done |].
  assert (l' = l) as ->.
  { unfold Fs.resolve in *.
    apply (walk_dirs_stay _ (fs (os st))) in Hres'; [| apply empty_dir_dirs]. congruence. }
  destruct (ends_in_name p); mrun; [| done].
  cbn [os on_os record fs cwd apply_fs].
  rewrite empty_dir_node, Hn by (by intros [_ ?]). mrun.
  cbn [os on_os record fs cwd apply_fs]. by rewrite children_empty_dir.
Qed.

(** Resolution of a path of names. *)
Lemma walk_names (f : fsmap) cur ps l :
  ".." ∉ ps → Fs.walk f cur ps = inr l → l = cur ++ ps.
Proof.
  revert cur. induction ps as [|c ps IH]; intros cur Hps; simpl.
  - intros [= <-]. by rewrite app_nil_r.
  - destruct (Fs.node_at f cur) as [[|?]|]; [| done ..].
    apply not_elem_of_cons in Hps as [Hc Hps].
    rewrite (proj2 (String.eqb_neq c "..")) by done.
    intros H. apply IH in H; [| done]. by rewrite H, <- app_assoc.
Qed.

(** A path of names goes through nothing that is inside the directory it
    leads to. *)
Lemma walk_names_empty_dir (l : loc) (f : fsmap) cur ps :
  ".." ∉ ps → (cur ++ ps) `prefix_of` l →
  Fs.walk (Fs.empty_dir l f) cur ps = Fs.walk f cur ps.
Proof.
  revert cur. induction ps as [|c ps IH]; intros cur Hps Hl; simpl; [done |].
  apply not_elem_of_cons in Hps as [Hc Hps].
  rewrite empty_dir_node.
  - destruct (Fs.node_at f cur) as [[|?]|]; [| done ..].
    rewrite (proj2 (String.eqb_neq c "..")) by done.
    apply IH; [done |]. by rewrite <- app_assoc.
  - intros [Hp Hne]. apply prefix_length in Hp, Hl. rewrite length_app in Hl.
    simpl in Hl. lia.
Qed.

Lemma ends_in_name_plain p : plain p → ends_in_name p = true.
Proof.
  intros [Hne Hdots]. unfold ends_in_name.
  destruct (parts p) as [|c ps] using rev_ind; [done |].
  rewrite map_app. cbn [map]. rewrite last_last. apply not_elem_of_app in Hdots as [_ Hc].
  apply not_elem_of_cons in Hc as [Hc _].
  by rewrite (proj2 (String.eqb_neq c "..")).
Qed.

(** [rmtree] of a directory given by a path of names removes its tree. *)
Lemma rmtree_plain p st l :
  plain p →
  Fs.resolve (the_fs st) (cwd (os st)) p = inr l →
  Fs.node_at (the_fs st) l = Some Dir →
  rmtree p st = (Ret tt, on_os (record (EvRmdir l)) (on_os (record (EvEmpty l)) st)).
Proof.
  intros Hp Hres Hn. rewrite rmtree_run, Hres, Hn. cbv zeta.
  rewrite (ends_in_name_plain p Hp). destruct Hp as [_ Hdots].
  unfold Fs.resolve in *. pose proof (walk_names _ _ _ _ Hdots Hres) as Hl.
  rewrite walk_names_empty_dir, Hres; [done | done | by rewrite Hl].
Qed.

(** What [rmtree] leaves of a directory. *)
Lemma rmtree_dir p st l :
  Fs.resolve (the_fs st) (cwd (os st)) p = inr l →
  Fs.node_at (the_fs st) l = Some Dir →
  rmtree p st = (Ret tt, on_os (record (EvRmdir l)) (on_os (record (EvEmpty l)) st))
  ∨ ∃ e, rmtree p st = (Raise e, on_os (record (EvEmpty l)) st).
Proof.
  intros Hres Hn. rewrite rmtree_run, Hres, Hn. cbv zeta.
  destruct (Fs.resolve (Fs.empty_dir l _) _ p) as [e|l']; [right; by eexists |].
  destruct (ends_in_name p); [by left | right; by eexists].
Qed.

Lemma delete_project_missing st project_name :
  project_name ≠ "" →
  Fs.exists_ (the_fs st) (cwd (os st)) (workspace_dir // project_name) = false →
  delete_project project_name st = (Ret (NotFound project_name), st).
Proof.
  intros Hne He. unfold delete_project. apply String.eqb_neq in Hne. rewrite Hne.
  mrun. unfold exists_. mrun. fold (the_fs st). by rewrite He.
Qed.

(** The three ways [delete_project] goes once the path leads somewhere. *)
Lemma delete_project_cases st project_name l :
  project_name ≠ "" →
  Fs.resolve (the_fs st) (cwd (os st)) (workspace_dir // project_name) = inr l →
  is_Some (Fs.node_at (the_fs st) l) →
  let s0 := before_rmtree (workspace_dir // project_name) st in
  (Fs.node_at (the_fs st) l = Some Dir
   ∧ delete_project project_name st
     = (Ret (Deleted project_name),
        after (add_terminal_output (LogDeleted project_name))
          (on_os (record (EvRmdir l)) (on_os (record (EvEmpty l)) s0))))
  ∨ (Fs.node_at (the_fs st) l = Some Dir
     ∧ ∃ e, delete_project project_name st
            = (Ret (ErrorDeleting e), on_os (record (EvEmpty l)) s0))
  ∨ ((∃ c, Fs.node_at (the_fs st) l = Some (File c))
     ∧ delete_project project_name st = (Ret (ErrorDeleting NotADirectoryError), s0)).
Proof.
  intros Hne Hres [n Hn] s0.
  assert (Fs.exists_ (the_fs st) (cwd (os st)) (workspace_dir // project_name) = true) as He.
  { unfold Fs.exists_, Fs.stat. by rewrite Hres, Hn. }
  destruct (before_rmtree_files (workspace_dir // project_name) st) as [Hfs Hcwd].
  fold s0 in Hfs, Hcwd. rewrite delete_project_run by done. fold s0.
  destruct n as [|c].
  - destruct (rmtree_dir (workspace_dir // project_name) s0 l) as [->|[e ->]].
    + by rewrite Hfs, Hcwd.
    + by rewrite Hfs.
    + by left.
    + right. left. split; [done |]. by exists e.
  - right. right. split; [by eexists |].
    by rewrite rmtree_run, Hfs, Hcwd, Hres, Hn.
Qed.

Lemma delete_project_deleted st project_name l :
  project_name ≠ "" →
  plain (workspace_dir // project_name) →
  Fs.resolve (the_fs st) (cwd (os st)) (workspace_dir // project_name) = inr l →
  Fs.node_at (the_fs st) l = Some Dir →
  delete_project project_name st
  = (Ret (Deleted project_name),
     after (add_terminal_output (LogDeleted project_name))
       (on_os (record (EvRmdir l))
          (on_os (record (EvEmpty l)) (before_rmtree (workspace_dir // project_name) st)))).
Proof.
  intros Hne Hp Hres Hn.
  assert (Fs.exists_ (the_fs st) (cwd (os st)) (workspace_dir // project_name) = true) as He.
  { unfold Fs.exists_, Fs.stat. by rewrite Hres, Hn. }
  destruct (before_rmtree_files (workspace_dir // project_name) st) as [Hfs Hcwd].
  rewrite delete_project_run by done.
  by rewrite (rmtree_plain _ _ l Hp) by (by rewrite ?Hfs, ?Hcwd).
Qed.

(** The state that a terminal line and system calls on files leave. *)
Lemma after_log_files text evs st :
  let st' := after (add_terminal_output text) (foldl (λ s ev, on_os (record ev) s) st evs) in
  the_fs st' = replay evs (the_fs st)
  ∧ cwd (os st') = cwd (os st)
  ∧ the_trace st' = the_trace st ++ evs
  ∧ the_project st' = the_project st
  ∧ (Forall fs_event evs → supervisor st' = supervisor st).
Proof.
  intros st'. subst st'. unfold after. rewrite add_terminal_output_run. cbn [snd].
  revert st. induction evs as [|ev evs IH]; intros st.
  - simpl. split_and!; try done. unfold the_trace. by rewrite app_nil_r.
  - cbn [foldl]. destruct (IH (on_os (record ev) st)) as (H1 & H2 & H3 & H4 & H5).
    split_and!.
    + by rewrite H1.
    + by rewrite H2.
    + rewrite H3. unfold the_trace. simpl. by rewrite <- app_assoc.
    + by rewrite H4.
    + intros Hev. apply Forall_cons in Hev as [Hev Hevs]. rewrite (H5 Hevs).
      unfold supervisor. simpl. by destruct ev.
Qed.

(** A name that leads to a directory through the tree below it: the
    directory is emptied, and then the path does not lead to it any more. *)
Example delete_through_the_tree :
  let st' := after (delete_project "demo/css/..") Example.s1 in
  Fs.resolve (the_fs Example.s1) (cwd (os Example.s1)) (workspace_dir // "demo/css/..")
  = inr ["home"; "workspace"; "demo"]
  ∧ result (delete_project "demo/css/..") Example.s1
    = Ret (ErrorDeleting FileNotFoundError)
  ∧ events_of (delete_project "demo/css/..") Example.s1
    = [EvEmpty ["home"; "workspace"; "demo"]]
  ∧ Fs.node_at (the_fs st') ["home"; "workspace"; "demo"] = Some Dir
  ∧ Fs.children (the_fs st') ["home"; "workspace"; "demo"] = [].
Proof. split_and!; vm_compute; reflexivity. Qed.

Example delete_of_the_parent :
  let st' := after (delete_project "..") Example.s1 in
  result (delete_project "..") Example.s1 = Ret (ErrorDeleting FileNotFoundError)
  ∧ Fs.node_at (the_fs st') ["home"] = Some Dir
  ∧ Fs.children (the_fs st') ["home"] = [].
Proof. split_and!; vm_compute; reflexivity. Qed.

(** X8: [delete_project] never raises, and what it does to the files goes
    with its answer.  With "Deleted project" the tree below the directory
    the path leads to is gone, that directory included, every other file and
    directory is as it was, and the path leads nowhere any more.  With
    "Error deleting project" either the path leads to a file and nothing is
    changed, or the path leads to a directory that could be emptied but not
    removed: everything inside it is gone, the directory itself and all the
    rest are as they were.  With any other answer the files are as before.
    A name without [..] that leads to a directory is always deleted. *)
Theorem delete_removes_the_tree_only (st : state) (project_name : string) :
  let project_path := workspace_dir // project_name in
  let st' := after (delete_project project_name) st in
  (∃ answer,
    result (delete_project project_name) st = Ret answer
    ∧ cwd (os st') = cwd (os st)
    ∧ match answer with
      | Deleted n =>
          n = project_name
          ∧ ∃ l, Fs.resolve (the_fs st) (cwd (os st)) project_path = inr l
                 ∧ Fs.node_at (the_fs st) l = Some Dir
                 ∧ the_fs st' = Fs.remove_tree l (the_fs st)
                 ∧ (∀ k, l `prefix_of` k → the_fs st' !! k = None)
                 ∧ (∀ k, ¬ l `prefix_of` k → the_fs st' !! k = the_fs st !! k)
                 ∧ (l ≠ [] → Fs.exists_ (the_fs st') (cwd (os st')) project_path = false)
      | ErrorDeleting e =>
          ∃ l, Fs.resolve (the_fs st) (cwd (os st)) project_path = inr l
               ∧ (((∃ c, Fs.node_at (the_fs st) l = Some (File c))
                   ∧ e = NotADirectoryError
                   ∧ the_fs st' = the_fs st)
                  ∨ (Fs.node_at (the_fs st) l = Some Dir
                     ∧ ¬ plain project_path
                     ∧ the_fs st' = Fs.empty_dir l (the_fs st)
                     ∧ Fs.node_at (the_fs st') l = Some Dir
                     ∧ (∀ k, l `prefix_of` k → k ≠ l → the_fs st' !! k = None)
                     ∧ (∀ k, ¬ (l `prefix_of` k ∧ k ≠ l) →
                             the_fs st' !! k = the_fs st !! k)))
      | _ => the_fs st' = the_fs st
      end)
  ∧ (∀ l, project_name ≠ "" → plain project_path →
          Fs.resolve (the_fs st) (cwd (os st)) project_path = inr l →
          Fs.node_at (the_fs st) l = Some Dir →
          result (delete_project project_name) st = Ret (Deleted project_name)).
Proof.
  intros project_path st'. subst st' project_path. split.
  2:{ intros l Hne Hp Hres Hn. unfold result.
      by rewrite (delete_project_deleted st project_name l). }
  destruct (decide (project_name = "")) as [->|Hne]; [by eexists |].
  destruct (Fs.exists_ (the_fs st) (cwd (os st)) (workspace_dir // project_name)) eqn:He.
  2:{ unfold result, after. rewrite delete_project_missing by done. by eexists. }
  destruct (Fs.resolve (the_fs st) (cwd (os st)) (workspace_dir // project_name)) as [e|l] eqn:Hres.
  { unfold Fs.exists_, Fs.stat in He. by rewrite Hres in He. }
  assert (is_Some (Fs.node_at (the_fs st) l)) as Hsome.
  { unfold Fs.exists_, Fs.stat in He. rewrite Hres in He.
    destruct (Fs.node_at (the_fs st) l); [by eexists | done]. }
  destruct (before_rmtree_files (workspace_dir // project_name) st) as [Hfs Hcwd].
  destruct (delete_project_cases st project_name l Hne Hres Hsome)
    as [[Hn Hrun]|[(Hn & e & Hrun)|[Hn Hrun]]];
    unfold result, after; rewrite Hrun; cbn [fst snd].
  - destruct (after_log_files (LogDeleted project_name) [EvEmpty l; EvRmdir l]
                (before_rmtree (workspace_dir // project_name) st)) as (Hf & Hc & _).
    cbn [foldl replay apply_fs] in Hf, Hc. rewrite delete_empty_dir, Hfs in Hf.
    rewrite Hcwd in Hc.
    exists (Deleted project_name). rewrite Hf, Hc.
    split_and!; [done | done | done |]. exists l.
    split_and!; [done | done | done | | |].
    + intros k Hk. rewrite remove_tree_lookup. by rewrite decide_True.
    + intros k Hk. rewrite remove_tree_lookup. by rewrite decide_False.
    + intros Hl. by apply exists_after_rmtree.
  - exists (ErrorDeleting e). unfold the_fs in *. cbn [os on_os record fs cwd apply_fs].
    rewrite Hfs, Hcwd. split_and!; [done | done |]. exists l. split; [done |].
    right. split_and!; [done | | done | | |].
    + intros Hp. rewrite (delete_project_deleted st project_name l) in Hrun by done.
      discriminate Hrun.
    + rewrite empty_dir_node by (by intros [_ ?]). done.
    + intros k Hk Hkl. rewrite empty_dir_lookup. by rewrite decide_True.
    + intros k Hk. rewrite empty_dir_lookup. by rewrite decide_False.
  - exists (ErrorDeleting NotADirectoryError). rewrite Hfs, Hcwd.
    split_and!; [done | done |]. exists l. split; [done |]. by left.
Qed.

(** X9: [delete_project] knows the open project by its path as written.
    Called with a name without [..] that makes another path and leads to a
    directory, it stops no server and keeps the selection: its only system
    calls are those that remove the tree.  So when that other path leads to
    the directory of the open project, the directory is removed while the
    dev server started in it is still running and the project is still
    selected, its path leading nowhere. *)
Theorem delete_by_another_path (st : state) (project_name : string) (l : loc) :
  project_name ≠ "" →
  the_project st ≠ Some (workspace_dir // project_name) →
  plain (workspace_dir // project_name) →
  Fs.resolve (the_fs st) (cwd (os st)) (workspace_dir // project_name) = inr l →
  Fs.node_at (the_fs st) l = Some Dir →
  let st' := after (delete_project project_name) st in
  result (delete_project project_name) st = Ret (Deleted project_name)
  ∧ events_of (delete_project project_name) st = [EvEmpty l; EvRmdir l]
  ∧ supervisor st' = supervisor st
  ∧ running st' = running st
  ∧ the_project st' = the_project st
  ∧ ∀ q, the_project st = Some q →
         Fs.resolve (the_fs st) (cwd (os st)) q = inr l → l ≠ [] →
         Fs.exists_ (the_fs st') (cwd (os st')) q = false.
Proof.
  intros Hne Hp Hplain Hres Hn st'. subst st'.
  unfold result, events_of, after.
  rewrite (delete_project_deleted st project_name l) by done. cbn [fst snd].
  unfold before_rmtree. rewrite decide_False by done.
  destruct (after_log_files (LogDeleted project_name) [EvEmpty l; EvRmdir l] st)
    as (Hf & Hc & Ht & Hq & Hs).
  cbn [foldl replay apply_fs] in Hf, Hc, Ht, Hq, Hs. rewrite delete_empty_dir in Hf.
  specialize (Hs ltac:(by repeat constructor)).
  split_and!; [done | | done | | done |].
  - unfold the_trace in Ht. by rewrite Ht, drop_app_length.
  - pose proof (f_equal (λ x, x.1.1) Hs) as Hs1.
    pose proof (f_equal (λ x, x.1.2) Hs) as Hs2.
    unfold supervisor in Hs1, Hs2. cbn [fst snd] in Hs1, Hs2.
    unfold running. by rewrite Hs1, Hs2.
  - intros q _ Hresq Hl. rewrite Hf, Hc. by apply exists_after_rmtree.
Qed.

Lemma delete_by_another_path_witness :
  result (delete_project "/home/workspace/demo") Example.s_serving
  = Ret (Deleted "/home/workspace/demo")
  ∧ running (after (delete_project "/home/workspace/demo") Example.s_serving) = true
  ∧ the_project (after (delete_project "/home/workspace/demo") Example.s_serving)
    = Some Example.demo
  ∧ Fs.exists_ (the_fs (after (delete_project "/home/workspace/demo") Example.s_serving))
      (cwd (os (after (delete_project "/home/workspace/demo") Example.s_serving)))
      Example.demo = false.
Proof.
  assert (the_project Example.s_serving = Some Example.demo) as Hq
    by (vm_compute; reflexivity).
  assert (running Example.s_serving = true) as Hrun by (vm_compute; reflexivity).
  destruct (delete_by_another_path Example.s_serving "/home/workspace/demo"
              ["home"; "workspace"; "demo"])
    as (H1 & _ & _ & H4 & H5 & H6).
  - intros H. discriminate H.
  - rewrite Hq. intros H. vm_compute in H. discriminate H.
  - split; [intros H; discriminate H |].
    change (parts (workspace_dir // "/home/workspace/demo"))
      with ["home"; "workspace"; "demo"].
    intros H. repeat (apply elem_of_cons in H as [H|H]; [discriminate H |]).
    by apply elem_of_nil in H.
  - vm_compute. reflexivity.
  - vm_compute. reflexivity.
  - split_and!.
    + exact H1.
    + rewrite H4. exact Hrun.
    + rewrite H5. exact Hq.
    + apply H6; [exact Hq | vm_compute; reflexivity | intros H; discriminate H].
Defined.




(** ** Generating code *)

Lemma try_except_cases {A} (m : M A) (h : exn → M A) st o st' :
  try_except m h st = (o, st') →
  (∃ a, m st = (Ret a, st') ∧ o = Ret a)
  ∨ (∃ e s, m st = (Raise e, s) ∧ h e s = (o, st')).
Proof.
  unfold try_except. destruct (m st) as [[a|e] s].
  - intros [= <- <-]. left. by exists a.
  - intros H. right. by exists e, s.
Qed.

(** X10: [generate_code] never raises.  Before the model is loaded,
    without an image, or without an open project it answers so and leaves
    the state as it is.  Otherwise whatever goes wrong on the way comes back
    as an answer "Error", with no code and an empty history table; code is
    returned only with the answer "Generated successfully!".  The terminal
    returned is the terminal as the call leaves it, and the call changes
    neither the selection nor the dev server. *)
Theorem generate_code_never_raises (st : state) (image : option nat)
    (target_file custom_prompt : string) (save_shot : bool) :
  let m := generate_code image target_file custom_prompt save_shot in
  ∃ answer code history,
    result m st = Ret (answer, code, Lines (terminal_history (self (after m st))), history)
    ∧ ((answer = Generated ∧ is_Some code) ∨ ((∃ e, answer = Error e) ∧ code = None ∧ history = [])
       ∨ (answer ∈ [LoadModelFirst; UploadImage; OpenProjectFirst]
          ∧ code = None ∧ history = [] ∧ after m st = st))
    ∧ (model (self st) = false → answer = LoadModelFirst)
    ∧ (model (self st) = true → image = None → answer = UploadImage)
    ∧ (model (self st) = true → is_Some image → the_project st = None →
       answer = OpenProjectFirst)
    ∧ the_project (after m st) = the_project st
    ∧ supervisor (after m st) = supervisor st.
Proof.
  intros m.
  assert (quiet st (after m st)) as (_ & Hproj & _ & Hsup).
  { apply preserves_generate_code;
      [apply _ | apply quiet_terminal | apply quiet_mkdir_ev | apply quiet_write_text]. }
  unfold result, after in *. destruct (m st) as [o s'] eqn:H. simpl in *.
  revert H. subst m. unfold generate_code. mrun.
  destruct (model (self st)) eqn:Hm; simpl.
  2:{ unfold get_terminal_output. mrun. intros [= <- <-].
      exists LoadModelFirst, None, []. split_and!; try done.
      right. right. split_and!; try done. set_solver. }
  destruct image as [img|].
  2:{ unfold get_terminal_output. mrun. intros [= <- <-].
      exists UploadImage, None, []. split_and!; try done.
      right. right. split_and!; try done. set_solver. }
  mrun. unfold the_project in *.
  destruct (current_project (self st)) as [p|] eqn:Hp.
  2:{ unfold get_terminal_output. mrun. intros [= <- <-].
      exists OpenProjectFirst, None, []. split_and!; try done.
      right. right. split_and!; try done. set_solver. }
  intros H. apply try_except_cases in H as [(v & H & ->)|(e & s & _ & H)].
  - apply bind_ret_inv in H as ([] & s1 & _ & H).
    apply bind_ret_inv in H as (ex & s2 & _ & H).
    apply bind_ret_inv in H as (ty & s3 & _ & H).
    apply bind_ret_inv in H as ([] & s4 & _ & H).
    apply bind_ret_inv in H as (shot & s5 & _ & H).
    apply bind_ret_inv in H as (code & s6 & _ & H).
    apply bind_ret_inv in H as ([] & s7 & _ & H).
    apply bind_ret_inv in H as ([] & s8 & _ & H).
    apply bind_ret_inv in H as ([] & s9 & _ & H).
    apply bind_ret_inv in H as (t & s10 & _ & H).
    apply bind_ret_inv in H as ([] & s11 & _ & H).
    apply bind_ret_inv in H as (history & s12 & _ & H).
    revert H. unfold get_terminal_output. mrun. intros [= <- <-].
    exists Generated, (Some code), history. split_and!; try done.
    left. split; [done | by eexists].
  - revert H. unfold get_terminal_output. mrun. intros [= <- <-].
    exists (Error e), None, []. split_and!; try done.
    right. left. split_and!; [by eexists | done | done].
Qed.

(** ** Screenshots *)

Lemma contains_char_app c a b :
  contains_char c (a +:+ b) = contains_char c a || contains_char c b.
Proof. induction a as [|x a IH]; simpl; [done |]. by rewrite IH, orb_assoc. Qed.

Lemma contains_char_replace c a b s :
  b ≠ c → contains_char c s = false ∨ a = c →
  contains_char c (Py.replace_char a b s) = false.
Proof.
  intros Hb Hs. induction s as [|x s IH]; simpl; [done |].
  simpl in Hs. destruct (Ascii.eqb_spec x a) as [->|Hxa].
  - rewrite (proj2 (Ascii.eqb_neq b c) Hb). simpl. apply IH.
    destruct Hs as [Hs|Hs]; [| by right]. left. by apply orb_false_elim in Hs as [_ Hs].
  - destruct Hs as [Hs|Hs].
    + apply orb_false_elim in Hs as [-> Hs]. simpl. apply IH. by left.
    + subst a. rewrite (proj2 (Ascii.eqb_neq x c) Hxa). simpl. apply IH. by right.
Qed.

Lemma rev_app_append a b c : String.rev_app a b +:+ c = String.rev_app a (b +:+ c).
Proof. revert b. induction a as [|x a IH]; intros b; simpl; [done |]. by rewrite IH. Qed.

Lemma split_slash_plain cur s :
  contains_char "/" s = false → Py.split_slash_aux cur s = [String.rev cur +:+ s].
Proof.
  revert cur. induction s as [|x s IH]; intros cur; simpl.
  - intros _. f_equal. unfold String.rev. rewrite rev_app_append. done.
  - intros [Hx Hs]%orb_false_elim. rewrite Hx, IH by done. f_equal.
    unfold String.rev. simpl. by rewrite !rev_app_append.
Qed.

(** A name without a separator that is neither empty nor ["."] is a path
    of one part. *)
Lemma parse_path_plain s :
  contains_char "/" s = false → s ≠ "" → s ≠ "." → parse_path s = Path false [s].
Proof.
  intros Hs He Hd. unfold parse_path, Py.split_slash.
  rewrite split_slash_plain by done. change (String.rev "" +:+ s) with s.
  assert (keep_part s = true) as Hk.
  { unfold keep_part.
    by rewrite (proj2 (String.eqb_neq _ _) He), (proj2 (String.eqb_neq _ _) Hd). }
  cbn [List.filter]. rewrite Hk. f_equal.
  destruct s as [|x s]; [done |]. cbn [Py.startswith contains_char] in *.
  apply orb_false_elim in Hs as [Hx _]. by rewrite Ascii.eqb_sym, Hx.
Qed.

Lemma length_append a b : String.length (a +:+ b) = (String.length a + String.length b)%nat.
Proof. induction a as [|x a IH]; simpl; [done |]. by rewrite IH. Qed.

Lemma walk_snoc (f : fsmap) cur ps c l :
  Fs.walk f cur (ps ++ [c]) = inr l → c ≠ ".." → ∃ l0, l = l0 ++ [c].
Proof.
  revert cur. induction ps as [|x ps IH]; intros cur; simpl.
  - destruct (Fs.node_at f cur) as [[|?]|]; [| done ..].
    intros H Hc. rewrite (proj2 (String.eqb_neq c "..") Hc) in H.
    injection H as <-. by eexists.
  - destruct (Fs.node_at f cur) as [[|?]|]; [| done ..]. apply IH.
Qed.

(** X11: [save_screenshot] does nothing without an open project or without
    an image.  Otherwise the file name it makes, from the clock, the target
    file and ".png", holds no path separator whatever the target file is, so
    that the screenshot is written directly into the "screenshots"
    directory of the project: when the call returns, it returns that path,
    the directory is there and the path leads to the image. *)
Theorem screenshot_stays_in_folder (st : state) (p : path) (img : nat)
    (target_file : string) :
  (∀ image, the_project st = None ∨ image = None →
            save_screenshot image target_file st = (Ret None, st))
  ∧ (the_project st = Some p →
     contains_char "/" (stamp (now (os st))) = false →
     ∃ filename,
       contains_char "/" filename = false
       ∧ ∀ r st', save_screenshot (Some img) target_file st = (Ret r, st') →
           r = Some (Path (absolute p) (parts p ++ ["screenshots"; filename]))
           ∧ is_directory (p // "screenshots") st'
           ∧ Fs.stat (the_fs st') (cwd (os st'))
               (Path (absolute p) (parts p ++ ["screenshots"; filename]))
             = inr (File (Png img))).
Proof.
  split.
  - intros image H. unfold save_screenshot. mrun. unfold the_project in H.
    destruct H as [->| ->]; [done |]. by destruct (current_project (self st)).
  - intros Hp Hstamp.
    set (filename := stamp (now (os st)) +:+ "_"
           +:+ Py.replace_char "092" "_" (Py.replace_char "/" "_" target_file) +:+ ".png").
    assert (contains_char "/" filename = false) as Hplain.
    { subst filename. rewrite !contains_char_app, Hstamp. simpl.
      rewrite orb_false_r. apply contains_char_replace; [done |]. left.
      apply contains_char_replace; [done | by right]. }
    assert (parse_path filename = Path false [filename]) as Hparse.
    { apply parse_path_plain; [done | |]; intros Heq;
        apply (f_equal String.length) in Heq; subst filename;
        rewrite !length_append in Heq; simpl in Heq; lia. }
    exists filename. split; [done |]. intros r st' H.
    unfold save_screenshot in H. revert H. mrun. unfold the_project in Hp. rewrite Hp.
    intros H. apply bind_ret_inv in H as ([] & s1 & Hmk & H).
    pose proof (mkdir_directory _ _ _ Hmk) as Hdir.
    pose proof (quiet_of _ _ _ _ (quiet_mkdir _) Hmk) as (_ & _ & Hclock & _).
    revert H. mrun. unfold the_clock in Hclock. rewrite Hclock. fold filename.
    assert (p // "screenshots" // filename
            = Path (absolute p) (parts p ++ ["screenshots"; filename])) as Hsp.
    { unfold join at 1. rewrite Hparse. simpl. by rewrite <- app_assoc. }
    rewrite Hsp.
    destruct (write_text_cases (Path (absolute p) (parts p ++ ["screenshots"; filename]))
                (Png img) s1) as [[e ->]|(l & Hres & Hn & ->)]; [done |].
    rewrite run_bind, add_terminal_output_run. mrun. intros [= <- <-].
    split; [done |].
    assert (l ≠ []) as Hl by (by intros ->).
    split.
    + revert Hdir. apply is_directory_dirs_stay. split; [done |].
      intros k Hk. destruct (decide (k = l)) as [->|Hne]; [done |].
      unfold the_fs in *. cbn. by rewrite !node_at_insert_ne.
    + unfold Fs.stat, the_fs. simpl.
      rewrite (resolve_insert_file _ _ l (Png img) _ l).
      * by rewrite node_at_insert_eq.
      * by rewrite node_at_insert_eq.
      * by apply resolve_insert_file.
Qed.

Lemma screenshot_stays_in_folder_witness :
  ∃ filename,
    contains_char "/" filename = false
    ∧ ∀ r st', save_screenshot (Some 7%nat) "../../etc/passwd" Example.s1 = (Ret r, st') →
        r = Some (Path false ["workspace"; "demo"; "screenshots"; filename]).
Proof.
  destruct (screenshot_stays_in_folder Example.s1 Example.demo 7 "../../etc/passwd")
    as [_ H].
  destruct H as (filename & Hplain & H); [vm_compute; reflexivity .. |].
  exists filename. split; [exact Hplain |]. intros r st' Hrun.
  by destruct (H r st' Hrun) as [-> _].
Defined.

(** ** The constructor *)

Lemma os_mkdir_run p st :
  os_mkdir p st
  = match Fs.resolve (the_fs st) (cwd (os st)) p with
    | inl e => (Raise e, st)
    | inr l => match Fs.node_at (the_fs st) l with
               | Some _ => (Raise FileExistsError, st)
               | None => (Ret tt, on_os (record (EvMkdir l)) st)
               end
    end.
Proof.
  unfold os_mkdir, resolve. mrun. fold (the_fs st).
  destruct (Fs.resolve (the_fs st) (cwd (os st)) p) as [e|l]; [done |].
  mrun. fold (the_fs st). by destruct (Fs.node_at (the_fs st) l).
Qed.

(** [mkdir(exist_ok=True)] forgives an existing directory, and nothing
    else. *)
Lemma mkdir_run p st :
  mkdir p st
  = match Fs.resolve (the_fs st) (cwd (os st)) p with
    | inl e => (Raise e, st)
    | inr l => match Fs.node_at (the_fs st) l with
               | None => (Ret tt, on_os (record (EvMkdir l)) st)
               | Some Dir => (Ret tt, st)
               | Some (File _) => (Raise FileExistsError, st)
               end
    end.
Proof.
  unfold mkdir. rewrite run_try_except, os_mkdir_run.
  destruct (Fs.resolve (the_fs st) (cwd (os st)) p) as [e|l] eqn:Hres.
  - destruct e; try done; unfold is_dir, Fs.is_dir, Fs.stat; mrun;
      fold (the_fs st); by rewrite Hres.
  - destruct (Fs.node_at (the_fs st) l) as [[|c]|] eqn:Hn; [| | done];
      unfold is_dir, Fs.is_dir, Fs.stat; mrun; fold (the_fs st); by rewrite Hres, Hn.
Qed.

Lemma init_run st :
  let l := cwd (os st) ++ ["workspace"] in
  init st
  = match Fs.node_at (the_fs st) (cwd (os st)) with
    | None => (Raise FileNotFoundError, st)
    | Some (File _) => (Raise NotADirectoryError, st)
    | Some Dir =>
        match the_fs st !! l with
        | None => (Ret tt, State (record (EvMkdir l) (os st)) blank)
        | Some Dir => (Ret tt, State (os st) blank)
        | Some (File _) => (Raise FileExistsError, st)
        end
    end.
Proof.
  intros l. unfold init. rewrite run_bind, mkdir_run.
  assert (Fs.resolve (the_fs st) (cwd (os st)) workspace_dir
          = match Fs.node_at (the_fs st) (cwd (os st)) with
            | Some Dir => inr l
            | Some (File _) => inl NotADirectoryError
            | None => inl FileNotFoundError
            end) as -> by done.
  assert (Fs.node_at (the_fs st) l = the_fs st !! l) as Hnode.
  { subst l. by destruct (cwd (os st)). }
  destruct (Fs.node_at (the_fs st) (cwd (os st))) as [[|c]|] eqn:Hc; [| done ..].
  rewrite Hnode.
  destruct (the_fs st !! l) as [[|c]|] eqn:Hl; by mrun.
Qed.

(** X12: the constructor makes the directory "workspace" in the working
    directory when it is missing, and starts the session with no model, no
    project, an empty terminal and no server.  It keeps every file and
    directory there is; on an existing "workspace" directory it changes no
    file at all.  When "workspace" is a regular file it raises
    [FileExistsError], and when the working directory is gone
    [FileNotFoundError]; in both cases nothing has changed. *)
Theorem init_makes_workspace (st : state) :
  (∀ st', init st = (Ret tt, st') →
          is_directory workspace_dir st'
          ∧ self st' = blank
          ∧ (∀ k n, the_fs st !! k = Some n → the_fs st' !! k = Some n)
          ∧ procs (os st') = procs (os st))
  ∧ (is_directory workspace_dir st → init st = (Ret tt, State (os st) blank))
  ∧ (∀ c, Fs.stat (the_fs st) (cwd (os st)) workspace_dir = inr (File c) →
          init st = (Raise FileExistsError, st))
  ∧ (Fs.node_at (the_fs st) (cwd (os st)) = None →
     init st = (Raise FileNotFoundError, st)).
Proof.
  pose proof (init_run st) as Hrun. simpl in Hrun.
  set (l := cwd (os st) ++ ["workspace"]) in *.
  assert (∀ f : fsmap, Fs.node_at f l = f !! l) as Hnode.
  { intros f. subst l. by destruct (cwd (os st)). }
  assert (Fs.stat (the_fs st) (cwd (os st)) workspace_dir
          = match Fs.node_at (the_fs st) (cwd (os st)) with
            | None => inl FileNotFoundError
            | Some (File _) => inl NotADirectoryError
            | Some Dir => match the_fs st !! l with
                          | Some n => inr n
                          | None => inl FileNotFoundError
                          end
            end) as Hstat.
  { unfold Fs.stat, Fs.resolve. simpl.
    destruct (Fs.node_at (the_fs st) (cwd (os st))) as [[|c]|]; [| done ..].
    fold l. by rewrite Hnode. }
  split_and!.
  - intros st'. rewrite Hrun.
    destruct (Fs.node_at (the_fs st) (cwd (os st))) as [[|c]|] eqn:Hc; [| done ..].
    destruct (the_fs st !! l) as [[|c]|] eqn:Hl; [| done |]; intros [= <-].
    + split_and!; [| done | done | done].
      change (Fs.is_dir (the_fs st) (cwd (os st)) workspace_dir = true).
      unfold Fs.is_dir. by rewrite Hstat.
    + split_and!; [| done | | done].
      * unfold is_directory, Fs.is_dir, Fs.stat, Fs.resolve, the_fs. simpl.
        assert (Fs.node_at (<[l:=Dir]> (fs (os st))) (cwd (os st)) = Some Dir) as ->.
        { rewrite node_at_insert_ne; [done |]. subst l. intros H.
          apply (f_equal length) in H. rewrite length_app in H. simpl in H. lia. }
        fold l. by rewrite Hnode, lookup_insert_eq.
      * intros k n Hk. unfold the_fs. simpl. rewrite lookup_insert_ne; [done |].
        intros Heq. rewrite <- Heq in Hk. congruence.
  - unfold is_directory, Fs.is_dir. rewrite Hstat, Hrun.
    destruct (Fs.node_at (the_fs st) (cwd (os st))) as [[|c]|]; [| done ..].
    by destruct (the_fs st !! l) as [[|c]|].
  - intros c. rewrite Hstat, Hrun.
    destruct (Fs.node_at (the_fs st) (cwd (os st))) as [[|c']|]; [| done ..].
    by destruct (the_fs st !! l) as [[|c']|].
  - intros Hc. by rewrite Hrun, Hc.
Qed.

Lemma init_makes_workspace_witness :
  is_directory workspace_dir Example.s0 ∧ self Example.s0 = blank.
Proof.
  destruct (init_makes_workspace (State Example.w0 blank)) as [H _].
  destruct (H Example.s0) as (H1 & H2 & _); [vm_compute; reflexivity |].
  split; [exact H1 | exact H2].
Defined.

(** ** Listing the projects *)

Lemma ltb_false_leb a b : String.ltb a b = false ↔ String.leb b a = true.
Proof.
  unfold String.ltb, String.leb. rewrite (String.compare_antisym b a).
  destruct (a ?= b)%string; simpl; naive_solver.
Qed.

Lemma ltb_leb a b : String.ltb a b = true → String.leb a b = true.
Proof. unfold String.ltb, String.leb. by destruct (a ?= b)%string. Qed.

Lemma leb_ne_ltb a b : String.leb a b = true → a ≠ b → String.ltb a b = true.
Proof.
  unfold String.ltb, String.leb. destruct (a ?= b)%string eqn:Hc; [| done ..].
  apply String.compare_eq_iff in Hc. done.
Qed.

Lemma leb_trans a b c :
  String.leb a b = true → String.leb b c = true → String.leb a c = true.
Proof.
  intros H1 H2. apply Is_true_true.
  apply Is_true_true in H1, H2.
  exact (transitivity (R := String.le) H1 H2).
Qed.

Lemma insert_by_perm {A} (key : A → string) x l : Py.insert_by key x l ≡ₚ x :: l.
Proof.
  induction l as [|y l IH]; simpl; [done |].
  destruct (String.ltb (key x) (key y)); [done |]. rewrite IH. apply Permutation_swap.
Qed.

Lemma sorted_by_perm {A} (key : A → string) l : Py.sorted_by key l ≡ₚ l.
Proof.
  unfold Py.sorted_by.
  assert (∀ acc, foldl (λ acc x, Py.insert_by key x acc) acc l ≡ₚ acc ++ l) as H.
  { induction l as [|x l IH]; intros acc; simpl; [by rewrite app_nil_r |].
    rewrite IH, insert_by_perm. simpl. apply Permutation_middle. }
  apply (H []).
Qed.

Lemma insert_by_ordered {A} (key : A → string) x l :
  ordered key l → ordered key (Py.insert_by key x l).
Proof.
  induction l as [|y l IH]; simpl; [done |]. intros [Hy Hl].
  destruct (String.ltb (key x) (key y)) eqn:Hxy; simpl.
  - split_and!; [| done | done]. constructor; [by apply ltb_leb |].
    eapply Forall_impl; [exact Hy |]. intros z Hz. simpl in Hz.
    eapply leb_trans; [by apply ltb_leb | done].
  - split; [| by apply IH]. rewrite insert_by_perm. constructor; [| done].
    by apply ltb_false_leb.
Qed.

Lemma sorted_by_ordered {A} (key : A → string) l : ordered key (Py.sorted_by key l).
Proof.
  unfold Py.sorted_by.
  assert (∀ acc, ordered key acc → ordered key (foldl (λ acc x, Py.insert_by key x acc) acc l))
    as H.
  { induction l as [|x l IH]; intros acc Hacc; simpl; [done |].
    by apply IH, insert_by_ordered. }
  by apply H.
Qed.

Lemma ordered_increasing {A} (key : A → string) l :
  ordered key l → NoDup (map key l) → increasing (map key l).
Proof.
  induction l as [|x l IH]; simpl; [done |]. intros [Hx Hl] [Hnin Hnd]%NoDup_cons.
  split; [| by apply IH]. apply Forall_forall. intros y Hy.
  apply list_elem_of_In, in_map_iff in Hy as (z & <- & Hz).
  apply leb_ne_ltb.
  - rewrite Forall_forall in Hx. by apply Hx, list_elem_of_In.
  - intros Heq. apply Hnin. rewrite Heq. by apply list_elem_of_In, in_map.
Qed.

Lemma NoDup_omap_inj {A B} (f : A → option B) (l : list A) :
  (∀ x y z, f x = Some z → f y = Some z → x = y) → NoDup l → NoDup (omap f l).
Proof.
  intros Hinj. induction 1 as [|x l Hx Hl IH]; simpl; [constructor |].
  destruct (f x) as [z|] eqn:Hfx; [| done]. constructor; [| done].
  intros (y & Hy & Hfy)%list_elem_of_omap.
  by rewrite (Hinj x y z Hfx Hfy) in Hx.
Qed.

Lemma NoDup_children (f : fsmap) (l : loc) : NoDup (Fs.children f l).
Proof.
  unfold Fs.children. apply NoDup_omap_inj.
  - intros x y z Hx Hy. case_decide as Hdx; [| done]. case_decide as Hdy; [| done].
    destruct Hdx as [Hx1 Hx2], Hdy as [Hy1 Hy2].
    rewrite (loc_snoc x), (loc_snoc y) by done. congruence.
  - assert (map fst (map_to_list f) = (map_to_list f).*1) as ->.
    { induction (map_to_list f) as [|? ? IH]; simpl; [done |]. by rewrite IH. }
    apply NoDup_fst_map_to_list.
Qed.

Lemma project_entry_names item st :
  ∃ r, project_entry item st = (Ret r, st)
       ∧ map s_name r = if visible st item then [name item] else [].
Proof.
  unfold project_entry, visible, is_dir, exists_. mrun. fold (the_fs st).
  destruct (Fs.is_dir (the_fs st) (cwd (os st)) item && negb (Py.startswith "." (name item)));
    [| by eexists].
  mrun. fold (the_fs st).
  destruct (Fs.exists_ (the_fs st) (cwd (os st)) (item // "meta.json")); [| by eexists].
  mrun. rewrite load_json_run.
  destruct (read_json (the_fs st) (cwd (os st)) (item // "meta.json")) as [meta|e];
    [| mrun; by eexists].
  destruct meta; mrun; by eexists.
Qed.

Lemma for_each_project_entry items st :
  ∃ r, for_each project_entry items st = (Ret r, st)
       ∧ map s_name r = map name (List.filter (visible st) items).
Proof.
  induction items as [|item items (rs & Hrs & Hn)]; simpl; [by eexists |].
  destruct (project_entry_names item st) as (r & Hr & Hname).
  exists (r ++ rs). rewrite run_bind, Hr, run_bind, Hrs. split; [done |].
  rewrite map_app, Hname, Hn. by destruct (visible st item).
Qed.

Lemma filter_names st (mk : string → path) cs :
  (∀ c, name (mk c) = c) →
  map name (List.filter (visible st) (map mk cs)) = List.filter (λ c, visible st (mk c)) cs.
Proof.
  intros Hmk. induction cs as [|c cs IH]; simpl; [done |].
  destruct (visible st (mk c)); simpl; by rewrite ?Hmk, IH.
Qed.

Lemma NoDup_list_filter {A} (f : A → bool) l : NoDup l → NoDup (List.filter f l).
Proof.
  induction 1 as [|x l Hx Hl IH]; simpl; [constructor |].
  destruct (f x); [| done]. constructor; [| done].
  intros Hin. apply Hx. apply list_elem_of_In, filter_In in Hin as [Hin _].
  by apply list_elem_of_In.
Qed.

Lemma resolve_workspace st l :
  Fs.resolve (the_fs st) (cwd (os st)) workspace_dir = inr l →
  Fs.node_at (the_fs st) (cwd (os st)) = Some Dir ∧ l = cwd (os st) ++ ["workspace"].
Proof.
  unfold Fs.resolve. simpl.
  destruct (Fs.node_at (the_fs st) (cwd (os st))) as [[|c]|]; [| done ..].
  by intros [= <-].
Qed.

Lemma visible_child st l c :
  Fs.resolve (the_fs st) (cwd (os st)) workspace_dir = inr l →
  Fs.node_at (the_fs st) l = Some Dir →
  visible st (Path false ["workspace"; c]) = true
  ↔ the_fs st !! (l ++ [c]) = Some Dir ∧ Py.startswith "." c = false.
Proof.
  intros [Hc ->]%resolve_workspace Hl.
  unfold visible, Fs.is_dir, Fs.stat, Fs.resolve, name.
  change (absolute (Path false ["workspace"; c])) with false.
  change (parts (Path false ["workspace"; c])) with ["workspace"; c].
  cbn [Fs.walk List.last]. change (String.eqb "workspace" "..") with false.
  cbn iota. rewrite Hc, Hl.
  destruct (Py.startswith "." c) eqn:Hdot.
  { rewrite andb_false_r. split; [done | by intros [_ ?]]. }
  rewrite andb_true_r.
  assert (String.eqb c ".." = false) as ->.
  { apply String.eqb_neq. intros ->. done. }
  assert (∀ k : loc, Fs.node_at (the_fs st) (k ++ [c]) = the_fs st !! (k ++ [c])) as ->
    by (intros k; by destruct k).
  destruct (the_fs st !! ((cwd (os st) ++ ["workspace"]) ++ [c])) as [[|?]|];
    (split; [intros ?; try done; by split | by intros [? ?]]).
Qed.

(** X13: when "workspace" is a directory, the names that
    [get_project_selector_choices] offers are exactly the names of the
    directories in it that do not start with a dot, each once and in
    strictly increasing order, whatever the descriptors hold or lack; they
    are the names [get_workspace_projects] lists, and nothing changes. *)
Theorem selector_offers_visible_directories (st : state) (l : loc) :
  Fs.resolve (the_fs st) (cwd (os st)) workspace_dir = inr l →
  Fs.node_at (the_fs st) l = Some Dir →
  ∃ projects,
    get_workspace_projects st = (Ret projects, st)
    ∧ get_project_selector_choices st = (Ret (map s_name projects), st)
    ∧ increasing (map s_name projects)
    ∧ ∀ c, c ∈ map s_name projects
           ↔ the_fs st !! (l ++ [c]) = Some Dir ∧ Py.startswith "." c = false.
Proof.
  intros Hres Hl.
  set (mk := λ c, Path (absolute workspace_dir) (parts workspace_dir ++ [c])).
  destruct (for_each_project_entry (map mk (Fs.children (the_fs st) l)) st)
    as (r & Hr & Hnames).
  rewrite filter_names in Hnames by done.
  assert (get_workspace_projects st = (Ret (Py.sorted_by s_name r), st)) as Hrun.
  { unfold get_workspace_projects, iterdir, resolve. mrun. fold (the_fs st).
    rewrite Hres. mrun. fold (the_fs st). rewrite Hl. mrun. fold (the_fs st).
    fold mk. rewrite Hr. by mrun. }
  assert (map s_name (Py.sorted_by s_name r) ≡ₚ map s_name r) as Hperm
    by apply Permutation_map, sorted_by_perm.
  assert (NoDup (map s_name r)) as Hnd.
  { rewrite Hnames. apply NoDup_list_filter, NoDup_children. }
  exists (Py.sorted_by s_name r). split_and!.
  - done.
  - unfold get_project_selector_choices. rewrite run_bind, Hrun. by mrun.
  - apply ordered_increasing; [apply sorted_by_ordered | by rewrite Hperm].
  - intros c. rewrite Hperm, Hnames, list_elem_of_In, filter_In, <- list_elem_of_In.
    rewrite elem_of_children. change (mk c) with (Path false ["workspace"; c]).
    rewrite (visible_child st l c Hres Hl).
    split; [by intros [_ ?] | intros [? ?]; split; [by eexists | done]].
Qed.

Lemma selector_offers_visible_directories_witness :
  ∃ projects,
    get_project_selector_choices Sample.s_two = (Ret (map s_name projects), Sample.s_two)
    ∧ increasing (map s_name projects)
    ∧ ("other" ∈ map s_name projects).
Proof.
  destruct (selector_offers_visible_directories Sample.s_two ["home"; "workspace"])
    as (projects & _ & H2 & H3 & H4); [vm_compute; reflexivity .. |].
  exists projects. split_and!; [exact H2 | exact H3 |].
  apply H4. split; vm_compute; reflexivity.
Defined.

Lemma date_cell_sliceable flag v :
  (sliceable v = true → ∃ c, date_cell flag v = inr c)
  ∧ (sliceable v = false → ∃ e, date_cell flag v = inl e ∧ (e = TypeError ∨ e = KeyError)).
Proof.
  split; intros Hv.
  - destruct v as [| | |s|l|kv]; try done; [| by eexists].
    unfold date_cell. destruct (decide (s = "Unknown")) as [->|Hne]; [by eexists |].
    exists (JStr (take_chars 10 s)).
    repeat (destruct s as [|[[] [] [] [] [] [] [] []] s]; try done).
  - destruct v as [| | |s|l|kv]; try done; simpl; try (eexists; split; [done | by left]).
    destruct flag; eexists; split; eauto.
Qed.

Lemma table_row_run flag p st :
  (dated p → ∃ c1 c2, table_row flag p st = (Ret [[JStr (s_name p); s_type p; c1; c2]], st))
  ∧ (¬ dated p → ∃ e, table_row flag p st = (Raise e, st) ∧ (e = TypeError ∨ e = KeyError)).
Proof.
  unfold table_row, dated. mrun.
  destruct (date_cell_sliceable flag (s_created p)) as [Hc1 Hc2].
  destruct (date_cell_sliceable flag (s_last_modified p)) as [Hm1 Hm2].
  destruct (sliceable (s_created p)).
  2:{ destruct Hc2 as (e & -> & He); [done |]. split; [by intros [? _] |].
      intros _. by exists e. }
  destruct Hc1 as [c1 ->]; [done |]. mrun.
  destruct (sliceable (s_last_modified p)).
  2:{ destruct Hm2 as (e & -> & He); [done |]. split; [by intros [_ ?] |].
      intros _. by exists e. }
  destruct Hm1 as [c2 ->]; [done |]. mrun. split; [| by intros []].
  intros _. by exists c1, c2.
Qed.

Lemma table_rows_run flag ps st :
  (Forall dated ps →
   ∃ rows, for_each (table_row flag) ps st = (Ret rows, st)
           ∧ Forall2 (λ p row, ∃ c1 c2, row = [JStr (s_name p); s_type p; c1; c2]) ps rows)
  ∧ (¬ Forall dated ps →
     ∃ e, for_each (table_row flag) ps st = (Raise e, st) ∧ (e = TypeError ∨ e = KeyError)).
Proof.
  induction ps as [|p ps [IH1 IH2]]; simpl.
  { split; [intros _; exists []; by split | intros H; by destruct H]. }
  destruct (table_row_run flag p st) as [Hp1 Hp2]. rewrite run_bind. split.
  - intros [Hp Hps]%Forall_cons. destruct (Hp1 Hp) as (c1 & c2 & ->). mrun.
    destruct (IH1 Hps) as (rows & -> & Hrows). mrun. eexists. split; [done |].
    constructor; [by exists c1, c2 | done].
  - intros Hn. destruct (decide (sliceable (s_created p) = true
                                 ∧ sliceable (s_last_modified p) = true)) as [Hp|Hp].
    + destruct (Hp1 Hp) as (c1 & c2 & ->). mrun.
      destruct IH2 as (e & -> & He); [| by exists e].
      intros Hps. apply Hn. by constructor.
    + destruct (Hp2 Hp) as (e & -> & He). by exists e.
Qed.

(** X14: [get_project_info_table] has one row per listed project, in the
    order of the listing, with the name and the type first, exactly when the
    two dates of every listed project are strings or lists.  As soon as a
    listed project has a date that is [null], a number, a boolean or an
    object, the table raises [TypeError] (or [KeyError], for an object from
    Python 3.12 on), although [get_workspace_projects] lists the project.
    Nothing changes either way. *)
Theorem info_table_needs_dates (st : state) (hashable_slices : bool)
    (projects : list summary) :
  get_workspace_projects st = (Ret projects, st) →
  (Forall dated projects →
   ∃ rows, get_project_info_table hashable_slices st = (Ret rows, st)
           ∧ Forall2 (λ p row, ∃ c1 c2, row = [JStr (s_name p); s_type p; c1; c2])
               projects rows)
  ∧ (¬ Forall dated projects →
     ∃ e, get_project_info_table hashable_slices st = (Raise e, st)
          ∧ (e = TypeError ∨ e = KeyError)).
Proof.
  intros Hrun. unfold get_project_info_table. rewrite run_bind, Hrun.
  destruct (table_rows_run hashable_slices projects st) as [H1 H2].
  destruct projects as [|p ps]; [| done].
  split; [intros _; exists []; by split | intros H; by destruct H].
Qed.

Lemma info_table_needs_dates_witness :
  ∃ e, get_project_info_table true Sample.s_undated = (Raise e, Sample.s_undated)
       ∧ (e = TypeError ∨ e = KeyError).
Proof.
  destruct (info_table_needs_dates Sample.s_undated true
              [Summary "demo" JNull unknown unknown]) as [_ H].
  - vm_compute. reflexivity.
  - apply H. intros [Hd _]%Forall_cons. destruct Hd as [Hd _]. discriminate Hd.
Defined.

(** ** The history table *)

Lemma history_row_state gen st : after (history_row gen) st = st.
Proof. symmetry. apply (preserves_history_row eq). Qed.

Lemma for_each_history_row_state gens st : after (for_each history_row gens) st = st.
Proof.
  symmetry. apply (preserves_for_each (P := eq)). intros g s. symmetry.
  apply history_row_state.
Qed.

Lemma read_json_exists f cwd p meta :
  read_json f cwd p = Ret meta → Fs.exists_ f cwd p = true.
Proof.
  intros (l & Hres & Hn)%read_json_ret. unfold Fs.exists_, Fs.stat. by rewrite Hres, Hn.
Qed.

Lemma load_generation_history_run st p meta gens :
  the_project st = Some p →
  read_json (the_fs st) (cwd (os st)) (p // "meta.json") = Ret meta →
  history_in meta = Some gens →
  load_generation_history st
  = match result (for_each history_row (rev gens)) st with
    | Ret rows => (Ret rows, st)
    | Raise e => (Ret [], after (add_terminal_output (LogHistoryError e)) st)
    end.
Proof.
  intros Hp Hread Hgens. unfold load_generation_history, exists_. mrun.
  unfold the_project in Hp. rewrite Hp. mrun. fold (the_fs st).
  rewrite (read_json_exists _ _ _ _ Hread). rewrite run_try_except, run_bind.
  rewrite load_json_run, Hread.
  destruct meta as [| | | | |kv]; try done. simpl in Hgens. unfold Dict.get.
  destruct (Dict.lookup "generations" kv) as [[| | | |l|]|]; try done.
  injection Hgens as ->. simpl. mrun.
  change (reversed (JArr gens) st) with (Ret (rev gens), st). cbv beta iota.
  pose proof (for_each_history_row_state (rev gens) st) as Hst.
  unfold result, after in *.
  destruct (for_each history_row (rev gens) st) as [[rows|e] s]; simpl in *; subst s.
  - done.
  - rewrite run_bind, add_terminal_output_run. by mrun.
Qed.

Lemma history_row_plain g st :
  plain_record g →
  ∃ r, history_row g st = (Ret [r], st)
       ∧ ID r = default (JStr "") (id_of g).
Proof.
  intros (kv & -> & Hprompt). unfold history_row. simpl. mrun.
  destruct (Dict.lookup "prompt" kv) as [v|] eqn:Hv; simpl.
  - destruct (Hprompt v eq_refl) as [s ->]. simpl. mrun.
    destruct (50 <? String.length s)%nat; mrun; by eexists.
  - mrun. by eexists.
Qed.

Lemma history_row_not_object g st :
  not_object g → history_row g st = (Raise AttributeError, st).
Proof.
  intros Hg. unfold history_row. destruct g; try done. by destruct (Hg kv).
Qed.

Lemma for_each_history_rows gens st :
  Forall plain_record gens →
  ∃ rows, for_each history_row gens st = (Ret rows, st)
          ∧ map ID rows = map (λ g, default (JStr "") (id_of g)) gens.
Proof.
  induction 1 as [|g gens Hg Hgens (rows & Hrows & Hid)]; simpl; [by eexists |].
  destruct (history_row_plain g st Hg) as (r & Hr & Hidr).
  rewrite run_bind, Hr, run_bind, Hrows. mrun. eexists. split; [done |].
  simpl. by rewrite Hidr, Hid.
Qed.

Lemma for_each_history_row_raises gens st :
  Exists not_object gens → ∃ e, result (for_each history_row gens) st = Raise e.
Proof.
  induction 1 as [g gens Hg|g gens Hgens [e IH]]; simpl; unfold result.
  - rewrite run_bind, history_row_not_object by done. by eexists.
  - rewrite run_bind. pose proof (history_row_state g st) as Hst. unfold after in Hst.
    destruct (history_row g st) as [[r|e'] s]; simpl in Hst; subst s; [| by eexists].
    rewrite run_bind. unfold result in IH.
    destruct (for_each history_row gens st) as [[rs|e''] s]; simpl in IH; [done |].
    by eexists.
Qed.

(** X15: the history table of the open project, read from a descriptor
    that holds a history.  When every record is an object whose prompt is a
    string, the table has one row per record, the newest first, and nothing
    changes.  When one record is not an object, the whole table is empty, and
    the only trace of it is one more line in the terminal. *)
Theorem history_table_newest_first (st : state) (p : path) (gens : list json) :
  the_project st = Some p →
  stored_history p st = Some gens →
  (Forall plain_record gens →
   ∃ rows, load_generation_history st = (Ret rows, st)
           ∧ map ID rows = map (λ g, default (JStr "") (id_of g)) (rev gens))
  ∧ (Exists not_object gens →
     ∃ e, load_generation_history st
          = (Ret [], after (add_terminal_output (LogHistoryError e)) st)).
Proof.
  intros Hp Hs. rewrite stored_history_eq in Hs.
  destruct (read_json (the_fs st) (cwd (os st)) (p // "meta.json")) as [meta|] eqn:Hread;
    [| done].
  rewrite (load_generation_history_run st p meta gens Hp Hread Hs). split.
  - intros Hall. apply Forall_rev in Hall.
    destruct (for_each_history_rows (rev gens) st Hall) as (rows & Hrows & Hid).
    unfold result. rewrite Hrows. by exists rows.
  - intros Hex. apply Exists_rev in Hex as Hex'.
    destruct (for_each_history_row_raises (rev gens) st Hex') as [e ->]. by exists e.
Qed.

Lemma history_table_newest_first_witness :
  ∃ rows, load_generation_history Example.s_twice = (Ret rows, Example.s_twice)
          ∧ map ID rows = [JStr "gen_1735732800000"; JStr "gen_1735732800000"].
Proof.
  destruct (history_table_newest_first Example.s_twice Example.demo
              [generation_record Example.noon "index.html" "first" None;
               generation_record Example.noon "index.html" "second" None]) as [H _].
  - vm_compute. reflexivity.
  - vm_compute. reflexivity.
  - apply H. repeat constructor; (eexists; split; [reflexivity |]);
      intros v Hv; vm_compute in Hv; injection Hv as <-; by eexists.
Defined.

Lemma history_row_generated t target_file custom_prompt shot st :
  history_row (generation_record t target_file custom_prompt shot) st
  = (Ret [Row (Some (iso t)) (JStr target_file) (JStr (preview_of custom_prompt))
              (match shot with
               | Some sp => truthy (JStr (name sp))
               | None => false
               end)
              (JStr (generation_id t))], st).
Proof.
  unfold history_row, generation_record, preview_of.
  cbn -[take_chars Nat.ltb String.length]. mrun.
  destruct (50 <? String.length custom_prompt)%nat; mrun; by destruct shot.
Qed.

Lemma for_each_history_row_length gens st rows st' :
  for_each history_row gens st = (Ret rows, st') → length rows = length gens.
Proof.
  revert st rows st'. induction gens as [|g gens IH]; intros st rows st'; simpl.
  - rewrite run_ret. by intros [= <- _].
  - intros H. apply bind_ret_inv in H as (r & s1 & Hr & H).
    apply bind_ret_inv in H as (rs & s2 & Hrs & H). revert H. mrun. intros [= <- _].
    apply IH in Hrs. rewrite length_app, Hrs.
    assert (length r = 1%nat) as ->; [| done].
    revert Hr. unfold history_row.
    destruct (lift (Dict.get g "target_file" unknown) st) as [[a|e] sa] eqn:H1;
      rewrite run_bind, H1; [| done].
    intros H. apply bind_ret_inv in H as (x1 & sx1 & _ & H).
    apply bind_ret_inv in H as (x2 & sx2 & _ & H).
    apply bind_ret_inv in H as (x3 & sx3 & _ & H).
    apply bind_ret_inv in H as (x4 & sx4 & _ & H).
    apply bind_ret_inv in H as (x5 & sx5 & _ & H).
    revert H. mrun. by intros [= <- _].
Qed.

(** The row of a record does not depend on the state. *)
Lemma history_row_anywhere g st : ∀ s, history_row g s = (result (history_row g) st, s).
Proof.
  intros s. unfold result, history_row.
  destruct (Dict.get g "target_file" unknown) as [e|file]; mrun; [done |].
  destruct (Dict.get g "prompt" (JStr "")) as [e|prompt]; mrun; [done |].
  destruct (len prompt) as [e|n]; mrun; [done |].
  assert (∀ s0, (if (50 <? n)%nat
                 then match prompt with
                      | JStr s1 => ret (JStr (take_chars 50 s1 +:+ "..."))
                      | _ => raise TypeError
                      end
                 else ret prompt) s0
                = ((if (50 <? n)%nat
                    then match prompt with
                         | JStr s1 => Ret (JStr (take_chars 50 s1 +:+ "..."))
                         | _ => Raise TypeError
                         end
                    else Ret prompt), s0)) as Hp.
  { intros s0. destruct (50 <? n)%nat; [| done]. by destruct prompt. }
  rewrite !Hp. destruct (if (50 <? n)%nat then _ else _) as [preview|e]; [| done].
  cbv iota.
  destruct (Dict.get g "screenshot" JNull) as [e|shot]; mrun; [done |].
  destruct (Dict.get g "generation_id" (JStr "")) as [e|gid]; mrun; done.
Qed.

(** When the rows of a list of records cannot be made, one of the records
    has no row. *)
Lemma for_each_history_row_raise gens st e s' :
  for_each history_row gens st = (Raise e, s') →
  ∃ g, g ∈ gens ∧ ∀ s, history_row g s = (Raise e, s).
Proof.
  revert st s'. induction gens as [|g gens IH]; intros st s'; simpl.
  - by rewrite run_ret.
  - rewrite run_bind. pose proof (history_row_anywhere g st) as Hg.
    destruct (history_row g st) as [[r|e'] s1] eqn:Hrow.
    + rewrite run_bind. destruct (for_each history_row gens s1) as [[rs|e''] s2] eqn:Hrest.
      * by rewrite run_ret.
      * intros [= -> _]. destruct (IH s1 s2 Hrest) as (g' & Hin & Hg').
        exists g'. split; [by right | done].
    + intros [= -> _]. exists g. split; [by left |].
      intros s. rewrite Hg. unfold result. by rewrite Hrow.
Qed.

(** X16: the history that a successful [generate_code] returns is read
    back from the descriptor it has just written, which holds the record of
    this generation after at most forty-nine older ones.  The first row of
    the table is the generation just made: the time and the identifier of
    the clock of the call, the target file, the prompt (cut to fifty
    characters and "..." when it is longer), and "no screenshot" when none
    was asked for; one row follows for each older record.  The table is
    empty only when an older record of the descriptor has no row; it is not,
    when every older record is an object whose prompt is a string, and the
    rows then are in the order of the descriptor, reversed. *)
Theorem generation_heads_the_table (st : state) (image : option nat)
    (target_file custom_prompt : string) (save_shot : bool) code term history :
  result (generate_code image target_file custom_prompt save_shot) st
  = Ret (Generated, code, term, history) →
  ∃ p older shot,
    let st' := after (generate_code image target_file custom_prompt save_shot) st in
    let new_row :=
      Row (Some (iso (now (os st)))) (JStr target_file) (JStr (preview_of custom_prompt))
          (match shot with Some sp => truthy (JStr (name sp)) | None => false end)
          (JStr (generation_id (now (os st)))) in
    the_project st = Some p
    ∧ stored_history p st'
      = Some (older ++ [generation_record (now (os st)) target_file custom_prompt shot])
    ∧ (save_shot = false → shot = None)
    ∧ (length older < 50)%nat
    ∧ ((∃ rows, history = new_row :: rows ∧ length rows = length older)
       ∨ (history = [] ∧ ∃ g e, g ∈ older ∧ ∀ s, history_row g s = (Raise e, s)))
    ∧ (Forall plain_record older →
       ∃ rows, history = new_row :: rows
               ∧ map ID rows = map (λ g, default (JStr "") (id_of g)) (rev older)).
Proof.
  unfold result, after.
  destruct (generate_code _ _ _ _ st) as [o st'] eqn:H. cbn [fst snd].
  intros ->. revert H. unfold generate_code. mrun.
  destruct (negb (model (self st))).
  { unfold get_terminal_output. mrun. by intros [= <- <-]. }
  destruct image as [img|].
  2:{ unfold get_terminal_output. mrun. by intros [= <- <-]. }
  mrun. destruct (current_project (self st)) as [p|] eqn:Hp.
  2:{ unfold get_terminal_output. mrun. by intros [= <- <-]. }
  intros H. apply try_except_inv in H as [H|(e & s & _ & H)]; first last.
  { revert H. unfold get_terminal_output. mrun. by intros [= <- <-]. }
  apply bind_ret_inv in H as ([] & s1 & H1 & H).
  apply bind_ret_inv in H as (ex & s2 & H2 & H).
  apply bind_ret_inv in H as (ty & s3 & H3 & H).
  apply bind_ret_inv in H as ([] & s4 & H4 & H).
  apply bind_ret_inv in H as (shot & s5 & H5 & H).
  apply bind_ret_inv in H as (code' & s6 & H6 & H).
  apply bind_ret_inv in H as ([] & s7 & H7 & H).
  apply bind_ret_inv in H as ([] & s8 & H8 & H).
  apply bind_ret_inv in H as ([] & s9 & H9 & H).
  apply bind_ret_inv in H as (t & s10 & H10 & H).
  apply bind_ret_inv in H as ([] & s11 & H11 & H).
  apply bind_ret_inv in H as (hist & s12 & H12 & H).
  revert H. unfold get_terminal_output. mrun. intros [= <- <- <- <-].
  assert (quiet st s9) as Hq.
  { etrans; [eapply (quiet_of _ _ _ _ _ H1) |].
    etrans; [eapply (quiet_of _ _ _ _ _ H2) |].
    etrans; [eapply (quiet_of _ _ _ _ _ H3) |].
    etrans; [eapply (quiet_of _ _ _ _ _ H4) |].
    etrans; [eapply (quiet_of _ _ _ _ _ H5) |].
    etrans; [eapply (quiet_of _ _ _ _ _ H6) |].
    etrans; [eapply (quiet_of _ _ _ _ _ H7) |].
    etrans; [eapply (quiet_of _ _ _ _ _ H8) |].
    eapply (quiet_of _ _ _ _ _ H9). }
  revert H10. mrun. intros [= <- <-].
  destruct Hq as (_ & Hproj & Hclock & _). unfold the_clock in Hclock.
  rewrite Hclock in H11.
  assert (the_project s9 = Some p) as Hp9 by (by rewrite Hproj).
  assert (save_shot = false → shot = None) as Hshot.
  { intros ->. revert H5. mrun. by intros [= <- _]. }
  set (g := generation_record (now (os st)) target_file custom_prompt shot) in *.
  assert (result (save_generation_metadata g) s9 = Ret tt) as Hsave
    by (unfold result; by rewrite H11).
  assert (s11 = after (save_generation_metadata g) s9) as Hs11
    by (unfold after; by rewrite H11).
  destruct (save_generation_metadata_last s9 p g Hp9 Hsave) as [gens Hstored].
  rewrite <- Hs11 in Hstored.
  assert (the_project s11 = Some p) as Hp11.
  { rewrite Hs11. rewrite <- Hp9. apply save_generation_metadata_project. }
  assert (length (gens ++ [g]) ≤ 50)%nat as Hlen.
  { pose proof (stored_bounded_step p g s9 Hp9) as Hb. rewrite <- Hs11 in Hb.
    unfold persisted_history in Hb. rewrite Hstored in Hb. apply Hb.
    destruct (stored_history p s9); [right; by eexists | left; simpl; lia]. }
  rewrite length_app in Hlen. simpl in Hlen.
  assert (the_fs s12 = the_fs s11 ∧ cwd (os s12) = cwd (os s11)) as [Hfs Hcwd].
  { pose proof Hstored as Hst. rewrite stored_history_eq in Hst.
    destruct (read_json (the_fs s11) (cwd (os s11)) (p // "meta.json")) as [meta|] eqn:Hread;
      [| done].
    rewrite (load_generation_history_run s11 p meta _ Hp11 Hread Hst) in H12.
    destruct (result _ s11); injection H12 as _ <-; [done |].
    unfold after. by rewrite add_terminal_output_run. }
  exists p, gens, shot. cbv zeta.
  split_and!; [done | | done | lia | |].
  { rewrite stored_history_eq, Hfs, Hcwd, <- stored_history_eq. exact Hstored. }
  all: rewrite stored_history_eq in Hstored.
  all: destruct (read_json (the_fs s11) (cwd (os s11)) (p // "meta.json"))
         as [meta|] eqn:Hread; [| done].
  all: rewrite (load_generation_history_run s11 p meta _ Hp11 Hread Hstored) in H12.
  all: rewrite rev_app_distr in H12; simpl in H12; unfold result in H12.
  all: rewrite run_bind in H12; subst g; rewrite history_row_generated in H12.
  all: rewrite run_bind in H12.
  all: destruct (for_each history_row (rev gens) s11) as [[rs|e] sr] eqn:Hrest.
  - revert H12. mrun. simpl. intros [= <- _]. left. exists rs. split; [done |].
    apply for_each_history_row_length in Hrest. by rewrite Hrest, length_rev.
  - revert H12. simpl. intros [= <- _]. right. split; [done |].
    destruct (for_each_history_row_raise _ _ _ _ Hrest) as (g & Hin & Hg).
    exists g, e. split; [| done]. apply list_elem_of_In, in_rev. by apply list_elem_of_In.
  - revert H12. mrun. simpl. intros [= <- _] Hall. exists rs. split; [done |].
    apply Forall_rev in Hall.
    destruct (for_each_history_rows (rev gens) s11 Hall) as (rows & Hrows & Hid).
    rewrite Hrows in Hrest. by injection Hrest as <- _.
  - intros Hall. apply Forall_rev in Hall.
    destruct (for_each_history_rows (rev gens) s11 Hall) as (rows & Hrows & Hid).
    rewrite Hrows in Hrest. discriminate Hrest.
  Unshelve.
  all: unfold exists_; preserves_auto.
Qed.

Lemma generation_heads_the_table_witness :
  ∃ code term r2 r1,
    result (generate_code (Some 7%nat) "index.html" "third" false) Example.s_twice
    = Ret (Generated, code, term,
           [Row (Some "2025-01-01T12:00:00") (JStr "index.html") (JStr "third") false
                (JStr "gen_1735732800000"); r2; r1])
    ∧ Prompt r2 = JStr "second" ∧ Prompt r1 = JStr "first".
Proof.
  assert (∃ code term history,
             result (generate_code (Some 7%nat) "index.html" "third" false) Example.s_twice
             = Ret (Generated, code, term, history)) as (code & term & history & H)
    by (eexists _, _, _; vm_compute; reflexivity).
  destruct (generation_heads_the_table _ _ _ _ _ _ _ _ H)
    as (p & older & shot & _ & _ & Hshot & _ & Hrows & _).
  rewrite (Hshot eq_refl) in Hrows.
  exists code, term. rewrite H.
  destruct Hrows as [(rows & -> & _)|[-> _]].
  - vm_compute in H. injection H as _ _ H.
    destruct rows as [|r2 [|r1 [|? ?]]]; try discriminate H.
    injection H as <- <-. eexists _, _. split_and!; vm_compute; reflexivity.
  - vm_compute in H. discriminate H.
Defined.

(** ** The code in the answer of the model *)

Lemma append_cons x a b : String x a +:+ b = String x (a +:+ b).
Proof. done. Qed.

Lemma append_assoc a b c : (a +:+ b) +:+ c = a +:+ (b +:+ c).
Proof. induction a as [|x a IH]; [done |]. by rewrite !append_cons, IH. Qed.

Lemma append_nil_r a : a +:+ "" = a.
Proof. induction a as [|x a IH]; [done |]. by rewrite append_cons, IH. Qed.

#[global] Instance part_of_preorder : PreOrder part_of.
Proof.
  split.
  - intros a. exists "", "". simpl. by rewrite append_nil_r.
  - intros a b c (p1 & q1 & ->) (p2 & q2 & ->). exists (p2 +:+ p1), (q1 +:+ q2).
    by rewrite !append_assoc.
Qed.


Lemma part_of_prefix a b : part_of a (a +:+ b).
Proof. by exists "", b. Qed.
















Lemma find_startswith sub s : Py.startswith sub s = true → Extract.find sub s = Some O.
Proof. intros H. destruct s; cbn [Extract.find]; by rewrite H. Qed.








Lemma drop_chars_length a r : Extract.drop_chars (String.length a) (a +:+ r) = r.
Proof. induction a as [|x a IH]; [done |]. by rewrite append_cons. Qed.



Lemma startswith_app_l p a r : Py.startswith p a = true → Py.startswith p (a +:+ r) = true.
Proof.
  revert a. induction p as [|x p IH]; intros [|y a]; simpl; try done.
  rewrite ?append_cons. simpl. destruct (Ascii.eqb x y); [apply IH | done].
Qed.

Lemma startswith_app_long p a r :
  (String.length p ≤ String.length a)%nat → Py.startswith p (a +:+ r) = Py.startswith p a.
Proof.
  revert a. induction p as [|x p IH]; intros [|y a] Hlen; simpl in *; try done; try lia.
  rewrite ?append_cons. simpl. destruct (Ascii.eqb x y); [apply IH; lia | done].
Qed.

Lemma startswith_length p s : Py.startswith p s = true → (String.length p ≤ String.length s)%nat.
Proof.
  revert s. induction p as [|x p IH]; intros [|y s]; simpl; try done; try lia.
  destruct (Ascii.eqb x y); [| done]. intros H%IH. lia.
Qed.

Lemma find_cons sub c s :
  Extract.find sub (String c s)
  = if Py.startswith sub (String c s) then Some O else option_map S (Extract.find sub s).
Proof. done. Qed.

Lemma find_bound sub s i :
  Extract.find sub s = Some i → (i + String.length sub ≤ String.length s)%nat.
Proof.
  revert i. induction s as [|c s IH]; intros i.
  - simpl. destruct (Py.startswith sub "") eqn:H; [| done]. intros [= <-].
    apply startswith_length in H. simpl in *. lia.
  - rewrite find_cons. destruct (Py.startswith sub (String c s)) eqn:H.
    + intros [= <-]. apply startswith_length in H. simpl in *. lia.
    + destruct (Extract.find sub s) as [j|]; [| done]. intros [= <-].
      specialize (IH j eq_refl). simpl. lia.
Qed.

(** The first place of [sub] in a text stays the first when the text goes
    on. *)
Lemma find_app_l sub a r i :
  Extract.find sub a = Some i → Extract.find sub (a +:+ r) = Some i.
Proof.
  revert i. induction a as [|c a IH]; intros i.
  - simpl. destruct (Py.startswith sub "") eqn:H; [| done]. intros [= <-].
    apply find_startswith. by apply (startswith_app_l sub "" r).
  - rewrite append_cons, !find_cons.
    destruct (Py.startswith sub (String c a)) eqn:H.
    + intros [= <-]. by rewrite <- append_cons, startswith_app_l.
    + destruct (Extract.find sub a) as [j|] eqn:Hj; [| done]. intros [= <-].
      rewrite <- append_cons, startswith_app_long, H.
      * by rewrite (IH j).
      * apply find_bound in Hj. simpl. lia.
Qed.

(** A place found only once the text goes on lies at its end. *)
Lemma find_app_none sub a r i :
  Extract.find sub a = None → Extract.find sub (a +:+ r) = Some i →
  (String.length a < i + String.length sub)%nat.
Proof.
  revert i. induction a as [|c a IH]; intros i.
  - intros Hn _. destruct sub; [done | simpl; lia].
  - rewrite append_cons, !find_cons.
    destruct (Py.startswith sub (String c a)) eqn:H; [done |].
    destruct (Extract.find sub a) as [j|] eqn:Hj; [done |]. intros _.
    destruct (Py.startswith sub (String c (a +:+ r))) eqn:H'.
    + intros [= <-]. destruct (decide (String.length sub ≤ String.length (String c a))%nat)
        as [Hle|Hgt]; [| simpl in *; lia].
      rewrite <- append_cons, startswith_app_long, H in H' by done. done.
    + destruct (Extract.find sub (a +:+ r)) as [k|] eqn:Hk; [| done]. intros [= <-].
      specialize (IH k eq_refl eq_refl). simpl. lia.
Qed.

(** Before the first character of [sub] occurs, [sub] does not. *)
Lemma find_skip c0 sub pre s :
  contains_char c0 pre = false →
  Extract.find (String c0 sub) (pre +:+ s)
  = option_map (λ i, String.length pre + i)%nat (Extract.find (String c0 sub) s).
Proof.
  induction pre as [|x pre IH].
  - intros _. change ("" +:+ s) with s. by destruct (Extract.find (String c0 sub) s).
  - cbn [contains_char]. intros [Hx Hpre]%orb_false_elim.
    rewrite append_cons, find_cons. cbn [Py.startswith].
    rewrite Ascii.eqb_sym, Hx, IH by done.
    by destruct (Extract.find (String c0 sub) s).
Qed.

Lemma contains_skip c0 sub pre s :
  contains_char c0 pre = false →
  Extract.contains (String c0 sub) (pre +:+ s) = Extract.contains (String c0 sub) s.
Proof.
  intros H. unfold Extract.contains. rewrite find_skip by done.
  by destruct (Extract.find (String c0 sub) s).
Qed.

Lemma contains_app_l sub a r :
  Extract.contains sub (a +:+ r) = false → Extract.contains sub a = false.
Proof.
  unfold Extract.contains. destruct (Extract.find sub a) as [i|] eqn:Hi; [| done].
  by rewrite (find_app_l sub a r i Hi).
Qed.


Lemma earliest_cases code :
  Extract.earliest_code_start code = String.length code
  ∨ ∃ m, m ∈ Extract.code_start_markers
         ∧ Extract.find m code = Some (Extract.earliest_code_start code).
Proof.
  unfold Extract.earliest_code_start.
  assert (∀ ms len,
    let e := foldl (λ earliest marker,
                      match Extract.find marker code with
                      | Some idx => if (idx <? earliest)%nat then idx else earliest
                      | None => earliest
                      end) len ms in
    e = len ∨ ∃ m, m ∈ ms ∧ Extract.find m code = Some e) as H.
  { induction ms as [|m ms IH]; intros len; simpl; [by left |].
    destruct (IH (match Extract.find m code with
                  | Some idx => if (idx <? len)%nat then idx else len
                  | None => len
                  end)) as [->|(m' & Hm' & Hf)].
    - destruct (Extract.find m code) as [j|] eqn:Hj; [| by left].
      destruct (j <? len)%nat; [| by left]. right. exists m. split; [by left | done].
    - right. exists m'. split; [by right | done]. }
  apply H.
Qed.

















